(** * klineworld: narrative-trend pipeline

    A shallow embedding of the three subsystems of the repository:

    - reference ingestion ([ingestReferences] and its extractors),
    - structured-output recovery ([extractJsonPayload], the payload
      validator and the two-attempt generation loop of the route handler),
    - the time-series phase transformer of the page component
      ([yearToTimestamp], [normalizePhases], [computePhaseRange],
      [buildAreaData]),

    and of what the page does around them: the chart panel (the label
    map and the tick formatter, the bounds series, the price scale) and
    the page itself (uploads, reference links, the request it posts,
    what it does with the reply, the insights).

    Conventions of the model:

    - a string is the sequence of its UTF-16 code units;
    - a number that carries a time is an integer (seconds or
      milliseconds) or NaN, and [Date.UTC] follows ECMAScript: years 0 to
      99 stand for 1900 to 1999, and a date more than 8.64e15 ms from the
      epoch is NaN;
    - a year given as a number is an integer; an intensity value of a
      phase is a finite number, modelled as the rational it denotes;
      where the program computes with such values (the price range)
      the arithmetic is that of doubles, infinities and NaN: the exact
      result rounded to the nearest double, ties to even, with overflow
      to an infinity (the two zeros are not told apart);
    - a function that may throw returns an [outcome];
    - calls that leave the repository (network, document and HTML
      parsers, the lenient JSON repair library, the text generator) are
      the fields of the class [Collaborators], each given the position
      of the call so that it may answer differently every time;
    - a regular expression is the function that performs its match, with
      a note where backtracking cannot change the result. *)

From Stdlib Require Import ZArith NArith QArith Qminmax Qabs List Bool Lia.
From Stdlib Require Import String Ascii.
From Stdlib Require Import DecimalString.
From Stdlib Require Import Lqa Qround Qpower.
Import ListNotations.

Set Implicit Arguments.

Open Scope Z_scope.

(* ================================================================== *)
(** * JavaScript strings *)
(* ================================================================== *)

Module Js.

(** A string value: its UTF-16 code units. *)
Definition jsstring := list N.

(** Source text is written in UTF-8; [utf16_of_utf8] turns the bytes of a
    literal into the code units the running program sees. *)
Fixpoint utf16_of_utf8 (bs : list N) : jsstring :=
  let cont (b : N) := N.land b 63 in
  match bs with
  | [] => []
  | b :: t =>
      if (b <? 128)%N then b :: utf16_of_utf8 t
      else if (b <? 224)%N then
        match t with
        | c1 :: t1 =>
            N.lor (N.shiftl (N.land b 31) 6) (cont c1) :: utf16_of_utf8 t1
        | _ => []
        end
      else if (b <? 240)%N then
        match t with
        | c1 :: c2 :: t2 =>
            N.lor (N.shiftl (N.land b 15) 12)
                  (N.lor (N.shiftl (cont c1) 6) (cont c2))
              :: utf16_of_utf8 t2
        | _ => []
        end
      else
        match t with
        | c1 :: c2 :: c3 :: t3 =>
            let cp :=
              N.lor (N.shiftl (N.land b 7) 18)
                    (N.lor (N.shiftl (cont c1) 12)
                           (N.lor (N.shiftl (cont c2) 6) (cont c3))) in
            let v := (cp - 65536)%N in
            (55296 + N.shiftr v 10)%N :: (56320 + N.land v 1023)%N
              :: utf16_of_utf8 t3
        | _ => []
        end
  end.

Definition js (s : string) : jsstring :=
  utf16_of_utf8 (map Byte.to_N (list_byte_of_string s)).

(** A literal whose double quotes are written as apostrophes. *)
Definition dq (s : string) : jsstring :=
  map (fun c => if (c =? 39)%N then 34%N else c) (js s).

Definition eqb (a b : jsstring) : bool :=
  if list_eq_dec N.eq_dec a b then true else false.

Definition length (s : jsstring) : Z := Z.of_nat (List.length s).

(** Truthiness of a string: non-empty. *)
Definition truthy (s : jsstring) : bool :=
  match s with [] => false | _ => true end.

(** The class [\s] of regular expressions, which is also the set removed
    by [String.prototype.trim]: WhiteSpace and LineTerminator. *)
Definition is_ws (c : N) : bool :=
  ((9 <=? c) && (c <=? 13) || (c =? 32) || (c =? 160) || (c =? 5760)
   || (8192 <=? c) && (c <=? 8202) || (c =? 8232) || (c =? 8233)
   || (c =? 8239) || (c =? 8287) || (c =? 12288) || (c =? 65279))%N.

(** The class [\d]: ASCII digits only. *)
Definition is_digit (c : N) : bool := ((48 <=? c) && (c <=? 57))%N.

Fixpoint dropWhile (p : N -> bool) (s : jsstring) : jsstring :=
  match s with
  | [] => []
  | c :: t => if p c then dropWhile p t else s
  end.

Fixpoint takeWhile (p : N -> bool) (s : jsstring) : jsstring :=
  match s with
  | [] => []
  | c :: t => if p c then c :: takeWhile p t else []
  end.

Definition trimStart (s : jsstring) : jsstring := dropWhile is_ws s.
Definition trimEnd (s : jsstring) : jsstring := rev (dropWhile is_ws (rev s)).
Definition trim (s : jsstring) : jsstring := trimEnd (trimStart s).

(** [s.startsWith(p)], returning the rest of [s] after [p]. *)
Fixpoint stripPrefix (p s : jsstring) : option jsstring :=
  match p, s with
  | [], _ => Some s
  | a :: p', b :: s' => if (a =? b)%N then stripPrefix p' s' else None
  | _ :: _, [] => None
  end.

Definition startsWith (p s : jsstring) : bool :=
  match stripPrefix p s with Some _ => true | None => false end.

Definition endsWith (p s : jsstring) : bool := startsWith (rev p) (rev s).

(** [s.includes(p)] *)
Fixpoint includes (p s : jsstring) : bool :=
  startsWith p s || match s with [] => false | _ :: t => includes p t end.

(** [s.indexOf(c)] for a single code unit; [-1] when absent. *)
Fixpoint indexOf_from (c : N) (s : jsstring) (i : Z) : Z :=
  match s with
  | [] => -1
  | d :: t => if (c =? d)%N then i else indexOf_from c t (i + 1)
  end.

Definition indexOf (c : N) (s : jsstring) : Z := indexOf_from c s 0.

(** [s.lastIndexOf(c)] for a single code unit; [-1] when absent. *)
Fixpoint lastIndexOf_from (c : N) (s : jsstring) (i found : Z) : Z :=
  match s with
  | [] => found
  | d :: t =>
      lastIndexOf_from c t (i + 1) (if (c =? d)%N then i else found)
  end.

Definition lastIndexOf (c : N) (s : jsstring) : Z :=
  lastIndexOf_from c s 0 (-1).

(** [s.slice(a, b)] for [0 <= a], [0 <= b]. *)
Definition slice (s : jsstring) (a b : Z) : jsstring :=
  firstn (Z.to_nat (b - a)) (skipn (Z.to_nat a) s).

(** ASCII part of [toLowerCase]; enough for the file-extension tests. *)
Definition lower (c : N) : N :=
  if ((65 <=? c) && (c <=? 90))%N then (c + 32)%N else c.

Definition toLowerCase (s : jsstring) : jsstring := map lower s.

(** Prefix test under the [i] flag of a regular expression (ASCII case
    folding; the keyword [p] is in lower case). *)
Fixpoint stripPrefix_ci (p s : jsstring) : option jsstring :=
  match p, s with
  | [], _ => Some s
  | a :: p', b :: s' =>
      if (a =? lower b)%N then stripPrefix_ci p' s' else None
  | _ :: _, [] => None
  end.

(** [Number(ds)] for a string of decimal digits: the exact integer.
    Where the transformer takes it for a year, a run too long for a
    double to hold exactly is far out of the range of dates either
    way. *)
Definition digit_val (c : N) : Z := Z.of_N c - 48.

Definition number_of_digits (ds : jsstring) : Z :=
  fold_left (fun acc c => 10 * acc + digit_val c) ds 0.

(** [String(n)] for an integer. *)
Definition of_Z (n : Z) : jsstring :=
  js (NilEmpty.string_of_int (Z.to_int n)).

(** Leftmost match of a pattern: the matcher [m] is tried at every
    position from the left, as [String.prototype.match] does for a
    regular expression without the global flag. *)
Fixpoint search (A : Type) (m : jsstring -> option A) (s : jsstring)
  : option A :=
  match m s with
  | Some r => Some r
  | None => match s with [] => None | _ :: t => search m t end
  end.

(** A loop over the elements of an array with their positions
    ([l.forEach((x, index) => ..)], or [for (const x of l)] with a
    counter), threading the state the body updates. *)
Fixpoint forEach_from (A S : Type) (f : S -> A -> nat -> S) (l : list A)
    (index : nat) (st : S) : S :=
  match l with
  | [] => st
  | x :: t => forEach_from f t (Datatypes.S index) (f st x index)
  end.

(** [s.replace(/\s+/g, " ")] *)
Fixpoint collapse_ws (s : jsstring) : jsstring :=
  match s with
  | [] => []
  | c :: t =>
      if is_ws c then
        match t with
        | d :: _ => if is_ws d then collapse_ws t else 32%N :: collapse_ws t
        | [] => [32%N]
        end
      else c :: collapse_ws t
  end.

End Js.

Import Js.

(* ================================================================== *)
(** * Time-series phase transformer (page component) *)
(* ================================================================== *)

Module Chart.

(** ** Timestamps

    A [UTCTimestamp] is a JavaScript number.  Every time the transformer
    computes is an integer number of seconds, or NaN when [Date.UTC] is
    asked for a date outside the range of time values. *)
Inductive UTCTimestamp : Type :=
| Finite (z : Z)
| NaN.

(** [a <= b] and [a < b] on numbers: false as soon as one side is NaN. *)
Definition ts_leb (a b : UTCTimestamp) : bool :=
  match a, b with
  | Finite x, Finite y => x <=? y
  | _, _ => false
  end.

Definition ts_ltb (a b : UTCTimestamp) : bool :=
  match a, b with
  | Finite x, Finite y => x <? y
  | _, _ => false
  end.

Definition ts_add (a : UTCTimestamp) (d : Z) : UTCTimestamp :=
  match a with Finite x => Finite (x + d) | NaN => NaN end.

Definition ts_div (a : UTCTimestamp) (d : Z) : UTCTimestamp :=
  match a with Finite x => Finite (x / d) | NaN => NaN end.

(** Key equality of a [Map] (SameValueZero): NaN is equal to NaN. *)
Definition ts_same (a b : UTCTimestamp) : bool :=
  match a, b with
  | Finite x, Finite y => x =? y
  | NaN, NaN => true
  | _, _ => false
  end.

(** ** [Date.UTC(year, month, 1)]

    The day number of the first day of a month, after ECMAScript's
    [MakeDay], [MakeDate] and [TimeClip].  The result is in milliseconds. *)
Definition InLeapYear (y : Z) : bool :=
  ((y mod 4 =? 0) && negb (y mod 100 =? 0)) || (y mod 400 =? 0).

Definition DayFromYear (y : Z) : Z :=
  365 * (y - 1970) + (y - 1969) / 4 - (y - 1901) / 100 + (y - 1601) / 400.

Definition DayWithinYear (leap : bool) (month : Z) : Z :=
  let l := if leap then 1 else 0 in
  match month with
  | 0 => 0
  | 1 => 31
  | 2 => 59 + l
  | 3 => 90 + l
  | 4 => 120 + l
  | 5 => 151 + l
  | 6 => 181 + l
  | 7 => 212 + l
  | 8 => 243 + l
  | 9 => 273 + l
  | 10 => 304 + l
  | _ => 334 + l
  end.

Definition MakeDay (year month date : Z) : Z :=
  let ym := year + month / 12 in
  let mn := month mod 12 in
  DayFromYear ym + DayWithinYear (InLeapYear ym) mn + date - 1.

Definition msPerDay : Z := 86400000.

Definition TimeClip (t : Z) : UTCTimestamp :=
  if Z.abs t >? 8640000000000000 then NaN else Finite t.

Definition Date_UTC (year month : Z) : UTCTimestamp :=
  let yr := if (0 <=? year) && (year <=? 99) then 1900 + year else year in
  TimeClip (MakeDay yr month 1 * msPerDay).

(** ** Boundary labels *)

(** [start_year] and [end_year] have type [number | string]. *)
Inductive Label : Type :=
| LNum (n : Z)
| LStr (s : jsstring).

(** [a !== b] on labels: a number is never identical to a string. *)
Definition label_differs (a b : Label) : bool :=
  match a, b with
  | LNum x, LNum y => negb (x =? y)
  | LStr x, LStr y => negb (Js.eqb x y)
  | _, _ => true
  end.

(** [(?:19|20)] *)
Definition is_century (a b : N) : bool :=
  ((a =? 49) && (b =? 57) || (a =? 50) && (b =? 48))%N.

(** [/((?:19|20)\d{2})\s*[Qq]([1-4])/] tried at the start of [s]: the
    year and the quarter digit. *)
Definition quarter_at (s : jsstring) : option (Z * Z) :=
  match s with
  | a :: b :: c :: d :: rest =>
      if is_century a b && is_digit c && is_digit d then
        match dropWhile is_ws rest with
        | q :: n :: _ =>
            if ((q =? 81) || (q =? 113))%N && ((49 <=? n) && (n <=? 52))%N
            then Some (number_of_digits [a; b; c; d], digit_val n)
            else None
        | _ => None
        end
      else None
  | _ => None
  end.

(** [/((?:19|20)\d{2})/] tried at the start of [s]. *)
Definition year_at (s : jsstring) : option Z :=
  match s with
  | a :: b :: c :: d :: _ =>
      if is_century a b && is_digit c && is_digit d
      then Some (number_of_digits [a; b; c; d])
      else None
  | _ => None
  end.

Definition cnSuffixes : list jsstring :=
  map js ["季"; "赛季"; "期"; "集"; "回"; "话"; "章"; "幕"; "阶段";
          "局"; "场"; "篇"]%string.

(** The code unit of [第]. *)
Definition cn_di : N := 31532%N.

(** [/第?\s*(\d+)\s*(?:季|赛季|期|集|回|话|章|幕|阶段|局|场|篇)/] tried at
    the start of [s].  Every quantifier is followed by a class disjoint
    from its own, so the greedy choice is the only one that can match. *)
Definition cnOrdinal_at (s : jsstring) : option Z :=
  let s1 := match s with
            | c :: t => if (c =? cn_di)%N then t else s
            | [] => s
            end in
  let s2 := dropWhile is_ws s1 in
  let ds := takeWhile is_digit s2 in
  let s3 := dropWhile is_ws (dropWhile is_digit s2) in
  match ds with
  | [] => None
  | _ =>
      if existsb (fun p => startsWith p s3) cnSuffixes
      then Some (number_of_digits ds)
      else None
  end.

Definition enKeywords : list jsstring :=
  map js ["season"; "episode"; "ep"; "stage"; "phase"; "round"; "match";
          "chapter"; "part"]%string.

Fixpoint firstSome (A B : Type) (f : A -> option B) (l : list A)
  : option B :=
  match l with
  | [] => None
  | x :: t => match f x with Some r => Some r | None => firstSome f t end
  end.

(** [/(?:season|episode|ep|stage|phase|round|match|chapter|part)\s*0*(\d+)/i]
    tried at the start of [s]: the alternatives in order; the captured
    digits are the run without its leading zeros (one zero is left when
    the run is all zeros), whose number is that of the whole run. *)
Definition enOrdinal_at (s : jsstring) : option Z :=
  firstSome
    (fun kw =>
       match stripPrefix_ci kw s with
       | Some rest =>
           match takeWhile is_digit (dropWhile is_ws rest) with
           | [] => None
           | ds => Some (number_of_digits ds)
           end
       | None => None
       end)
    enKeywords.

(** [/(\d+)/] tried at the start of [s]. *)
Definition numeric_at (s : jsstring) : option Z :=
  match takeWhile is_digit s with
  | [] => None
  | ds => Some (number_of_digits ds)
  end.

Definition seconds (ms : UTCTimestamp) : UTCTimestamp := ts_div ms 1000.

Definition yearToTimestamp (label : Label) (index : Z) : UTCTimestamp :=
  match label with
  | LNum n => seconds (Date_UTC n 0)
  | LStr s =>
      let raw := trim s in
      match search quarter_at raw with
      | Some (year, q) =>
          let quarter := q - 1 in
          seconds (Date_UTC year (quarter * 3))
      | None =>
      match search year_at raw with
      | Some year => seconds (Date_UTC year 0)
      | None =>
      match search cnOrdinal_at raw with
      | Some value => seconds (Date_UTC (2000 + value) 0)
      | None =>
      match search enOrdinal_at raw with
      | Some value => seconds (Date_UTC (2100 + value) 0)
      | None =>
      match search numeric_at raw with
      | Some value => seconds (Date_UTC (2200 + value) 0)
      | None =>
          ts_add (seconds (Date_UTC 1970 0)) (index * 24 * 60 * 60)
      end end end end end
  end.


(** ** Phases and axes *)

Record TrendEvent : Type := {
  ev_time : jsstring;
  ev_description : jsstring;
  ev_impact : jsstring
}.

Inductive Zone : Type := Realized | Projected.

(** Intensity values are finite numbers, modelled as rationals. *)
Record Phase : Type := {
  start_year : Label;
  end_year : Label;
  open : Q;
  high : Q;
  low : Q;
  close : Q;
  label : jsstring;
  key_events : list TrendEvent;
  relation_note : option jsstring;
  zone : option Zone
}.

Inductive AxisKind : Type := Subjective | Objective.

Record AxisMeta : Type := {
  axis_label : jsstring;
  unit : option jsstring;
  kind : option AxisKind;
  description : option jsstring;
  range_hint : option jsstring
}.

Definition clampScore (value : Q) : Q := Qmin (Qmax value 0) 100.

(** [{ ...phase, open: .., high: .., low: .., close: .. }] *)
Definition with_values (p : Phase) (o h l c : Q) : Phase :=
  {| start_year := start_year p; end_year := end_year p;
     open := o; high := h; low := l; close := c;
     label := label p; key_events := key_events p;
     relation_note := relation_note p; zone := zone p |}.

Definition normalizePhases (phases : option (list Phase))
    (clampToHundred : bool) : list Phase :=
  match phases with
  | None => []
  | Some [] => []
  | Some ps =>
      if negb clampToHundred then map (fun phase => phase) ps
      else
        map (fun phase =>
               with_values phase
                 (clampScore (open phase)) (clampScore (high phase))
                 (clampScore (low phase)) (clampScore (close phase)))
            ps
  end.

(** ** Numbers

    The result of arithmetic is a double: a finite one, given by the
    rational it denotes, an infinity, or NaN. *)
Inductive Number : Type :=
| Fin (q : Q)
| Infinity (negative : bool)
| NotANumber.

(** [floor (log2 x)] for a positive [x]. *)
Definition ilog2 (x : Q) : Z :=
  let k := Z.log2 (Qnum x) - Z.log2 (Zpos (Qden x)) in
  if Qle_bool (2 ^ k) x then k else k - 1.

(** The integer nearest to [y], the even one of two that are equally
    near. *)
Definition round_even (y : Q) : Z :=
  let f := Qfloor y in
  match (y - inject_Z f ?= 1 # 2)%Q with
  | Lt => f
  | Gt => f + 1
  | Eq => if Z.even f then f else f + 1
  end.

(** The nearest multiple, for a positive [x], of the unit in the last
    place of its binade: 53 significant bits, and no unit below
    2^-1074. *)
Definition round_positive (x : Q) : Q :=
  let e := Z.max (-1074) (ilog2 x - 52) in
  Qred (inject_Z (round_even (x / 2 ^ e)) * 2 ^ e).

(** The double an exact result is rounded to: to nearest, ties to
    even; a result that rounds to 2^1024 or beyond overflows. *)
Definition fl (x : Q) : Number :=
  match (x ?= 0)%Q with
  | Eq => Fin 0
  | Gt => let r := round_positive x in
          if Qle_bool (2 ^ 1024) r then Infinity false else Fin r
  | Lt => let r := round_positive (- x) in
          if Qle_bool (2 ^ 1024) r then Infinity true else Fin (Qred (- r))
  end.

(** [a + b], [a - b] and [a * b] on numbers. *)
Definition Number_opp (a : Number) : Number :=
  match a with
  | Fin x => Fin (- x)
  | Infinity negative => Infinity (negb negative)
  | NotANumber => NotANumber
  end.

Definition Number_add (a b : Number) : Number :=
  match a, b with
  | Fin x, Fin y => fl (x + y)
  | Fin _, Infinity t => Infinity t
  | Infinity s, Fin _ => Infinity s
  | Infinity s, Infinity t => if Bool.eqb s t then Infinity s else NotANumber
  | _, _ => NotANumber
  end.

Definition Number_sub (a b : Number) : Number :=
  Number_add a (Number_opp b).

Definition Number_mul (a b : Number) : Number :=
  match a, b with
  | Fin x, Fin y => fl (x * y)
  | Fin x, Infinity t =>
      match (x ?= 0)%Q with
      | Eq => NotANumber
      | Gt => Infinity t
      | Lt => Infinity (negb t)
      end
  | Infinity s, Fin y =>
      match (y ?= 0)%Q with
      | Eq => NotANumber
      | Gt => Infinity s
      | Lt => Infinity (negb s)
      end
  | Infinity s, Infinity t => Infinity (xorb s t)
  | _, _ => NotANumber
  end.

(** [Number.isFinite(x)], [Math.abs(x)] and [a === b] on numbers. *)
Definition Number_isFinite (x : Number) : bool :=
  match x with
  | Fin _ => true
  | _ => false
  end.

Definition Math_abs (x : Number) : Number :=
  match x with
  | Fin q => Fin (Qabs q)
  | Infinity _ => Infinity false
  | NotANumber => NotANumber
  end.

Definition Number_eqb (a b : Number) : bool :=
  match a, b with
  | Fin x, Fin y => Qeq_bool x y
  | Infinity s, Infinity t => Bool.eqb s t
  | _, _ => false
  end.

Record AxisRange : Type := { min : Number; max : Number }.

(** The smaller and the larger of two numbers; NaN if one of them is
    NaN. *)
Definition smaller (a b : Number) : Number :=
  match a, b with
  | NotANumber, _ | _, NotANumber => NotANumber
  | Infinity true, _ | _, Infinity true => Infinity true
  | Infinity false, x | x, Infinity false => x
  | Fin x, Fin y => Fin (Qmin x y)
  end.

Definition larger (a b : Number) : Number :=
  match a, b with
  | NotANumber, _ | _, NotANumber => NotANumber
  | Infinity false, _ | _, Infinity false => Infinity false
  | Infinity true, x | x, Infinity true => x
  | Fin x, Fin y => Fin (Qmax x y)
  end.

(** [Math.min(...values)] and [Math.max(...values)]: positive and
    negative infinity on an empty argument list. *)
Definition Math_min (values : list Number) : Number :=
  fold_right smaller (Infinity false) values.

Definition Math_max (values : list Number) : Number :=
  fold_right larger (Infinity true) values.

(** [x || 1] on numbers: [1] when [x] is zero or NaN. *)
Definition or_one (x : Number) : Number :=
  match x with
  | Fin q => if Qeq_bool q 0 then Fin 1 else x
  | Infinity _ => x
  | NotANumber => Fin 1
  end.

(** [axis?.kind] *)
Definition kind_of (axis : option AxisMeta) : option AxisKind :=
  match axis with
  | Some a => kind a
  | None => None
  end.

(** The part of [computePhaseRange] below the test for a subjective
    axis, on the values collected from the phases: no range when the
    minimum or the maximum is not finite, otherwise the minimum and the
    maximum padded.  The literals [0.05] and [0.08] are the doubles
    nearest to them. *)
Definition paddedRange (values : list Number) : option AxisRange :=
  let min := Math_min values in
  let max := Math_max values in
  if negb (Number_isFinite min) || negb (Number_isFinite max) then None
  else if Number_eqb min max then
    let padding := or_one (Number_mul (Math_abs min) (fl (5 # 100))) in
    Some {| min := Number_sub min padding; max := Number_add max padding |}
  else
    let gap := or_one (Number_mul (Number_sub max min) (fl (8 # 100))) in
    Some {| min := Number_sub min gap; max := Number_add max gap |}.

(** A phase of this model holds finite values, which enter the
    computation as such.  With a value that is not finite among them
    the minimum or the maximum is not finite and the function returns
    [null], as [paddedRange] does on such values. *)
Definition computePhaseRange (phases : list Phase)
    (axis : option AxisMeta) : option AxisRange :=
  match phases with
  | [] => None
  | _ =>
      match kind_of axis with
      | Some Subjective => Some {| min := Fin 0; max := Fin 100 |}
      | _ =>
          paddedRange
            (flat_map (fun phase => [Fin (open phase); Fin (close phase);
                                     Fin (low phase); Fin (high phase)])
                      phases)
      end
  end.

(** ** The page's use of the two functions ([Home]) *)

Definition shouldClamp (axis : option AxisMeta) : bool :=
  match kind_of axis with
  | Some Objective => false
  | _ => true
  end.

Definition displayPhases (phases : list Phase) (axis : option AxisMeta)
  : list Phase :=
  normalizePhases (Some phases) (shouldClamp axis).

Definition primaryRange (phases : list Phase) (axis : option AxisMeta)
  : option AxisRange :=
  computePhaseRange (displayPhases phases axis) axis.

(** ** Point construction *)

Record ChartPoint : Type := {
  time : UTCTimestamp;
  value : Q;
  phase : Phase
}.

Definition LabelMap := list (UTCTimestamp * jsstring).

(** [labelMap.set(k, v)] *)
Fixpoint Map_set (m : LabelMap) (k : UTCTimestamp) (v : jsstring)
  : LabelMap :=
  match m with
  | [] => [(k, v)]
  | (k', v') :: t =>
      if ts_same k k' then (k, v) :: t else (k', v') :: Map_set t k v
  end.

(** The locals that [pushPoint] closes over. *)
Record BuildState : Type := {
  points : list ChartPoint;
  lastTime : UTCTimestamp;
  labelMap : option LabelMap
}.

Definition pushPoint (t : UTCTimestamp) (v : Q) (ph : Phase)
    (lbl : jsstring) (st : BuildState) : BuildState :=
  let t' := if ts_leb t (lastTime st)
            then ts_add (lastTime st) (24 * 60 * 60)
            else t in
  {| points := points st ++ [{| time := t'; value := v; phase := ph |}];
     lastTime := t';
     labelMap := option_map (fun m => Map_set m t' lbl) (labelMap st) |}.

Definition label_text (l : Label) : jsstring :=
  match l with
  | LNum n => of_Z n ++ js "年"
  | LStr s => s
  end.

(** [prev.end_year !== phase.start_year || prev.close !== phase.open] *)
Definition shouldBridge (prev ph : Phase) : bool :=
  label_differs (end_year prev) (start_year ph)
  || negb (Qeq_bool (close prev) (open ph)).

(** The body of the [forEach] callback.  [phases[index - 1]] exists for
    every positive [index] the loop reaches. *)
Definition phaseStep (phases : list Phase) (st : BuildState)
    (ph : Phase) (index : nat) : BuildState :=
  let startTime := yearToTimestamp (start_year ph) (Z.of_nat index) in
  let endTime := yearToTimestamp (end_year ph) (Z.of_nat index + 1) in
  let boundedOpen := clampScore (open ph) in
  let boundedClose := clampScore (close ph) in
  let startLabel := label_text (start_year ph) in
  let endLabel := label_text (end_year ph) in
  let st1 :=
    match index with
    | O => pushPoint startTime boundedOpen ph startLabel st
    | S i =>
        match nth_error phases i with
        | Some prev =>
            if shouldBridge prev ph
            then pushPoint startTime boundedOpen ph startLabel st
            else st
        | None => st
        end
    end in
  pushPoint endTime boundedClose ph endLabel st1.

Definition buildAreaData_state (phases : list Phase)
    (labelMap : option LabelMap) : BuildState :=
  forEach_from (phaseStep phases) phases 0
    {| points := []; lastTime := Finite 0; labelMap := labelMap |}.

Definition buildAreaData (phases : list Phase)
    (labelMap : option LabelMap) : list ChartPoint :=
  match phases with
  | [] => []
  | _ => points (buildAreaData_state phases labelMap)
  end.

(** What the chart panel draws for a series: the page hands it the
    normalized phases. *)
Definition chartData (phases : list Phase) (axis : option AxisMeta)
    (labelMap : option LabelMap) : list ChartPoint :=
  buildAreaData (displayPhases phases axis) labelMap.

End Chart.

(* ================================================================== *)
(** * The generation route: exceptions and collaborators *)
(* ================================================================== *)

Module Route.

(** Thrown values.  [ReferenceIngestionError] is the route's own class,
    [Error] a plain error with a message, [Failure] any exception raised
    inside a collaborator. *)
Inductive exn : Type :=
| ReferenceIngestionError (message : jsstring)
| Error (message : jsstring)
| Failure.

(** A computation that returns or throws. *)
Inductive outcome (A : Type) : Type :=
| Return (a : A)
| Throw (e : exn).

Arguments Return {A} a.
Arguments Throw {A} e.

Definition bind (A B : Type) (m : outcome A) (k : A -> outcome B)
  : outcome B :=
  match m with
  | Return a => k a
  | Throw e => Throw e
  end.

(** [try { m } catch (e) { h e }] *)
Definition try_catch (A : Type) (m : outcome A) (h : exn -> outcome A)
  : outcome A :=
  match m with
  | Return a => Return a
  | Throw e => h e
  end.

Notation "x <- m ;; k" := (bind m (fun x => k))
  (at level 61, m at next level, right associativity).

Definition throws (A : Type) (m : outcome A) : bool :=
  match m with Return _ => false | Throw _ => true end.

(** ** JSON values *)

#[local] Unset Elimination Schemes.
Inductive json : Type :=
| JNull
| JBool (b : bool)
| JNum (q : Q)
| JStr (s : jsstring)
| JArr (items : list json)
| JObj (fields : list (jsstring * json)).
#[local] Set Elimination Schemes.

(** Truthiness of a parsed value. *)
Definition truthy (v : json) : bool :=
  match v with
  | JNull => false
  | JBool b => b
  | JNum q => negb (Qeq_bool q 0)
  | JStr s => Js.truthy s
  | JArr _ => true
  | JObj _ => true
  end.

(** [typeof v === "object"] *)
Definition is_object_type (v : json) : bool :=
  match v with
  | JNull | JArr _ | JObj _ => true
  | _ => false
  end.

(** Own property of an object built by [JSON.parse]: a later member with
    the same name overrides an earlier one. *)
Fixpoint lookup (key : jsstring) (fields : list (jsstring * json))
  : option json :=
  match fields with
  | [] => None
  | (k, v) :: t =>
      match lookup key t with
      | Some w => Some w
      | None => if Js.eqb k key then Some v else None
      end
  end.

(** [candidate.name] for a name that is no property of arrays. *)
Definition get (v : json) (name : jsstring) : option json :=
  match v with
  | JObj fields => lookup name fields
  | _ => None
  end.

(** ** [JSON.parse]

    The built-in parser, after the JSON grammar: a value between optional
    white space, and nothing else.  A number is read as the rational its
    literal denotes.  A syntax error is a thrown [Failure]. *)

Definition is_json_ws (c : N) : bool :=
  ((c =? 32) || (c =? 9) || (c =? 10) || (c =? 13))%N.

Definition skip_ws (s : jsstring) : jsstring := dropWhile is_json_ws s.

Definition hex_val (c : N) : option N :=
  if ((48 <=? c) && (c <=? 57))%N then Some (c - 48)%N
  else if ((97 <=? c) && (c <=? 102))%N then Some (c - 87)%N
  else if ((65 <=? c) && (c <=? 70))%N then Some (c - 55)%N
  else None.

Definition hex4 (a b c d : N) : option N :=
  match hex_val a, hex_val b, hex_val c, hex_val d with
  | Some x, Some y, Some z, Some w =>
      Some (((x * 16 + y) * 16 + z) * 16 + w)%N
  | _, _, _, _ => None
  end.

(** The characters of a string literal after its opening quote, up to the
    closing quote; [acc] holds the decoded code units in reverse. *)
Fixpoint parse_string_body (s acc : jsstring)
  : option (jsstring * jsstring) :=
  match s with
  | [] => None
  | c :: t =>
      if (c =? 34)%N then Some (rev acc, t)
      else if (c =? 92)%N then
        match t with
        | e :: t1 =>
            if (e =? 34)%N then parse_string_body t1 (34%N :: acc)
            else if (e =? 92)%N then parse_string_body t1 (92%N :: acc)
            else if (e =? 47)%N then parse_string_body t1 (47%N :: acc)
            else if (e =? 98)%N then parse_string_body t1 (8%N :: acc)
            else if (e =? 102)%N then parse_string_body t1 (12%N :: acc)
            else if (e =? 110)%N then parse_string_body t1 (10%N :: acc)
            else if (e =? 114)%N then parse_string_body t1 (13%N :: acc)
            else if (e =? 116)%N then parse_string_body t1 (9%N :: acc)
            else if (e =? 117)%N then
              match t1 with
              | h1 :: h2 :: h3 :: h4 :: t2 =>
                  match hex4 h1 h2 h3 h4 with
                  | Some u => parse_string_body t2 (u :: acc)
                  | None => None
                  end
              | _ => None
              end
            else None
        | [] => None
        end
      else if (c <? 32)%N then None
      else parse_string_body t (c :: acc)
  end.

(** [m * 10^e] *)
Definition scale10 (m e : Z) : Q :=
  if 0 <=? e then inject_Z (m * 10 ^ e)
  else Qmake m (Z.to_pos (10 ^ (- e))).

Definition parse_number (s : jsstring) : option (Q * jsstring) :=
  let '(negative, s1) :=
    match s with
    | c :: t => if (c =? 45)%N then (true, t) else (false, s)
    | [] => (false, s)
    end in
  let int := takeWhile is_digit s1 in
  let s2 := dropWhile is_digit s1 in
  let leading_zero :=
    match int with
    | d :: _ :: _ => (d =? 48)%N
    | _ => false
    end in
  match int with
  | [] => None
  | _ =>
      if leading_zero then None
      else
        let frac :=
          match s2 with
          | c :: t =>
              if (c =? 46)%N
              then match takeWhile is_digit t with
                   | [] => None
                   | fr => Some (fr, dropWhile is_digit t)
                   end
              else Some ([], s2)
          | [] => Some ([], s2)
          end in
        match frac with
        | None => None
        | Some (fr, s3) =>
            let expo :=
              match s3 with
              | c :: t =>
                  if ((c =? 101) || (c =? 69))%N then
                    let '(eneg, t1) :=
                      match t with
                      | g :: t' =>
                          if (g =? 45)%N then (true, t')
                          else if (g =? 43)%N then (false, t')
                          else (false, t)
                      | [] => (false, t)
                      end in
                    match takeWhile is_digit t1 with
                    | [] => None
                    | ex =>
                        let e := number_of_digits ex in
                        Some (if eneg then - e else e,
                              dropWhile is_digit t1)
                    end
                  else Some (0, s3)
              | [] => Some (0, s3)
              end in
            match expo with
            | None => None
            | Some (e, s4) =>
                let m := number_of_digits (int ++ fr) in
                let q := scale10 m (e - Z.of_nat (List.length fr)) in
                Some (if negative then Qopp q else q, s4)
            end
        end
  end.

Fixpoint parse_value (fuel : nat) (s : jsstring) {struct fuel}
  : option (json * jsstring) :=
  match fuel with
  | O => None
  | S f =>
      match skip_ws s with
      | [] => None
      | c :: t =>
          if (c =? 123)%N then
            match skip_ws t with
            | d :: r => if (d =? 125)%N then Some (JObj [], r)
                        else parse_members f t []
            | [] => None
            end
          else if (c =? 91)%N then
            match skip_ws t with
            | d :: r => if (d =? 93)%N then Some (JArr [], r)
                        else parse_elements f t []
            | [] => None
            end
          else if (c =? 34)%N then
            match parse_string_body t [] with
            | Some (str, r) => Some (JStr str, r)
            | None => None
            end
          else
            match stripPrefix (js "true") (c :: t),
                  stripPrefix (js "false") (c :: t),
                  stripPrefix (js "null") (c :: t) with
            | Some r, _, _ => Some (JBool true, r)
            | _, Some r, _ => Some (JBool false, r)
            | _, _, Some r => Some (JNull, r)
            | None, None, None =>
                match parse_number (c :: t) with
                | Some (q, r) => Some (JNum q, r)
                | None => None
                end
            end
      end
  end
with parse_elements (fuel : nat) (s : jsstring) (acc : list json)
    {struct fuel} : option (json * jsstring) :=
  match fuel with
  | O => None
  | S f =>
      match parse_value f s with
      | Some (v, r) =>
          match skip_ws r with
          | c :: r' =>
              if (c =? 44)%N then parse_elements f r' (v :: acc)
              else if (c =? 93)%N then Some (JArr (rev (v :: acc)), r')
              else None
          | [] => None
          end
      | None => None
      end
  end
with parse_members (fuel : nat) (s : jsstring)
    (acc : list (jsstring * json)) {struct fuel}
  : option (json * jsstring) :=
  match fuel with
  | O => None
  | S f =>
      match skip_ws s with
      | q :: t =>
          if (q =? 34)%N then
            match parse_string_body t [] with
            | Some (key, r) =>
                match skip_ws r with
                | c :: r1 =>
                    if (c =? 58)%N then
                      match parse_value f r1 with
                      | Some (v, r2) =>
                          match skip_ws r2 with
                          | d :: r3 =>
                              if (d =? 44)%N
                              then parse_members f r3 ((key, v) :: acc)
                              else if (d =? 125)%N
                              then Some (JObj (rev ((key, v) :: acc)), r3)
                              else None
                          | [] => None
                          end
                      | None => None
                      end
                    else None
                | [] => None
                end
            | None => None
            end
          else None
      | [] => None
      end
  end.

(** A call that succeeds reads a character of its own (the first of its
    value, the separator after its element, the quote of its key), so
    twice the length of the text is fuel enough. *)
Definition JSON_parse (text : jsstring) : outcome json :=
  match parse_value (2 * List.length text + 4) text with
  | Some (v, rest) =>
      match skip_ws rest with
      | [] => Return v
      | _ :: _ => Throw Failure
      end
  | None => Throw Failure
  end.

(** ** Collaborators

    What the route calls outside the repository.  The position of the
    call (of the document, of the link, of the attempt) is an argument,
    so that two calls on equal inputs may answer differently. *)

Record HttpReply : Type := {
  ok : bool;
  status : Z;
  text : outcome jsstring
}.

Inductive Role : Type := System | User.

Record Message : Type := { role : Role; content : jsstring }.

(** The reply of the chat endpoint: [response.ok], [response.text()] and
    [payload.choices?.[0]?.message?.content ?? null] of
    [response.json()]. *)
Record ChatReply : Type := {
  chat_ok : bool;
  chat_text : outcome jsstring;
  chat_content : outcome (option jsstring)
}.

Inductive ReferenceStatus : Type :=
| StatusEmpty | StatusSuccess | StatusPartial | StatusFailed.

Inductive ReferenceType : Type := TypeText | TypeUrl | TypeFile.

Record PromptContext : Type := {
  referenceBlock : option jsstring;
  referenceStatus : ReferenceStatus;
  referenceSources : list (ReferenceType * jsstring)
}.

Class Collaborators : Type := {
  (** [Buffer.from(s, "base64")] and [buffer.toString("utf8")] *)
  Buffer_from_base64 : jsstring -> list Byte.byte;
  Buffer_toString_utf8 : list Byte.byte -> jsstring;
  (** [parsed.text] of [new PDFParse({ data }).getText()] *)
  PDFParse_getText : nat -> list Byte.byte -> outcome (option jsstring);
  (** [value] of [mammoth.extractRawText({ buffer })] *)
  mammoth_extractRawText : nat -> list Byte.byte -> outcome (option jsstring);
  (** [fetch(url, { headers })] of a link *)
  fetch : nat -> jsstring -> outcome HttpReply;
  (** the main-content heuristic over [node-html-parser]; it catches
      whatever the parser throws *)
  extractMainTextFromHtml : jsstring -> jsstring;
  jsonrepair : jsstring -> outcome jsstring;
  (** [fetch] of the chat completion endpoint with the given messages *)
  chat_completions : nat -> list Message -> outcome ChatReply;
  (** the two prompt texts of the route *)
  SYSTEM_PROMPT : jsstring;
  USER_PROMPT_TEMPLATE : jsstring -> PromptContext -> jsstring
}.

(* ================================================================== *)
(** * Reference ingestion *)
(* ================================================================== *)

Record UploadedDocument : Type := {
  name : jsstring;
  type : option jsstring;
  doc_content : jsstring
}.

Record ReferenceEntry : Type := {
  entry_type : ReferenceType;
  entry_content : jsstring;
  source : jsstring
}.

Record ReferenceResult : Type := {
  result_status : ReferenceStatus;
  references : list ReferenceEntry;
  errors : list jsstring
}.

Definition MAX_SECTION_CHARS : Z := 4000.
Definition MAX_REFERENCE_CHARS : Z := 6000.
Definition MAX_UPLOAD_BYTES : Z := 2 * 1024 * 1024.

Definition truncateText (value : jsstring) (limit : Z) : jsstring :=
  if negb (Js.truthy value) then []
  else if Js.length value >? limit
       then slice value 0 limit ++ js "…"
       else value.

Definition normalizeWhitespace (value : jsstring) : jsstring :=
  trim (collapse_ws value).

Definition buildReferencePreview (value : jsstring) (limit : Z) : jsstring :=
  let normalized := normalizeWhitespace value in
  if Js.length normalized =? 0 then []
  else if Js.length normalized >? limit
       then slice normalized 0 limit ++ js "…"
       else normalized.

(** [input.split(",").pop()]: what follows the last comma. *)
Definition after_last_comma (input : jsstring) : jsstring :=
  skipn (Z.to_nat (lastIndexOf 44%N input + 1)) input.

Section WithCollaborators.

Context {C : Collaborators}.

Definition decodeDocumentBuffer (input : jsstring) : list Byte.byte :=
  let base64 := if includes (js ",") input
                then after_last_comma input
                else input in
  Buffer_from_base64 base64.

(** A missing value is replaced by the empty string. *)
Definition or_empty (s : option jsstring) : jsstring :=
  match s with Some x => x | None => [] end.

Definition isPdf (name type : jsstring) : bool :=
  includes (js "pdf") type || endsWith (js ".pdf") (toLowerCase name).

Definition isDocx (name type : jsstring) : bool :=
  let lower := toLowerCase name in
  includes (js "word") type
  || endsWith (js ".docx") lower
  || endsWith (js ".doc") lower
  || endsWith (js ".rtf") lower.

Definition extractTextFromDocument (index : nat) (doc : UploadedDocument)
  : outcome jsstring :=
  let buffer := decodeDocumentBuffer (doc_content doc) in
  let size := Z.of_nat (List.length buffer) in
  if size =? 0 then
    Throw (ReferenceIngestionError (js "文件内容为空：" ++ name doc))
  else if size >? MAX_UPLOAD_BYTES then
    Throw (ReferenceIngestionError (js "文件超过 2MB 限制：" ++ name doc))
  else
    try_catch
      (raw <-
         (if isPdf (name doc) (or_empty (type doc)) then
            parsed <- PDFParse_getText index buffer ;;
            Return (or_empty parsed)
          else if isDocx (name doc) (or_empty (type doc)) then
            value <- mammoth_extractRawText index buffer ;;
            Return (or_empty value)
          else Return (Buffer_toString_utf8 buffer)) ;;
       let normalized := normalizeWhitespace raw in
       if Js.length normalized =? 0 then
         Throw (ReferenceIngestionError (js "文件内容为空：" ++ name doc))
       else Return normalized)
      (fun error =>
         match error with
         | ReferenceIngestionError _ => Throw error
         | _ =>
             Throw (ReferenceIngestionError (js "无法解析文件：" ++ name doc))
         end).

Definition fetchLinkContent (index : nat) (url : jsstring)
  : outcome jsstring :=
  try_catch
    (response <- fetch index url ;;
     html <- text response ;;
     if negb (ok response) then
       Throw (ReferenceIngestionError
                (js "链接响应 " ++ of_Z (status response) ++ js "：" ++ url))
     else
       let text := extractMainTextFromHtml html in
       if negb (Js.truthy text) then
         Throw (ReferenceIngestionError (js "链接内容为空或被限制：" ++ url))
       else Return text)
    (fun error =>
       match error with
       | ReferenceIngestionError _ => Throw error
       | _ => Throw (ReferenceIngestionError (js "无法访问链接：" ++ url))
       end).

(** The locals of [ingestReferences]. *)
Record IngestState : Type := {
  st_references : list ReferenceEntry;
  partialErrors : list jsstring;
  hadInput : bool
}.

Definition pushReference (entry : ReferenceEntry) (st : IngestState)
  : IngestState :=
  let limited :=
    {| entry_type := entry_type entry;
       entry_content := truncateText (entry_content entry) MAX_REFERENCE_CHARS;
       source := source entry |} in
  {| st_references := st_references st ++ [limited];
     partialErrors := partialErrors st;
     hadInput := hadInput st |}.

Definition pushError (message : jsstring) (st : IngestState) : IngestState :=
  {| st_references := st_references st;
     partialErrors := partialErrors st ++ [message];
     hadInput := hadInput st |}.

Definition setHadInput (st : IngestState) : IngestState :=
  {| st_references := st_references st;
     partialErrors := partialErrors st;
     hadInput := true |}.

(** The body of [for (const doc of documents)]. *)
Definition ingestDocument (st : IngestState) (doc : UploadedDocument)
    (index : nat) : IngestState :=
  let st := setHadInput st in
  match extractTextFromDocument index doc with
  | Return text =>
      pushReference
        {| entry_type := TypeFile; entry_content := text;
           source := name doc |} st
  | Throw error =>
      pushError
        match error with
        | ReferenceIngestionError message => message
        | _ => js "无法读取文件：" ++ name doc
        end st
  end.

(** The body of [for (const link of links)]. *)
Definition ingestLink (st : IngestState) (link : jsstring) (index : nat)
  : IngestState :=
  let st := setHadInput st in
  match fetchLinkContent index link with
  | Return content =>
      pushReference
        {| entry_type := TypeUrl; entry_content := content;
           source := link |} st
  | Throw error =>
      pushError
        match error with
        | ReferenceIngestionError message => message
        | _ => js "无法访问链接：" ++ link
        end st
  end.

Definition ingestText (supplementalText : option jsstring)
    (st : IngestState) : IngestState :=
  match option_map trim supplementalText with
  | Some textBlock =>
      if Js.truthy textBlock then
        pushReference
          {| entry_type := TypeText; entry_content := textBlock;
             source := js "user_input" |} (setHadInput st)
      else st
  | None => st
  end.

Definition ingestState (supplementalText : option jsstring)
    (links : list jsstring) (documents : list UploadedDocument)
  : IngestState :=
  let st0 := {| st_references := []; partialErrors := [];
                hadInput := false |} in
  let st1 := ingestText supplementalText st0 in
  let st2 := forEach_from ingestDocument documents 0 st1 in
  forEach_from ingestLink links 0 st2.

Definition ingestReferences (supplementalText : option jsstring)
    (links : list jsstring) (documents : list UploadedDocument)
  : ReferenceResult :=
  let st := ingestState supplementalText links documents in
  if negb (hadInput st) then
    {| result_status := StatusEmpty; references := []; errors := [] |}
  else
    match st_references st with
    | [] =>
        {| result_status := StatusFailed;
           references := [];
           errors := match partialErrors st with
                     | [] => [js "提供的资料为空或无法解析。"]
                     | _ => partialErrors st
                     end |}
    | _ =>
        {| result_status := match partialErrors st with
                            | [] => StatusSuccess
                            | _ => StatusPartial
                            end;
           references := st_references st;
           errors := partialErrors st |}
    end.

(* ================================================================== *)
(** * Structured-output recovery *)
(* ================================================================== *)

Definition normalizeJsonText (value : jsstring) : jsstring :=
  let quotes (c : N) : N :=
    if ((c =? 8220) || (c =? 8221))%N then 34%N
    else if ((c =? 8216) || (c =? 8217))%N then 39%N
    else c in
  trim (filter (fun c => negb (c =? 65279)%N) (map quotes value)).

Definition attemptParse (payload : jsstring) : outcome json :=
  let normalized := normalizeJsonText payload in
  try_catch (JSON_parse normalized)
    (fun _ =>
       try_catch
         (repaired <- jsonrepair normalized ;;
          JSON_parse repaired)
         (fun _ => Return JNull)).

Definition fence : jsstring := [96; 96; 96]%N.

(** The lazy [([\s\S]*?)] followed by the closing fence: the text before
    the first fence in [s]. *)
Fixpoint before_fence (s : jsstring) : option jsstring :=
  match stripPrefix fence s with
  | Some _ => Some []
  | None =>
      match s with
      | [] => None
      | c :: t => option_map (cons c) (before_fence t)
      end
  end.

(** [/```(?:json)?\s*([\s\S]*?)```/i] tried at the start of [s]: the
    captured group.  What the greedy [(?:json)?] and [\s*] consume holds
    no backquote, so giving it back finds no other closing fence. *)
Definition fence_at (s : jsstring) : option jsstring :=
  match stripPrefix fence s with
  | Some r =>
      let r1 := match stripPrefix_ci (js "json") r with
                | Some r' => r'
                | None => r
                end in
      before_fence (dropWhile is_ws r1)
  | None => None
  end.

(** The third candidate: from the first opening brace to the last closing
    brace. *)
Definition braceSlice (trimmed : jsstring) : option jsstring :=
  let firstBrace := indexOf 123%N trimmed in
  let lastBrace := lastIndexOf 125%N trimmed in
  if negb (firstBrace =? -1) && negb (lastBrace =? -1)
     && (lastBrace >? firstBrace)
  then Some (slice trimmed firstBrace (lastBrace + 1))
  else None.

Definition extractJsonPayload (content : jsstring) : outcome json :=
  let trimmed := normalizeJsonText content in
  let fromSlice :=
    match braceSlice trimmed with
    | Some sliced =>
        parsedSlice <- attemptParse sliced ;;
        if truthy parsedSlice then Return parsedSlice else Return JNull
    | None => Return JNull
    end in
  direct <- attemptParse trimmed ;;
  if truthy direct then Return direct
  else
    match search fence_at trimmed with
    | Some inner =>
        fenced <- attemptParse (trim inner) ;;
        if truthy fenced then Return fenced else fromSlice
    | None => fromSlice
    end.

(* ================================================================== *)
(** * Payload validation *)
(* ================================================================== *)

Definition validateGeneratedPayload (payload : json)
    (requireSourceDigest : bool) : outcome unit :=
  if negb (truthy payload) || negb (is_object_type payload) then
    Throw (Error (js "AI 未返回有效的 JSON 结构。"))
  else
    match get payload (js "phases") with
    | Some (JArr phases) =>
        let n := Z.of_nat (List.length phases) in
        if (n <? 5) || (n >? 10) then
          Throw (Error (js "AI 返回的阶段数量不在 5-10 段之间。"))
        else if requireSourceDigest then
          match get payload (js "source_digest") with
          | Some (JStr digest) =>
              if Js.length (trim digest) <? 20 then
                Throw (Error (js "AI 未基于参考资料输出 source_digest。"))
              else Return tt
          | _ => Throw (Error (js "AI 未基于参考资料输出 source_digest。"))
          end
        else Return tt
    | _ => Throw (Error (js "AI 未返回 phases 字段。"))
    end.

(* ================================================================== *)
(** * The request handler *)
(* ================================================================== *)

Record GenerationRequestBody : Type := {
  prompt : option jsstring;
  supplementalText : option jsstring;
  links : option (list jsstring);
  documents : option (list UploadedDocument)
}.

Record ReferenceEntryMeta : Type := {
  meta_type : ReferenceType;
  meta_source : jsstring;
  preview : jsstring
}.

Inductive ResponseBody : Type :=
| ErrorBody (error : jsstring) (details : option jsstring)
| Enriched (parsed : json) (reference_status : ReferenceStatus)
    (reference_entries : list ReferenceEntryMeta)
    (reference_errors : list jsstring).

(** [NextResponse.json(body, { status })] *)
Record NextResponse : Type := { http_status : Z; body : ResponseBody }.

(** What the handler does that an observer can see: the calls of the
    generator and the calls of the validator, in order. *)
Inductive Event : Type :=
| Generate (attempt : nat) (messages : list Message)
| Validate (payload : json) (requireSourceDigest : bool).

Definition formatReferenceEntry (entry : ReferenceEntry) (index : nat)
  : jsstring :=
  let label := match entry_type entry with
               | TypeText => js "用户补充"
               | TypeUrl => source entry
               | TypeFile => source entry
               end in
  js "【参考" ++ of_Z (Z.of_nat index + 1) ++ js " · " ++ label
    ++ js "】" ++ [10%N] ++ entry_content entry.

(** [l.map(f).join(sep)] with the position given to [f]. *)
Fixpoint map_join (A : Type) (f : A -> nat -> jsstring) (sep : jsstring)
    (l : list A) (index : nat) : jsstring :=
  match l with
  | [] => []
  | [x] => f x index
  | x :: t => f x index ++ sep ++ map_join f sep t (S index)
  end.

Definition referenceInstruction (referenceBlock : jsstring) : jsstring :=
  js "用户已主动提供参考信息，这些内容具有最高优先级。你必须在分析与建模时参考并尊重这些信息。

以下是用户提供的参考内容：
----------------
"
  ++ referenceBlock ++
  js "
----------------
规则：
1. 必须真实阅读并理解这些内容。
2. K 线的时间阶段、关键节点、走势判断，需至少部分来自上述内容。
3. 允许再搜索补充背景，但不得忽略或覆盖这些资料。
4. 若这些内容不足以支撑建模，必须明确说明原因并中止生成。".

Definition jsonHint : jsstring :=
  [10%N; 10%N]
  ++ js "请严格按照上述 JSON 结构输出，禁止使用 Markdown 代码块或添加任何解释性文字。".

Definition userPrompt (query : jsstring) (context : PromptContext)
    (attempt : nat) : jsstring :=
  let enforceJsonHint := Nat.eqb attempt 1 in
  if enforceJsonHint
  then USER_PROMPT_TEMPLATE query context ++ jsonHint
  else USER_PROMPT_TEMPLATE query context.

(** How the [for] loop over the attempts is left. *)
Inductive LoopExit : Type :=
| Break (parsed : json)
| Exhausted
| Responded (response : NextResponse).

(** How one iteration ends: with [continue] (or at the end of the body
    with nothing usable in [parsed]), or by leaving the loop. *)
Inductive Step : Type :=
| Continue
| Leave (exit : outcome LoopExit).

Definition attemptMessages (query : jsstring) (context : PromptContext)
    (referenceInstructionMessage : list Message) (attempt : nat)
  : list Message :=
  [{| role := System; content := SYSTEM_PROMPT |}]
  ++ referenceInstructionMessage
  ++ [{| role := User; content := userPrompt query context attempt |}].

(** The body of the loop once the messages are built. *)
Definition attemptOnce (attempt : nat) (messages : list Message) : Step :=
  match chat_completions attempt messages with
  | Throw e => Leave (Throw e)
  | Return response =>
      if negb (chat_ok response) then
        Leave (error <- chat_text response ;;
               Return (Responded
                 {| http_status := 502;
                    body := ErrorBody
                              (js "DeepSeek 接口暂时不可用，请稍后重试。")
                              (Some error) |}))
      else
        match chat_content response with
        | Throw e => Leave (Throw e)
        | Return rawContent =>
            if negb (Js.truthy (or_empty rawContent)) then Continue
            else
              match extractJsonPayload (or_empty rawContent) with
              | Throw e => Leave (Throw e)
              | Return parsed =>
                  if truthy parsed then Leave (Return (Break parsed))
                  else Continue
              end
        end
  end.

(** [for (let attempt = 0; attempt < 2; attempt++)], from [attempt], with
    [remaining] iterations to go, and the calls of the generator it made. *)
Fixpoint generationLoop (query : jsstring) (context : PromptContext)
    (referenceInstructionMessage : list Message)
    (remaining attempt : nat) : list Event * outcome LoopExit :=
  match remaining with
  | O => ([], Return Exhausted)
  | S k =>
      let messages :=
        attemptMessages query context referenceInstructionMessage attempt in
      match attemptOnce attempt messages with
      | Continue =>
          let '(log, exit) :=
            generationLoop query context referenceInstructionMessage k
                           (S attempt) in
          (Generate attempt messages :: log, exit)
      | Leave exit => ([Generate attempt messages], exit)
      end
  end.

Definition errorResponse (status : Z) (message : jsstring) : NextResponse :=
  {| http_status := status; body := ErrorBody message None |}.

Definition referenceBlockOf (ingestion : ReferenceResult)
  : option jsstring :=
  if 0 <? Z.of_nat (List.length (references ingestion))
  then Some (map_join formatReferenceEntry [10%N; 10%N]
                      (references ingestion) 0)
  else None.

Definition promptContextOf (ingestion : ReferenceResult) : PromptContext :=
  {| referenceBlock := referenceBlockOf ingestion;
     referenceStatus := result_status ingestion;
     referenceSources :=
       map (fun e => (entry_type e, source e)) (references ingestion) |}.

Definition referenceInstructionMessageOf (ingestion : ReferenceResult)
  : list Message :=
  let hasReferenceBlock :=
    0 <? Z.of_nat (List.length (references ingestion)) in
  match referenceBlockOf ingestion with
  | Some block =>
      if hasReferenceBlock && Js.truthy block
      then [{| role := System; content := referenceInstruction block |}]
      else []
  | None => []
  end.

Definition unparseable : NextResponse :=
  errorResponse 502
    (js "AI 返回内容无法解析，请稍后重试（系统已自动重试一次）。").

(** The handler from the ingested references on: the [try] block and its
    [catch]. *)
Definition generate (query : jsstring) (ingestion : ReferenceResult)
  : list Event * NextResponse :=
  let promptContext := promptContextOf ingestion in
  let referenceInstructionMessage :=
    referenceInstructionMessageOf ingestion in
  let failed := errorResponse 500 (js "生成走势失败，请稍后再试。") in
  let '(log, exit) :=
    generationLoop query promptContext referenceInstructionMessage 2 0 in
  match exit with
  | Throw _ => (log, failed)
  | Return (Responded response) => (log, response)
  | Return Exhausted => (log, unparseable)
  | Return (Break parsed) =>
      let requireSourceDigest :=
        0 <? Z.of_nat (List.length (references ingestion)) in
      let log := log ++ [Validate parsed requireSourceDigest] in
      match validateGeneratedPayload parsed requireSourceDigest with
      | Throw validationError =>
          let message := match validationError with
                         | Error message => message
                         | ReferenceIngestionError message => message
                         | Failure => js "AI 输出不符合要求。"
                         end in
          (log, errorResponse 502 message)
      | Return _ =>
          (log,
           {| http_status := 200;
              body := Enriched parsed (result_status ingestion)
                        (map (fun e =>
                                {| meta_type := entry_type e;
                                   meta_source := source e;
                                   preview := buildReferencePreview
                                                (entry_content e) 240 |})
                             (references ingestion))
                        (errors ingestion) |})
      end
  end.

(** [POST]: the request as the handler reads it, the API key of the
    environment, and the body that [request.json()] returns or throws. *)
Definition POST (apiKey : option jsstring)
    (request_json : outcome GenerationRequestBody)
  : list Event * NextResponse :=
  if negb (Js.truthy (or_empty apiKey)) then
    ([], errorResponse 500 (js "服务器缺少 DEEPSEEK_API_KEY，无法生成走势。"))
  else
    match request_json with
    | Throw _ => ([], errorResponse 400 (js "请求体格式错误。"))
    | Return body =>
        let query := option_map trim (prompt body) in
        if negb (Js.truthy (or_empty query)) then
          ([], errorResponse 400 (js "请提供有效的走势描述。"))
        else
          let supplemental := option_map trim (supplementalText body) in
          let linkInputs :=
            match links body with
            | Some ls => filter Js.truthy (map trim ls)
            | None => []
            end in
          let uploadedDocs :=
            match documents body with
            | Some ds => firstn 5 ds
            | None => []
            end in
          let ingestion :=
            ingestReferences supplemental linkInputs uploadedDocs in
          generate (or_empty query) ingestion
    end.

End WithCollaborators.

End Route.

(* ================================================================== *)
(** * The chart panel (page component) *)
(* ================================================================== *)

Module Panel.

Import Chart.

(** [labelMap.get(time)] *)
Fixpoint Map_get (m : LabelMap) (k : UTCTimestamp) : option jsstring :=
  match m with
  | [] => None
  | (k', v) :: t => if ts_same k k' then Some v else Map_get t k
  end.

(** The [Time] of the chart library: a timestamp in seconds, a date
    string or a business day. *)
Inductive Time : Type :=
| TimeNumber (t : UTCTimestamp)
| TimeString (s : jsstring)
| BusinessDay (year month day : Z).

(** [YearFromTime(t)] of ECMAScript, the year whose first millisecond
    is the last one not after [t]: a first guess from the mean length
    of a year, put right by one year where the guess is off. *)
Definition YearFromTime (t : Z) : Z :=
  let day := t / msPerDay in
  let y := 1970 + (400 * day) / 146097 in
  if DayFromYear (y + 1) <=? day then y + 1
  else if day <? DayFromYear y then y - 1
  else y.

(** [new Date(time * 1000).getUTCFullYear()]; [None] stands for NaN. *)
Definition getUTCFullYear (time : UTCTimestamp) : option Z :=
  match time with
  | Finite s =>
      match TimeClip (s * 1000) with
      | Finite t => Some (YearFromTime t)
      | NaN => None
      end
  | NaN => None
  end.

Definition defaultTimeLabel (time : Time) : jsstring :=
  match time with
  | TimeString s => s
  | TimeNumber t =>
      match getUTCFullYear t with
      | Some year =>
          if (2000 <=? year) && (year <=? 2100)
          then of_Z (year - 1999) ++ js "季"
          else if year =? 1970 then []
          else of_Z year ++ js "年"
      | None => []
      end
  | BusinessDay _ _ _ => []
  end.

(** The tick formatter of the time scale, reading the map that
    [labelMapRef] holds. *)
Definition tickMarkFormatter (labelMap : LabelMap) (time : Time)
  : jsstring :=
  match time with
  | TimeNumber t =>
      match Map_get labelMap t with
      | Some custom =>
          if Js.truthy custom then custom else defaultTimeLabel time
      | None => defaultTimeLabel time
      end
  | _ => defaultTimeLabel time
  end.

(** The map that was handed to [buildAreaData], after the call. *)
Definition labelsAfter (phases : list Phase) (m : LabelMap) : LabelMap :=
  match labelMap (buildAreaData_state phases (Some m)) with
  | Some m' => m'
  | None => m
  end.

(** Truthiness of a number: neither zero nor NaN. *)
Definition ts_truthy (t : UTCTimestamp) : bool :=
  match t with
  | Finite z => negb (z =? 0)
  | NaN => false
  end.

(** What the data effect hands to the three series, and the map it
    leaves in [labelMapRef].  The two calls of [buildAreaData] write to
    one map. *)
Record PanelData : Type := {
  data : list ChartPoint;
  secondaryData : list ChartPoint;
  secondaryVisible : bool;
  labels : LabelMap;
  boundsData : option (UTCTimestamp * UTCTimestamp)
}.

Definition boundsOf (data : list ChartPoint)
  : option (UTCTimestamp * UTCTimestamp) :=
  match data with
  | [] => None
  | first :: _ =>
      let firstTime := time first in
      let lastTime := time (last data first) in
      if ts_truthy firstTime then Some (firstTime, lastTime) else None
  end.

Definition panelData (phases : list Phase)
    (secondaryPhases : option (list Phase)) : PanelData :=
  let labelMap0 : LabelMap := [] in
  let data := buildAreaData phases (Some labelMap0) in
  let labelMap1 := labelsAfter phases labelMap0 in
  match secondaryPhases with
  | Some ((_ :: _) as secondary) =>
      {| data := data;
         secondaryData := buildAreaData secondary (Some labelMap1);
         secondaryVisible := true;
         labels := labelsAfter secondary labelMap1;
         boundsData := boundsOf data |}
  | _ =>
      {| data := data;
         secondaryData := [];
         secondaryVisible := false;
         labels := labelMap1;
         boundsData := boundsOf data |}
  end.

Record AxisConfig : Type := {
  meta : option AxisMeta;
  range : option AxisRange
}.

(** [applyPriceScale]: the price range set on a scale, [None] when the
    scale is hidden. *)
Definition applyPriceScale (info : option AxisConfig) (visible : bool)
    (fallback : list Phase) : option (Number * Number) :=
  if negb visible then None
  else
    let range :=
      match match info with Some i => range i | None => None end with
      | Some r => Some r
      | None =>
          computePhaseRange fallback
            match info with Some i => meta i | None => None end
      end in
    Some (match range with Some r => min r | None => Fin 0 end,
          match range with Some r => max r | None => Fin 100 end).

(** The price range of the right scale as the page configures the
    panel: [axes.primary] is the axis of the result with the range the
    page computed, and the fallback is the displayed phases. *)
Definition primaryPriceRange (phases : list Phase) (axis : option AxisMeta)
  : option (Number * Number) :=
  applyPriceScale
    (Some {| meta := axis; range := primaryRange phases axis |})
    true (displayPhases phases axis).

End Panel.

(* ================================================================== *)
(** * The page: uploads, reference links, request and insights *)
(* ================================================================== *)

Module Home.

Import Chart.

(** ** What the page calls in the browser *)

(** A [File] of a selection: its name, its MIME type and its size in
    bytes. *)
Record File : Type := {
  file_name : jsstring;
  file_type : jsstring;
  file_size : Z
}.

Record ClientDocument : Type := {
  id : jsstring;
  name : jsstring;
  type : jsstring;
  size : Z;
  content : jsstring
}.

Class Browser : Type := {
  (** [reader.result] when [readAsDataURL(file)] has loaded; [None]
      when the reader reports an error *)
  FileReader_result : File -> option jsstring;
  (** [generateDocumentId()] for the file at a position of a selection *)
  generateDocumentId : nat -> nat -> jsstring;
  (** the string a value turns into when it is joined or concatenated *)
  String_of : Route.json -> jsstring
}.

Definition MAX_UPLOAD_BYTES : Z := 2 * 1024 * 1024.

(** ** Reference links *)

Definition handleAddLink (prev : list jsstring) : list jsstring :=
  prev ++ [[]].

(** [l.filter((_, idx) => p(idx))] from the position [idx] on. *)
Fixpoint filter_index (A : Type) (p : nat -> bool) (l : list A)
    (idx : nat) : list A :=
  match l with
  | [] => []
  | x :: t =>
      if p idx then x :: filter_index p t (S idx)
      else filter_index p t (S idx)
  end.

Definition handleRemoveLink (index : nat) (prev : list jsstring)
  : list jsstring :=
  if Nat.eqb (List.length prev) 1 then [[]]
  else filter_index (fun idx => negb (Nat.eqb idx index)) prev 0.

(** ** Uploaded documents *)

Section WithBrowser.

Context {B : Browser}.

(** The call either throws at once or returns a promise, which is
    fulfilled with the document or rejected: the outer outcome is that
    of the call, the inner one that of the promise. *)
Definition convertFileToDocument (batch index : nat) (file : File)
  : Route.outcome (Route.outcome ClientDocument) :=
  if file_size file >? MAX_UPLOAD_BYTES then
    Route.Throw (Route.Error (js "单个文件需小于 2MB，请压缩后再上传。"))
  else
    Route.Return
      match FileReader_result file with
      | Some result =>
          let content :=
            if includes (js ",") result
            then Route.after_last_comma result
            else result in
          Route.Return
            {| id := generateDocumentId batch index;
               name := file_name file;
               type := file_type file;
               size := file_size file;
               content := content |}
      | None => Route.Throw (Route.Error (js "无法读取文件，请重试。"))
      end.

(** [l.map(f)] for an [f] that may throw: the first throw leaves the
    loop. *)
Fixpoint map_calls (A R : Type) (f : nat -> A -> Route.outcome R)
    (l : list A) (index : nat) : Route.outcome (list R) :=
  match l with
  | [] => Route.Return []
  | x :: t =>
      match f index x with
      | Route.Throw e => Route.Throw e
      | Route.Return y =>
          match map_calls f t (S index) with
          | Route.Throw e => Route.Throw e
          | Route.Return ys => Route.Return (y :: ys)
          end
      end
  end.

(** [await Promise.all(promises)]: all the values, or a rejection.
    Which rejection comes first is a matter of timing; here it is the
    first of the list, and in this page every rejection carries the same
    error. *)
Fixpoint Promise_all (R : Type) (promises : list (Route.outcome R))
  : Route.outcome (list R) :=
  match promises with
  | [] => Route.Return []
  | p :: t =>
      match p with
      | Route.Throw e => Route.Throw e
      | Route.Return y =>
          match Promise_all t with
          | Route.Throw e => Route.Throw e
          | Route.Return ys => Route.Return (y :: ys)
          end
      end
  end.

(** [handleFilesSelected] for the [batch]-th selection: the update of
    the documents it hands to [setDocuments], if it hands one, and the
    hint shown.  [documents] is the list of the render in which the
    callback was made, the one whose length the callback holds: the free
    slots are counted in it.  The update is a function of the documents
    held when it is applied, which is after the files were read. *)
Definition handleFilesSelected (batch : nat)
    (documents : list ClientDocument) (fileList : option (list File))
  : option (list ClientDocument -> list ClientDocument) * option jsstring :=
  match fileList with
  | None => (None, None)
  | Some [] => (None, None)
  | Some selected =>
      let remainingSlots :=
        Z.max 0 (5 - Z.of_nat (List.length documents)) in
      if remainingSlots =? 0 then
        (None, Some (js "最多上传 5 份资料。"))
      else
        let files := firstn (Z.to_nat remainingSlots) selected in
        match
          match map_calls (convertFileToDocument batch) files 0 with
          | Route.Throw e => Route.Throw e
          | Route.Return promises => Promise_all promises
          end
        with
        | Route.Return parsed =>
            (Some (fun prev => prev ++ parsed),
             Some (js "资料已添加为分析依据。"))
        | Route.Throw err =>
            (None,
             Some match err with
                  | Route.Error message => message
                  | Route.ReferenceIngestionError message => message
                  | Route.Failure => js "文件读取失败，请重试。"
                  end)
        end
  end.

(** [setDocuments(update)] on the documents held, for the update a
    handler asked for. *)
Definition setDocuments
    (update : option (list ClientDocument -> list ClientDocument))
    (prev : list ClientDocument) : list ClientDocument :=
  match update with
  | Some f => f prev
  | None => prev
  end.

Definition handleRemoveDocument (removed : jsstring)
    (prev : list ClientDocument) : list ClientDocument :=
  filter (fun doc => negb (Js.eqb (id doc) removed)) prev.

(** ** The request *)

(** The body [runGeneration] posts, or [None] when it stops at the
    empty query. *)
Definition requestPayload (referenceLinks : list jsstring)
    (supplementText : jsstring) (documents : list ClientDocument)
    (input : jsstring) : option Route.GenerationRequestBody :=
  let cleanQuery := trim input in
  if negb (Js.truthy cleanQuery) then None
  else
    let activeLinks := filter Js.truthy (map trim referenceLinks) in
    Some
      {| Route.prompt := Some cleanQuery;
         Route.supplementalText :=
           if Js.truthy (trim supplementText)
           then Some (trim supplementText)
           else None;
         Route.links := Some activeLinks;
         Route.documents :=
           Some (map (fun doc =>
                        {| Route.name := name doc;
                           Route.type := Some (type doc);
                           Route.doc_content := content doc |})
                     documents) |}.

(** ** The response *)

(** [res.ok] *)
Definition res_ok (response : Route.NextResponse) : bool :=
  (200 <=? Route.http_status response)
  && (Route.http_status response <=? 299).

(** A member of the body as the page reads it: the members of an error
    body, and for a result the members of the parsed object (the three
    members the route adds are not read by name here). *)
Definition member (body : Route.ResponseBody) (key : jsstring)
  : option Route.json :=
  match body with
  | Route.ErrorBody error details =>
      if Js.eqb key (js "error") then Some (Route.JStr error)
      else if Js.eqb key (js "details") then option_map Route.JStr details
      else None
  | Route.Enriched parsed _ _ _ => Route.get parsed key
  end.

(** [value?.length] as a condition. *)
Definition has_length (value : option Route.json) : bool :=
  match value with
  | Some (Route.JArr items) => negb (Nat.eqb (List.length items) 0)
  | Some (Route.JStr s) => Js.truthy s
  | Some (Route.JObj fields) =>
      match Route.lookup (js "length") fields with
      | Some v => Route.truthy v
      | None => false
      end
  | _ => false
  end.

(** [items.join(sep)]: [null] joins as the empty string. *)
Fixpoint join (sep : jsstring) (items : list Route.json) : jsstring :=
  match items with
  | [] => []
  | [x] => match x with Route.JNull => [] | _ => String_of x end
  | x :: t =>
      match x with Route.JNull => [] | _ => String_of x end
      ++ sep ++ join sep t
  end.

(** What [runGeneration] does with a response: it replaces the result
    on the page, or keeps it and shows a message. *)
Inductive Rendered : Type :=
| Replaced (result : Route.ResponseBody)
| Unchanged (error : jsstring).

Definition receive (response : Route.NextResponse) : Rendered :=
  let responseBody := Route.body response in
  if negb (res_ok response) then
    let detail :=
      match member responseBody (js "details") with
      | Some (Route.JArr (x :: t)) =>
          js "（" ++ join (js "；") (x :: t) ++ js "）"
      | _ => []
      end in
    Unchanged
      (match member responseBody (js "error") with
       | None => js "生成失败，请稍后再试。"
       | Some Route.JNull => js "生成失败，请稍后再试。"
       | Some (Route.JStr s) => s
       | Some v => String_of v
       end ++ detail)
  else if negb (has_length (member responseBody (js "phases"))) then
    Unchanged (js "AI 未返回有效走势，请稍后重试。")
  else Replaced responseBody.

(** [runGeneration] against a server; a request that fails on the way
    throws. *)
Definition runGeneration
    (server : Route.GenerationRequestBody
              -> Route.outcome Route.NextResponse)
    (referenceLinks : list jsstring) (supplementText : jsstring)
    (documents : list ClientDocument) (input : jsstring) : Rendered :=
  match requestPayload referenceLinks supplementText documents input with
  | None => Unchanged (js "请输入一句想要解析的走势描述。")
  | Some requestPayload =>
      match server requestPayload with
      | Route.Return response => receive response
      | Route.Throw err =>
          Unchanged match err with
                    | Route.Error message => message
                    | Route.ReferenceIngestionError message => message
                    | Route.Failure => js "生成失败，请稍后再试。"
                    end
      end
  end.

End WithBrowser.

(** ** Insights *)





End Home.

(* ================================================================== *)
(** * Vocabulary of the statements *)
(* ================================================================== *)

Unset Implicit Arguments.

Module ChartSpec.

Import Chart.

(** Every timestamp is below the next one, by the comparison [<] of
    numbers. *)
Fixpoint strictly_increasing (l : list UTCTimestamp) : bool :=
  match l with
  | a :: (b :: _) as t => ts_ltb a b && strictly_increasing t
  | _ => true
  end.

(** [Number.isFinite(t)] *)
Definition is_finite (t : UTCTimestamp) : bool :=
  match t with Finite _ => true | NaN => false end.

(** Both boundary labels of a phase resolve to a date in range, whatever
    the position of the phase. *)
Definition resolvable (ph : Phase) : Prop :=
  forall i, is_finite (yearToTimestamp (start_year ph) i) = true
            /\ is_finite (yearToTimestamp (end_year ph) i) = true.

(** The number of joins of consecutive phases that need a bridge. *)
Fixpoint discontinuities (l : list Phase) : nat :=
  match l with
  | a :: (b :: _) as t =>
      (if shouldBridge a b then 1 else 0) + discontinuities t
  | _ => 0
  end%nat.

(** The start points a run of phases emits after the phase [prev]. *)
Fixpoint startPoints (prev : option Phase) (l : list Phase) : nat :=
  match l with
  | [] => 0
  | ph :: t =>
      (match prev with
       | None => 1
       | Some p => if shouldBridge p ph then 1 else 0
       end + startPoints (Some ph) t)
  end%nat.

(** The last phase of a list, if it has one. *)
Definition last_phase (l : list Phase) : option Phase :=
  match rev l with
  | [] => None
  | x :: _ => Some x
  end.

(** The points so far are strictly increasing and none is later than
    [lastTime], which is a number. *)
Definition ordered (st : BuildState) : Prop :=
  exists z, lastTime st = Finite z
    /\ strictly_increasing (map time (points st)) = true
    /\ Forall (fun t => ts_leb t (Finite z) = true) (map time (points st)).

(** A value on the subjective scale. *)
Definition in_range (q : Q) : Prop := (0 <= q)%Q /\ (q <= 100)%Q.

(** The invariant of a phase under a subjective axis. *)
Definition bounded (p : Phase) : Prop :=
  in_range (open p) /\ in_range (high p) /\ in_range (low p)
  /\ in_range (close p).

(** A phase with its four values clamped. *)
Definition clampPhase (p : Phase) : Phase :=
  with_values p (clampScore (open p)) (clampScore (high p))
              (clampScore (low p)) (clampScore (close p)).

(** The values of a series that the range is computed from. *)
Definition valuesOf (phases : list Phase) : list Q :=
  flat_map (fun phase => [open phase; close phase; low phase; high phase])
           phases.

(** [m] is the least, or the greatest, of the values. *)
Definition least (m : Q) (values : list Q) : Prop :=
  In m values /\ Forall (fun v => (m <= v)%Q) values.

Definition greatest (m : Q) (values : list Q) : Prop :=
  In m values /\ Forall (fun v => (v <= m)%Q) values.

(** The year and the month index under which a string label is handled
    by the year+quarter rule or by the (plain or embedded) year rule. *)
Definition realYearOf (s : jsstring) : option (Z * Z) :=
  match search quarter_at (trim s) with
  | Some (year, q) => Some (year, (q - 1) * 3)
  | None =>
      match search year_at (trim s) with
      | Some year => Some (year, 0)
      | None => None
      end
  end.

(** The ordinal under which a string label is handled by the localized
    ordinal rule, which is reached when no year is found. *)
Definition ordinalOf (s : jsstring) : option Z :=
  match realYearOf s with
  | Some _ => None
  | None => search cnOrdinal_at (trim s)
  end.

(** 1 January 2100 in seconds. *)
Definition year2100 : Z := 4102444800.

End ChartSpec.

Module RouteSpec.

Import Route.

Set Implicit Arguments.

Section Loop.

Variable A : Type.
Variable f : nat -> A -> outcome jsstring.
Variable mk : A -> jsstring -> ReferenceEntry.
Variable fallback : A -> jsstring.

(** The shape shared by the bodies of the two [for] loops. *)
Definition step (st : IngestState) (x : A) (index : nat) : IngestState :=
  match f index x with
  | Return t => pushReference (mk x t) (setHadInput st)
  | Throw e =>
      pushError match e with
                | ReferenceIngestionError message => message
                | _ => fallback x
                end (setHadInput st)
  end.

(** The entry [pushReference] stores: its content cut to the budget. *)
Definition limited (entry : ReferenceEntry) : ReferenceEntry :=
  {| entry_type := entry_type entry;
     entry_content := truncateText (entry_content entry) MAX_REFERENCE_CHARS;
     source := source entry |}.

(** The entries a loop adds: one for every source that returned. *)
Fixpoint loopEntries (l : list A) (index : nat) : list ReferenceEntry :=
  match l with
  | [] => []
  | x :: t =>
      match f index x with
      | Return txt => [limited (mk x txt)]
      | Throw _ => []
      end ++ loopEntries t (S index)
  end.

(** The messages a loop adds: one for every source that threw. *)
Fixpoint loopErrors (l : list A) (index : nat) : list jsstring :=
  match l with
  | [] => []
  | x :: t =>
      match f index x with
      | Return _ => []
      | Throw (ReferenceIngestionError message) => [message]
      | Throw _ => [fallback x]
      end ++ loopErrors t (S index)
  end.

(** The outcome of every source of the list, in order. *)
Fixpoint outcomes_from (l : list A) (index : nat)
  : list (outcome jsstring) :=
  match l with
  | [] => []
  | x :: t => f index x :: outcomes_from t (S index)
  end.

(** [l.length > 0] *)
Definition nonempty (l : list A) : bool :=
  match l with [] => false | _ => true end.

End Loop.

Unset Implicit Arguments.

(** The number of sources that produced a text, and of those that
    failed. *)
Definition succeeded (outs : list (outcome jsstring)) : nat :=
  List.length (filter (fun o => negb (throws o)) outs).

Definition failed (outs : list (outcome jsstring)) : nat :=
  List.length (filter (@throws jsstring) outs).

(** The messages of the sources that failed, in the order of the
    sources. *)
Definition thrownMessages (outs : list (outcome jsstring)) : list jsstring :=
  flat_map (fun o => match o with
                     | Throw (ReferenceIngestionError message) => [message]
                     | _ => []
                     end) outs.

(** A value whose [typeof] is ["object"] and that is not [null]. *)
Definition nonnull_object (payload : json) : Prop :=
  (exists fields, payload = JObj fields)
  \/ (exists items, payload = JArr items).

(** [phases] is an array of five to ten elements. *)
Definition phases_in_bounds (payload : json) : Prop :=
  exists items,
    get payload (js "phases") = Some (JArr items)
    /\ 5 <= Z.of_nat (List.length items) <= 10.

(** [source_digest] is a string of at least twenty characters, counted by
    [measure]. *)
Definition digest_long_enough (measure : jsstring -> Z) (payload : json)
  : Prop :=
  exists digest,
    get payload (js "source_digest") = Some (JStr digest)
    /\ 20 <= measure digest.

(** The length the validator compares: that of the trimmed string. *)
Definition trimmedLength (s : jsstring) : Z := Js.length (trim s).

(** The calls of the generator in a log, and the calls of the
    validator. *)
Definition generations (log : list Event) : list (nat * list Message) :=
  flat_map (fun e => match e with
                     | Generate attempt messages => [(attempt, messages)]
                     | Validate _ _ => []
                     end) log.


Section WithCollaborators.

Context {C : Collaborators}.

(** The entries the three kinds of source are pushed as. *)
Definition mkFile (doc : UploadedDocument) (text : jsstring)
  : ReferenceEntry :=
  {| entry_type := TypeFile; entry_content := text; source := name doc |}.

Definition mkUrl (link content : jsstring) : ReferenceEntry :=
  {| entry_type := TypeUrl; entry_content := content; source := link |}.

Definition mkText (textBlock : jsstring) : ReferenceEntry :=
  {| entry_type := TypeText; entry_content := textBlock;
     source := js "user_input" |}.

(** The supplemental text as a source: attempted when something is left
    of it after trimming. *)
Definition textBlockOf (supplementalText : option jsstring)
  : list jsstring :=
  match option_map trim supplementalText with
  | Some textBlock => if Js.truthy textBlock then [textBlock] else []
  | None => []
  end.

(** The outcome of every attempted source: the text, the documents, the
    links. *)
Definition sourceOutcomes (supplementalText : option jsstring)
    (links : list jsstring) (documents : list UploadedDocument)
  : list (outcome jsstring) :=
  map Return (textBlockOf supplementalText)
  ++ outcomes_from extractTextFromDocument documents 0
  ++ outcomes_from fetchLinkContent links 0.

(** The messages kept for an exception of another class. *)
Definition docFallback (doc : UploadedDocument) : jsstring :=
  js "无法读取文件：" ++ name doc.

Definition linkFallback (link : jsstring) : jsstring :=
  js "无法访问链接：" ++ link.

(** The texts the extractor tries, in order: the normalized text, the
    inside of the first fenced block, the slice from the first opening
    brace to the last closing brace. *)
Definition candidates (content : jsstring) : list jsstring :=
  let trimmed := normalizeJsonText content in
  [trimmed]
  ++ match search fence_at trimmed with
     | Some inner => [trim inner]
     | None => []
     end
  ++ match braceSlice trimmed with
     | Some sliced => [sliced]
     | None => []
     end.

(** What a candidate parses to: strictly, or else after repair; [None]
    when the strict parse and the repair pass both fail. *)
Definition parseCandidate (candidate : jsstring) : option json :=
  let normalized := normalizeJsonText candidate in
  match JSON_parse normalized with
  | Return v => Some v
  | Throw _ =>
      match jsonrepair normalized with
      | Return repaired =>
          match JSON_parse repaired with
          | Return v => Some v
          | Throw _ => None
          end
      | Throw _ => None
      end
  end.

(** The first truthy value of a list of parses; [null] when there is
    none. *)
Fixpoint firstTruthy (parses : list (option json)) : json :=
  match parses with
  | [] => JNull
  | Some v :: rest => if truthy v then v else firstTruthy rest
  | None :: rest => firstTruthy rest
  end.

(** The generator answered the attempt, and nothing usable was recovered
    from the answer: it had no content, or the extractor found no truthy
    value in it. *)
Definition unrecoverable (attempt : nat) (messages : list Message) : Prop :=
  exists reply raw,
    chat_completions attempt messages = Return reply
    /\ chat_ok reply = true
    /\ chat_content reply = Return raw
    /\ (Js.truthy (or_empty raw) = false
        \/ exists v, extractJsonPayload (or_empty raw) = Return v
                     /\ truthy v = false).

End WithCollaborators.

End RouteSpec.

(* ================================================================== *)
(** * Sample data *)
(* ================================================================== *)

Module Samples.

Import Chart.

Definition mkPhase (s e : string) (o c : Q) : Phase :=
  {| start_year := LStr (js s); end_year := LStr (js e);
     open := o; high := Qmax o c; low := Qmin o c; close := c;
     label := []; key_events := []; relation_note := None;
     zone := None |}.

(** A browser whose reader loads every file as the same data URL, and
    three small files. *)
Definition plainBrowser : Home.Browser :=
  {| Home.FileReader_result :=
       fun _ => Some (js "data:text/plain;base64,QQ==");
     Home.generateDocumentId :=
       fun batch index => [N.of_nat batch; N.of_nat index];
     Home.String_of := fun _ => [] |}.

Definition threeFiles : list Home.File :=
  [ {| Home.file_name := js "a.txt"; Home.file_type := js "text/plain";
       Home.file_size := 1 |};
    {| Home.file_name := js "b.txt"; Home.file_type := js "text/plain";
       Home.file_size := 1 |};
    {| Home.file_name := js "c.txt"; Home.file_type := js "text/plain";
       Home.file_size := 1 |} ].

(** The documents of an empty page after a first selection of the three
    files. *)
Definition firstSelection : list Home.ClientDocument :=
  Home.setDocuments
    (fst (Home.handleFilesSelected (B := plainBrowser) 0 []
                                   (Some threeFiles)))
    [].

(** Two phases joined at an ordinal label beyond the range of dates. *)
Definition overflowPhases : list Phase :=
  [ mkPhase "2019" "第300000季" 10 20;
    mkPhase "第300000季" "2018" 20 30 ].

(** Six yearly phases; the only broken join is between the third and the
    fourth (close 60, open 55). *)
Definition sixPhases : list Phase :=
  [ mkPhase "2016" "2017" 10 30;
    mkPhase "2017" "2018" 30 50;
    mkPhase "2018" "2019" 50 60;
    mkPhase "2019" "2020" 55 80;
    mkPhase "2020" "2021" 80 70;
    mkPhase "2021" "2022" 70 75 ].

(** A phase whose values leave the subjective scale on both sides. *)
Definition wildPhase : Phase :=
  {| start_year := LNum 2020; end_year := LNum 2021;
     open := 150; high := 180; low := -20; close := 40;
     label := []; key_events := []; relation_note := None;
     zone := None |}.

Definition axisOfKind (k : option AxisKind) : AxisMeta :=
  {| axis_label := js "axis"; unit := None; kind := k;
     description := None; range_hint := None |}.

(** A small world to run the route in: a decoder that takes one byte per
    code unit, no document parser, one reachable page, no repair
    library, and a generator given by [chat]. *)
Definition reportUrl : jsstring := js "https://example.com/report".

Definition sampleWorld
    (chat : nat -> list Route.Message -> Route.outcome Route.ChatReply)
  : Route.Collaborators :=
  {| Route.Buffer_from_base64 :=
       map (fun c => match Byte.of_N c with
                     | Some b => b
                     | None => Byte.x3f
                     end);
     Route.Buffer_toString_utf8 := map Byte.to_N;
     Route.PDFParse_getText := fun _ _ => Route.Throw Route.Failure;
     Route.mammoth_extractRawText := fun _ _ => Route.Throw Route.Failure;
     Route.fetch := fun _ url =>
       if Js.eqb url reportUrl
       then Route.Return
              {| Route.ok := true; Route.status := 200;
                 Route.text := Route.Return (js "annual report") |}
       else Route.Throw Route.Failure;
     Route.extractMainTextFromHtml := fun html => html;
     Route.jsonrepair := fun _ => Route.Throw Route.Failure;
     Route.chat_completions := chat;
     Route.SYSTEM_PROMPT := js "system";
     Route.USER_PROMPT_TEMPLATE := fun query _ => query |}.

(** A generator that never answers with JSON. *)
Definition chatty (attempt : nat) (messages : list Route.Message)
  : Route.outcome Route.ChatReply :=
  Route.Return
    {| Route.chat_ok := true;
       Route.chat_text := Route.Return [];
       Route.chat_content := Route.Return (Some (js "I would rather talk")) |}.

Definition note : Route.UploadedDocument :=
  {| Route.name := js "note.txt"; Route.type := None;
     Route.doc_content := js "plain words" |}.

Definition blank : Route.UploadedDocument :=
  {| Route.name := js "blank.txt"; Route.type := None;
     Route.doc_content := js "   " |}.

(** Five phases and a digest of three letters followed by twenty
    spaces. *)
Definition paddedDigestPayload : Route.json :=
  Route.JObj
    [ (js "phases", Route.JArr (repeat (Route.JObj []) 5));
      (js "source_digest",
       Route.JStr (js "abc" ++ repeat 32%N 20)) ].


Definition payloadWithPhases (n : nat) : Route.json :=
  Route.JObj [ (js "phases", Route.JArr (repeat (Route.JObj []) n)) ].

End Samples.

(* ================================================================== *)
(** * Vocabulary of the further properties *)
(* ================================================================== *)

Module TextSpec.

(** The first code unit, if any, is not white space. *)
Definition starts_clean (s : jsstring) : Prop :=
  match s with
  | c :: _ => is_ws c = false
  | [] => True
  end.

(** The last code unit, if any, is not white space. *)
Definition ends_clean (s : jsstring) : Prop := starts_clean (rev s).

(** Every white space of the string is one space, followed by something
    that is not white space or by the end. *)
Fixpoint single_spaced (s : jsstring) : Prop :=
  match s with
  | [] => True
  | c :: t => (is_ws c = true -> c = 32%N /\ starts_clean t)
              /\ single_spaced t
  end.

(** The code unit [c] does not occur in [s]. *)
Definition lacks (c : N) (s : jsstring) : Prop :=
  Forall (fun d => d <> c) s.

(** The string is empty or all white space. *)
Definition blank (s : jsstring) : Prop :=
  Forall (fun c => is_ws c = true) s.

(** The typographic quotes and the byte-order mark that
    [normalizeJsonText] rewrites. *)
Definition typographic (c : N) : bool :=
  ((c =? 8220) || (c =? 8221) || (c =? 8216) || (c =? 8217)
   || (c =? 65279))%N.

End TextSpec.

Module IngestSpec.

Import Route.

(** No collaborator throws an error of the route's own class, which is
    local to the route. *)
Definition foreign_errors (C : Collaborators) : Prop :=
  (forall index buffer message,
     PDFParse_getText index buffer
     <> Throw (ReferenceIngestionError message))
  /\ (forall index buffer message,
        mammoth_extractRawText index buffer
        <> Throw (ReferenceIngestionError message))
  /\ (forall index url message,
        fetch index url <> Throw (ReferenceIngestionError message))
  /\ (forall index url response message,
        fetch index url = Return response ->
        text response <> Throw (ReferenceIngestionError message)).

(** [message] ends with [name]. *)
Definition names (message name : jsstring) : Prop :=
  exists prefix, message = prefix ++ name.

End IngestSpec.

Module SeriesSpec.

Import Chart ChartSpec.

(** A label in which no digit occurs: none of the rules of
    [yearToTimestamp] finds a number in it. *)
Definition digit_free (l : Label) : Prop :=
  match l with
  | LNum _ => False
  | LStr s => Forall (fun c => is_digit c = false) s
  end.

(** The four values of a phase. *)
Definition phaseValues (p : Phase) : list Q :=
  [open p; close p; low p; high p].

(** A finite double: an integer of less than 54 bits times a power of
    two that is no smaller than 2^-1074 and keeps the value below
    2^1024. *)
Definition is_double (q : Q) : Prop :=
  exists m e : Z,
    Z.abs m < 2 ^ 53 /\ -1074 <= e <= 971
    /\ (q == inject_Z m * 2 ^ e)%Q.

(** [a <= b] on numbers; NaN compares with nothing. *)
Definition Number_le (a b : Number) : Prop :=
  match a, b with
  | Fin x, Fin y => (x <= y)%Q
  | Infinity true, (Fin _ | Infinity _) => True
  | Fin _, Infinity false => True
  | Infinity false, Infinity false => True
  | _, _ => False
  end.

(** Every value of the phases lies inside the range, bounds included. *)
Definition covers (r : AxisRange) (phases : list Phase) : Prop :=
  Forall (fun p => Forall (fun v => Number_le (min r) (Fin v)
                                    /\ Number_le (Fin v) (max r))
                          (phaseValues p))
         phases.

(** The values of the phases are doubles. *)
Definition of_doubles (phases : list Phase) : Prop :=
  Forall (fun p => Forall is_double (phaseValues p)) phases.

(** The first second of 1 January of the year [y]. *)
Definition yearStart (y : Z) : Z := DayFromYear y * 86400.

(** The largest and the smallest year whose 1 January is a date. *)
Definition lastYear : Z := 275760.
Definition firstYear : Z := -271820.

(** The fields of a phase that normalization leaves alone. *)
Definition frame (p : Phase)
  : Label * Label * jsstring * list TrendEvent * option jsstring
    * option Zone :=
  (start_year p, end_year p, label p, key_events p, relation_note p, zone p).

(** The points so far are strictly increasing, positive, and none is
    later than [lastTime], which is a number that is not negative. *)
Definition advancing (st : BuildState) : Prop :=
  exists z, lastTime st = Finite z /\ 0 <= z
    /\ strictly_increasing (map time (points st)) = true
    /\ Forall (fun t => exists x, t = Finite x /\ 0 < x <= z)
              (map time (points st)).

(** The point refers to one of the phases and carries its clamped open
    or its clamped close. *)
Definition mirrors (phases : list Phase) (pt : ChartPoint) : Prop :=
  In (phase pt) phases
  /\ (value pt = clampScore (open (phase pt))
      \/ value pt = clampScore (close (phase pt))).

(** The state of the builder after [count] points on labels without a
    digit: the points are one day apart from the first day on. *)
Definition daily (st : BuildState) : Prop :=
  lastTime st = Finite (86400 * Z.of_nat (List.length (points st)))
  /\ map time (points st)
     = map (fun k => Finite (86400 * (Z.of_nat k + 1)))
           (seq 0 (List.length (points st))).

(** Two acts of a play, labelled without any number. *)
Definition acts : list Phase :=
  [ {| start_year := LStr (js "序幕"); end_year := LStr (js "高潮");
       open := 20; high := 70; low := 10; close := 60;
       label := js "rise"; key_events := []; relation_note := None;
       zone := None |};
    {| start_year := LStr (js "高潮"); end_year := LStr (js "尾声");
       open := 60; high := 65; low := 30; close := 35;
       label := js "fall"; key_events := []; relation_note := None;
       zone := None |} ].

End SeriesSpec.

Module PanelSpec.

Import Chart ChartSpec Panel.

(** The text the formatter builds for a season or a year. *)
Definition seasonText (n : Z) : jsstring := of_Z n ++ js "季".
Definition yearText (n : Z) : jsstring := of_Z n ++ js "年".

(** The label the builder files under the time of a point is one of
    the two boundary labels of the phase of the point. *)
Definition labelled (pt : ChartPoint) (entry : UTCTimestamp * jsstring)
  : Prop :=
  fst entry = time pt
  /\ (snd entry = label_text (start_year (phase pt))
      \/ snd entry = label_text (end_year (phase pt))).

(** The state of the builder when every time so far was a date: the
    map holds one entry for each point, in the order of the points. *)
Definition filed (st : BuildState) : Prop :=
  SeriesSpec.advancing st
  /\ exists m, labelMap st = Some m /\ Forall2 labelled (points st) m.

(** Looking up in [m] is looking up in [own] and, for what [own] does
    not hold, in [m0]. *)
Definition overlays (m0 own m : LabelMap) : Prop :=
  forall t,
    Map_get m t = match Map_get own t with
                  | Some l => Some l
                  | None => Map_get m0 t
                  end.

(** Two runs of the builder that differ in the map they were given
    only: [st'] started with an empty map and [st] with [m0]. *)
Definition alongside (m0 : LabelMap) (st' st : BuildState) : Prop :=
  points st = points st' /\ lastTime st = lastTime st'
  /\ exists own m, labelMap st' = Some own /\ labelMap st = Some m
                   /\ overlays m0 own m.

(** Two runs of the builder, one of them without a map. *)
Definition mapless (st' st : BuildState) : Prop :=
  points st = points st' /\ lastTime st = lastTime st'
  /\ labelMap st' = None.

(** Two phases of an index between 5000 and 6000 points. *)
Definition indexPhases : list Phase :=
  [ {| start_year := LNum 2019; end_year := LNum 2020;
       open := 5000; high := 5600; low := 5000; close := 5500;
       label := js "recovery"; key_events := []; relation_note := None;
       zone := None |};
    {| start_year := LNum 2020; end_year := LNum 2021;
       open := 5500; high := 6000; low := 5400; close := 6000;
       label := js "rally"; key_events := []; relation_note := None;
       zone := None |} ].

End PanelSpec.

Module ReplySpec.

Import Route RouteSpec.

Section WithCollaborators.

Context {C : Collaborators}.

(** The references the handler ingests for a request. *)
Definition ingestionOf (request : GenerationRequestBody)
  : ReferenceResult :=
  ingestReferences
    (option_map trim (supplementalText request))
    match links request with
    | Some ls => filter Js.truthy (map trim ls)
    | None => []
    end
    match documents request with
    | Some ds => firstn 5 ds
    | None => []
    end.

(** The entries of a response: type, source and preview of every
    reference. *)
Definition entriesOf (ingestion : ReferenceResult)
  : list ReferenceEntryMeta :=
  map (fun e => {| meta_type := entry_type e;
                   meta_source := source e;
                   preview := buildReferencePreview (entry_content e) 240 |})
      (references ingestion).

(** The messages of an attempt for a request. *)
Definition messagesOf (query : jsstring) (ingestion : ReferenceResult)
    (attempt : nat) : list Message :=
  attemptMessages query (promptContextOf ingestion)
                  (referenceInstructionMessageOf ingestion) attempt.

(** The request reaches the generator: there is a key, the body can be
    read, and its prompt is not blank. *)
Definition served (apiKey : option jsstring)
    (request_json : outcome GenerationRequestBody) : Prop :=
  Js.truthy (or_empty apiKey) = true
  /\ exists request,
       request_json = Return request
       /\ Js.truthy (or_empty (option_map trim (prompt request))) = true.

End WithCollaborators.

End ReplySpec.

Module HomeSpec.

Import Chart ChartSpec Home.

(** What the page sends of a document. *)
Definition toUploaded (doc : ClientDocument) : Route.UploadedDocument :=
  {| Route.name := name doc;
     Route.type := Some (type doc);
     Route.doc_content := content doc |}.

(** The supplemental text and the links the page sends. *)
Definition supplementalOf (supplementText : jsstring) : option jsstring :=
  if Js.truthy (trim supplementText) then Some (trim supplementText)
  else None.

Definition activeLinksOf (referenceLinks : list jsstring) : list jsstring :=
  filter Js.truthy (map trim referenceLinks).




End HomeSpec.

(* ================================================================== *)
(** * Properties *)
(* ================================================================== *)

Module ChartProofs.

Import Chart ChartSpec.

(** ** Monotonic time axis *)

Lemma strictly_increasing_snoc l x :
  strictly_increasing l = true ->
  Forall (fun t => ts_ltb t x = true) l ->
  strictly_increasing (l ++ [x]) = true.
Proof.
  induction l as [|a l IH]; intros Hs Hall.
  - reflexivity.
  - destruct l as [|b l].
    + inversion Hall as [|? ? Ha _]; subst. cbn. now rewrite Ha.
    + change (ts_ltb a b && strictly_increasing (b :: l) = true) in Hs.
      apply andb_true_iff in Hs as [Hab Hs].
      change (ts_ltb a b && strictly_increasing ((b :: l) ++ [x]) = true).
      rewrite Hab. cbn [andb]. apply IH; [exact Hs|].
      now inversion Hall.
Qed.

Lemma pushPoint_ordered z v ph lbl st :
  ordered st -> ordered (pushPoint (Finite z) v ph lbl st).
Proof.
  intros (w & Hlast & Hinc & Hle).
  unfold pushPoint. rewrite Hlast. cbn [ts_leb ts_add].
  set (t' := if z <=? w then w + 24 * 60 * 60 else z).
  assert (Hgt : w < t').
  { subst t'. destruct (Z.leb_spec z w); lia. }
  replace (if z <=? w then Finite (w + 24 * 60 * 60) else Finite z)
    with (Finite t') by (subst t'; now destruct (z <=? w)).
  exists t'. cbn [lastTime points]. split; [reflexivity|].
  rewrite map_app. cbn [map time]. split.
  - apply strictly_increasing_snoc; [exact Hinc|].
    eapply Forall_impl; [|exact Hle].
    intros [a|]; cbn; [|discriminate].
    intros Ha. apply Z.leb_le in Ha. apply Z.ltb_lt. lia.
  - apply Forall_app. split.
    + eapply Forall_impl; [|exact Hle].
      intros [a|]; cbn; [|discriminate].
      intros Ha. apply Z.leb_le in Ha. apply Z.leb_le. lia.
    + constructor; [|constructor]. cbn. apply Z.leb_le. lia.
Qed.

Lemma pushPoint_ordered_finite t v ph lbl st :
  is_finite t = true -> ordered st -> ordered (pushPoint t v ph lbl st).
Proof.
  destruct t; [intros _|discriminate]. apply pushPoint_ordered.
Qed.

Lemma phaseStep_ordered phases st ph index :
  resolvable ph -> ordered st -> ordered (phaseStep phases st ph index).
Proof.
  intros Hres Hst. unfold phaseStep.
  destruct (Hres (Z.of_nat index)) as [Hs _].
  destruct (Hres (Z.of_nat index + 1)) as [_ He].
  apply pushPoint_ordered_finite; [exact He|].
  destruct index as [|i].
  - now apply pushPoint_ordered_finite.
  - destruct (nth_error phases i) as [prev|]; [|exact Hst].
    destruct (shouldBridge prev ph); [|exact Hst].
    now apply pushPoint_ordered_finite.
Qed.

Lemma forEach_ordered phases l :
  Forall resolvable l ->
  forall index st, ordered st ->
    ordered (forEach_from (phaseStep phases) l index st).
Proof.
  induction 1 as [|ph l Hph _ IH]; intros index st Hst; cbn.
  - exact Hst.
  - apply IH. now apply phaseStep_ordered.
Qed.

(** When every boundary label resolves to a date in range, the emitted
    timestamps are strictly increasing. *)
Lemma buildAreaData_increasing_when_resolvable phases labelMap :
  Forall resolvable phases ->
  strictly_increasing (map time (buildAreaData phases labelMap)) = true.
Proof.
  intros Hall. unfold buildAreaData.
  destruct phases as [|ph rest] eqn:E; [reflexivity|]. rewrite <- E in *.
  destruct (forEach_ordered phases phases Hall 0
              {| points := []; lastTime := Finite 0; labelMap := labelMap |})
    as (z & _ & Hinc & _).
  - exists 0. cbn. repeat split; constructor.
  - exact Hinc.
Qed.

(** C1, at the failing input.  The second boundary label of the first
    phase is an ordinal whose synthetic year (302000) lies beyond the last
    representable date, so its timestamp is NaN; the guard [time <=
    lastTime] is false on NaN, the point is emitted with it, and the next
    timestamp (1 January 2018) is emitted below the first (1 January
    2019): the emitted times are not strictly increasing. *)
Theorem buildAreaData_not_increasing_on_overflow :
  map time (buildAreaData Samples.overflowPhases None)
    = [Finite 1546300800; NaN; Finite 1514764800]
  /\ strictly_increasing
       (map time (buildAreaData Samples.overflowPhases None)) = false.
Proof. split; vm_compute; reflexivity. Qed.

(** ** Number of points *)

Lemma pushPoint_length t v ph lbl st :
  List.length (points (pushPoint t v ph lbl st))
  = S (List.length (points st)).
Proof. cbn. rewrite length_app. cbn. lia. Qed.

Lemma last_phase_snoc pre ph : last_phase (pre ++ [ph]) = Some ph.
Proof. unfold last_phase. now rewrite rev_unit. Qed.

Lemma nth_error_last_phase pre rest i :
  List.length pre = S i ->
  nth_error (pre ++ rest) i = last_phase pre.
Proof.
  intros Hlen. destruct (exists_last (l := pre)) as (pre0 & x & ->).
  { intros ->. discriminate. }
  rewrite last_phase_snoc. rewrite length_app in Hlen. cbn in Hlen.
  rewrite <- app_assoc. cbn.
  rewrite nth_error_app2 by lia.
  replace (i - List.length pre0)%nat with 0%nat by lia. reflexivity.
Qed.

Lemma forEach_length rest :
  forall pre st,
    List.length
      (points (forEach_from (phaseStep (pre ++ rest)) rest
                            (List.length pre) st))
    = (List.length (points st) + List.length rest
       + startPoints (last_phase pre) rest)%nat.
Proof.
  induction rest as [|ph rest IH]; intros pre st.
  - cbn. lia.
  - cbn [forEach_from].
    replace (pre ++ ph :: rest) with ((pre ++ [ph]) ++ rest)
      by (now rewrite <- app_assoc).
    replace (S (List.length pre)) with (List.length (pre ++ [ph]))
      by (rewrite length_app; cbn; lia).
    rewrite IH. rewrite last_phase_snoc.
    cbn [startPoints List.length].
    unfold phaseStep at 1. rewrite pushPoint_length.
    destruct pre as [|p0 pre'] eqn:E.
    + cbn [List.length last_phase rev]. rewrite pushPoint_length. lia.
    + rewrite <- E.
      assert (Hlen : List.length pre = S (List.length pre'))
        by (subst pre; reflexivity).
      rewrite Hlen.
      rewrite <- app_assoc. cbn [app].
      rewrite (nth_error_last_phase pre (ph :: rest) _ Hlen).
      destruct (last_phase pre) as [prev|] eqn:L.
      * destruct (shouldBridge prev ph);
          [rewrite pushPoint_length|]; lia.
      * exfalso. subst pre. unfold last_phase in L. cbn in L.
        destruct (rev pre' ++ [p0]) eqn:R; [|discriminate].
        now apply app_eq_nil in R as [_ R].
Qed.

Lemma startPoints_first ph rest :
  startPoints None (ph :: rest) = S (discontinuities (ph :: rest)).
Proof.
  cbn [startPoints]. cbn [Nat.add]. f_equal.
  revert ph. induction rest as [|b rest IH]; intros ph.
  - reflexivity.
  - cbn [startPoints discontinuities]. now rewrite IH.
Qed.

(** The builder emits one start point for the first phase, one bridge for
    every broken join, and one end point for every phase. *)
Lemma buildAreaData_length phases labelMap :
  phases <> [] ->
  List.length (buildAreaData phases labelMap)
  = (1 + discontinuities phases + List.length phases)%nat.
Proof.
  intros Hne. destruct phases as [|ph rest]; [congruence|].
  unfold buildAreaData, buildAreaData_state.
  rewrite (forEach_length (ph :: rest) []).
  cbn [points List.length last_phase rev].
  rewrite startPoints_first. cbn [List.length]. lia.
Qed.

(** C8, as stated, fails: six phases with exactly one broken join yield
    eight points, not seven. *)
Lemma six_phases_one_bridge_not_seven :
  List.length Samples.sixPhases = 6%nat
  /\ discontinuities Samples.sixPhases = 1%nat
  /\ List.length (buildAreaData Samples.sixPhases None) <> 7%nat
  /\ List.length (buildAreaData Samples.sixPhases None) = 8%nat.
Proof. vm_compute. repeat split; congruence. Qed.

(** C8, amended.  For six phases of which exactly one consecutive pair is
    discontinuous, [buildAreaData] emits exactly eight points: the start
    point of the first phase, one bridge start point and six end
    points. *)
Theorem six_phases_one_bridge_eight_points phases labelMap :
  List.length phases = 6%nat ->
  discontinuities phases = 1%nat ->
  List.length (buildAreaData phases labelMap) = 8%nat.
Proof.
  intros Hlen Hdisc.
  rewrite buildAreaData_length by (intros ->; discriminate).
  rewrite Hlen, Hdisc. reflexivity.
Qed.

Lemma six_phases_one_bridge_eight_points_witness :
  List.length (buildAreaData Samples.sixPhases None) = 8%nat.
Proof.
  apply (six_phases_one_bridge_eight_points Samples.sixPhases None);
    reflexivity.
Defined.

(** ** Clamping and ranges by axis kind *)

Lemma clampScore_in_range v : in_range (clampScore v).
Proof.
  unfold in_range, clampScore. split.
  - apply Q.min_glb; [apply Q.le_max_r|discriminate].
  - apply Q.le_min_r.
Qed.

Lemma clampPhase_bounded p : bounded (clampPhase p).
Proof. repeat split; apply clampScore_in_range. Qed.

Lemma normalizePhases_clamping phases :
  normalizePhases (Some phases) true = map clampPhase phases.
Proof. destruct phases; reflexivity. Qed.

Lemma normalizePhases_passthrough phases :
  normalizePhases (Some phases) false = phases.
Proof.
  destruct phases as [|p t]; [reflexivity|].
  cbn [normalizePhases negb]. apply map_id.
Qed.

(** What [buildAreaData] does on its own, whatever the axis: the value of
    every point it emits is a clamped open or close. *)
Lemma pushPoint_values (P : Q -> Prop) t v ph lbl st :
  P v -> Forall P (map value (points st)) ->
  Forall P (map value (points (pushPoint t v ph lbl st))).
Proof.
  intros Hv Hst. cbn. rewrite map_app. apply Forall_app. split; [exact Hst|].
  constructor; [exact Hv|constructor].
Qed.

Lemma forEach_values_in_range phases l :
  forall index st,
    Forall in_range (map value (points st)) ->
    Forall in_range
      (map value (points (forEach_from (phaseStep phases) l index st))).
Proof.
  induction l as [|ph l IH]; intros index st Hst; cbn.
  - exact Hst.
  - apply IH. unfold phaseStep.
    apply pushPoint_values; [apply clampScore_in_range|].
    destruct index as [|i].
    + apply pushPoint_values; [apply clampScore_in_range|exact Hst].
    + destruct (nth_error phases i) as [prev|]; [|exact Hst].
      destruct (shouldBridge prev ph); [|exact Hst].
      apply pushPoint_values; [apply clampScore_in_range|exact Hst].
Qed.

Lemma buildAreaData_values_in_range phases labelMap :
  Forall in_range (map value (buildAreaData phases labelMap)).
Proof.
  unfold buildAreaData. destruct phases as [|ph0 rest0] eqn:E; [constructor|].
  rewrite <- E. apply forEach_values_in_range. constructor.
Qed.

(** What [normalizePhases] does by axis kind: under a subjective axis
    all four values of every phase are clamped into [0,100]; under an
    objective axis the phases are handed on as received. *)
Lemma displayPhases_by_axis_kind phases axis :
  (kind_of axis = Some Subjective ->
     displayPhases phases axis = map clampPhase phases
     /\ Forall bounded (displayPhases phases axis))
  /\ (kind_of axis = Some Objective -> displayPhases phases axis = phases).
Proof.
  unfold displayPhases, shouldClamp. split.
  - intros ->. rewrite normalizePhases_clamping. split; [reflexivity|].
    apply Forall_forall. intros p Hp.
    apply in_map_iff in Hp as (q & <- & _). apply clampPhase_bounded.
  - intros ->. apply normalizePhases_passthrough.
Qed.

(** C3, at the failing input.  Under a subjective axis the values are
    clamped before the points are built, as the claim says: a phase
    with open 150 and low -20 is displayed with open 100 and low 0.
    Under an objective axis the phases do reach the point builder
    unclamped, but they do not pass through it unclamped: the builder
    clamps [open] and [close] on its own, whatever the axis.  The phase
    that opens at 150 and closes at 40 is handed to the builder as it
    is and gives the points 100 and 40; for every series and every
    axis the values of the points lie in [0,100]. *)
Theorem objective_values_clamped_in_points :
  (map open (displayPhases [Samples.wildPhase]
                           (Some (Samples.axisOfKind (Some Subjective))))
   = [100%Q]
   /\ map low (displayPhases [Samples.wildPhase]
                             (Some (Samples.axisOfKind (Some Subjective))))
      = [0%Q])
  /\ displayPhases [Samples.wildPhase]
                   (Some (Samples.axisOfKind (Some Objective)))
     = [Samples.wildPhase]
  /\ map open [Samples.wildPhase] = [150%Q]
  /\ map value
         (chartData [Samples.wildPhase]
                    (Some (Samples.axisOfKind (Some Objective))) None)
     = [100%Q; 40%Q]
  /\ (forall phases axis labelMap,
        kind_of axis = Some Objective ->
        displayPhases phases axis = phases
        /\ Forall in_range (map value (chartData phases axis labelMap))).
Proof.
  split; [split; reflexivity|]. split; [reflexivity|].
  split; [reflexivity|]. split; [reflexivity|].
  intros phases axis labelMap Hk.
  split; [now apply displayPhases_by_axis_kind|].
  apply buildAreaData_values_in_range.
Qed.

(** The fixed range is the branch of a subjective axis, and of no other
    axis. *)
Lemma computePhaseRange_by_kind phases axis :
  phases <> [] ->
  computePhaseRange phases axis
  = match kind_of axis with
    | Some Subjective => Some {| min := Fin 0; max := Fin 100 |}
    | _ => paddedRange (map Fin (valuesOf phases))
    end.
Proof.
  intros Hne.
  assert (Hv : forall l,
             flat_map (fun phase => [Fin (open phase); Fin (close phase);
                                     Fin (low phase); Fin (high phase)]) l
             = map Fin (valuesOf l)).
  { induction l as [|p t IH]; [reflexivity|].
    cbn [flat_map valuesOf map app]. now rewrite IH. }
  rewrite <- Hv. destruct phases; [congruence|reflexivity].
Qed.

(** ** The padded range *)

Lemma Qmin_cases (x y : Q) :
  (Qmin x y = x /\ (x <= y)%Q) \/ (Qmin x y = y /\ (y <= x)%Q).
Proof.
  unfold Qmin, GenericMinMax.gmin.
  destruct (x ?= y)%Q eqn:E.
  - left. split; [reflexivity|]. apply Qeq_alt in E. rewrite E. apply Qle_refl.
  - left. split; [reflexivity|]. apply Qlt_alt in E. now apply Qlt_le_weak.
  - right. split; [reflexivity|]. apply Qgt_alt in E. now apply Qlt_le_weak.
Qed.

Lemma Qmax_cases (x y : Q) :
  (Qmax x y = x /\ (y <= x)%Q) \/ (Qmax x y = y /\ (x <= y)%Q).
Proof.
  unfold Qmax, GenericMinMax.gmax.
  destruct (x ?= y)%Q eqn:E.
  - left. split; [reflexivity|]. apply Qeq_alt in E. rewrite E. apply Qle_refl.
  - right. split; [reflexivity|]. apply Qlt_alt in E. now apply Qlt_le_weak.
  - left. split; [reflexivity|]. apply Qgt_alt in E. now apply Qlt_le_weak.
Qed.

Lemma Math_min_least values :
  values <> [] ->
  exists m, Math_min (map Fin values) = Fin m /\ least m values.
Proof.
  induction values as [|v t IH]; [congruence|]. intros _.
  destruct t as [|w t'].
  - exists v. split; [reflexivity|]. split; [now left|].
    constructor; [apply Qle_refl|constructor].
  - destruct IH as (m & Hm & Hin & Hall); [congruence|].
    change (Math_min (map Fin (v :: w :: t')))
      with (smaller (Fin v) (Math_min (map Fin (w :: t')))).
    rewrite Hm. exists (Qmin v m). split; [reflexivity|].
    destruct (Qmin_cases v m) as [[-> Hle]|[-> Hle]].
    + split; [now left|]. constructor; [apply Qle_refl|].
      eapply Forall_impl; [|exact Hall]. intros a Ha.
      exact (Qle_trans _ _ _ Hle Ha).
    + split; [now right|]. constructor; assumption.
Qed.

Lemma Math_max_greatest values :
  values <> [] ->
  exists m, Math_max (map Fin values) = Fin m /\ greatest m values.
Proof.
  induction values as [|v t IH]; [congruence|]. intros _.
  destruct t as [|w t'].
  - exists v. split; [reflexivity|]. split; [now left|].
    constructor; [apply Qle_refl|constructor].
  - destruct IH as (m & Hm & Hin & Hall); [congruence|].
    change (Math_max (map Fin (v :: w :: t')))
      with (larger (Fin v) (Math_max (map Fin (w :: t')))).
    rewrite Hm. exists (Qmax v m). split; [reflexivity|].
    destruct (Qmax_cases v m) as [[-> Hle]|[-> Hle]].
    + split; [now left|]. constructor; [apply Qle_refl|].
      eapply Forall_impl; [|exact Hall]. intros a Ha.
      exact (Qle_trans _ _ _ Ha Hle).
    + split; [now right|]. constructor; assumption.
Qed.

Lemma valuesOf_nonempty phases : phases <> [] -> valuesOf phases <> [].
Proof. destruct phases; [congruence|discriminate]. Qed.

(** The range of finite values, written out. *)
Lemma paddedRange_spec values :
  values <> [] ->
  exists mn mx,
    least mn values /\ greatest mx values
    /\ paddedRange (map Fin values)
       = Some (if Qeq_bool mn mx
               then {| min := Number_sub (Fin mn)
                        (or_one (Number_mul (Fin (Qabs mn)) (fl (5 # 100))));
                       max := Number_add (Fin mx)
                        (or_one (Number_mul (Fin (Qabs mn)) (fl (5 # 100))))
                    |}
               else {| min := Number_sub (Fin mn)
                        (or_one (Number_mul (Number_sub (Fin mx) (Fin mn))
                                            (fl (8 # 100))));
                       max := Number_add (Fin mx)
                        (or_one (Number_mul (Number_sub (Fin mx) (Fin mn))
                                            (fl (8 # 100)))) |}).
Proof.
  intros Hne.
  destruct (Math_min_least _ Hne) as (mn & Hmn & Hleast).
  destruct (Math_max_greatest _ Hne) as (mx & Hmx & Hgreatest).
  exists mn, mx. split; [assumption|]. split; [assumption|].
  unfold paddedRange. rewrite Hmn, Hmx.
  cbn [Number_isFinite negb orb Number_eqb Math_abs].
  destruct (Qeq_bool mn mx); reflexivity.
Qed.

(** C10.  An axis whose kind is absent has its phase values clamped into
    [0,100], as a subjective axis has, and its range computed from the
    data, as an objective axis has: for a series that is not empty the
    range runs from the least displayed value less the padding to the
    greatest displayed value plus the padding, where the padding is 8%
    of the span ([0.08] times the difference, or 1 if that is zero)
    and, when the least and the greatest value are equal, 5% of the
    magnitude (or 1).  The fixed range from 0 to 100 is the range of a
    subjective axis; every other axis has the range an axis without a
    kind has. *)
Theorem absent_kind_clamped_but_ranged_from_data phases axis :
  kind_of axis = None ->
  shouldClamp axis = true
  /\ displayPhases phases axis = map clampPhase phases
  /\ Forall bounded (displayPhases phases axis)
  /\ (forall subjective, kind_of subjective = Some Subjective ->
        displayPhases phases axis = displayPhases phases subjective)
  /\ (forall ps objective, kind_of objective = Some Objective ->
        computePhaseRange ps axis = computePhaseRange ps objective)
  /\ (phases = [] -> primaryRange phases axis = None)
  /\ (phases <> [] ->
      exists mn mx,
        least mn (valuesOf (displayPhases phases axis))
        /\ greatest mx (valuesOf (displayPhases phases axis))
        /\ primaryRange phases axis
           = Some
               (if Qeq_bool mn mx
                then
                  {| min := Number_sub (Fin mn)
                              (or_one (Number_mul (Fin (Qabs mn))
                                                  (fl (5 # 100))));
                     max := Number_add (Fin mx)
                              (or_one (Number_mul (Fin (Qabs mn))
                                                  (fl (5 # 100)))) |}
                else
                  {| min := Number_sub (Fin mn)
                              (or_one (Number_mul
                                         (Number_sub (Fin mx) (Fin mn))
                                         (fl (8 # 100))));
                     max := Number_add (Fin mx)
                              (or_one (Number_mul
                                         (Number_sub (Fin mx) (Fin mn))
                                         (fl (8 # 100)))) |}))
  /\ (forall ps a, ps <> [] ->
        (kind_of a = Some Subjective ->
         computePhaseRange ps a = Some {| min := Fin 0; max := Fin 100 |})
        /\ (kind_of a <> Some Subjective ->
            computePhaseRange ps a = computePhaseRange ps axis)).
Proof.
  intros Hk.
  assert (Hd : displayPhases phases axis = map clampPhase phases).
  { unfold displayPhases, shouldClamp. rewrite Hk.
    apply normalizePhases_clamping. }
  split; [unfold shouldClamp; now rewrite Hk|].
  split; [exact Hd|].
  split.
  { rewrite Hd. apply Forall_forall. intros p Hp.
    apply in_map_iff in Hp as (q & <- & _). apply clampPhase_bounded. }
  split.
  { intros s Hs. rewrite Hd. unfold displayPhases, shouldClamp.
    rewrite Hs. symmetry. apply normalizePhases_clamping. }
  split.
  { intros ps o Ho. destruct ps; [reflexivity|].
    cbn [computePhaseRange]. now rewrite Hk, Ho. }
  split.
  { intros ->. reflexivity. }
  split.
  { intros Hne.
    assert (Hne' : displayPhases phases axis <> []).
    { rewrite Hd. destruct phases; [congruence|discriminate]. }
    unfold primaryRange. rewrite computePhaseRange_by_kind by exact Hne'.
    rewrite Hk. apply paddedRange_spec.
    now apply valuesOf_nonempty. }
  intros ps a Hne. rewrite !computePhaseRange_by_kind by exact Hne.
  rewrite Hk. split; [now intros ->|].
  intros Hns. destruct (kind_of a) as [[|]|]; congruence.
Qed.

(** The phase (150, 180, -20, 40): with no kind it is displayed as
    (100, 100, 0, 40) and its range is -8 to 108; with an objective
    axis the range is -36 to 196, with a subjective axis 0 to 100. *)
Lemma absent_kind_clamped_but_ranged_from_data_witness :
  map open (displayPhases [Samples.wildPhase]
                          (Some (Samples.axisOfKind None))) = [100%Q]
  /\ map low (displayPhases [Samples.wildPhase]
                            (Some (Samples.axisOfKind None))) = [0%Q]
  /\ primaryRange [Samples.wildPhase] (Some (Samples.axisOfKind None))
     = Some {| min := Fin (-8); max := Fin 108 |}
  /\ primaryRange [Samples.wildPhase]
                  (Some (Samples.axisOfKind (Some Objective)))
     = Some {| min := Fin (-36); max := Fin 196 |}
  /\ primaryRange [Samples.wildPhase]
                  (Some (Samples.axisOfKind (Some Subjective)))
     = Some {| min := Fin 0; max := Fin 100 |}.
Proof.
  destruct (absent_kind_clamped_but_ranged_from_data [Samples.wildPhase]
              (Some (Samples.axisOfKind None)) eq_refl)
    as (_ & Hd & _ & _ & _ & _ & _ & Hs).
  rewrite Hd. split; [reflexivity|]. split; [reflexivity|].
  split; [vm_compute; reflexivity|]. split; [vm_compute; reflexivity|].
  exact (proj1 (Hs (map clampPhase [Samples.wildPhase])
                   (Some (Samples.axisOfKind (Some Subjective)))
                   ltac:(discriminate))
               eq_refl).
Defined.

(** ** Ordinal labels and real years *)

Lemma search_some (A : Type) (m : jsstring -> option A) s r :
  search m s = Some r -> exists t, m t = Some r.
Proof.
  induction s as [|c s IH]; cbn; intros H.
  - destruct (m []) eqn:E; [|discriminate]. exists []. congruence.
  - destruct (m (c :: s)) eqn:E.
    + exists (c :: s). congruence.
    + now apply IH.
Qed.

Lemma is_digit_bounds c :
  is_digit c = true -> 0 <= digit_val c <= 9.
Proof.
  unfold is_digit, digit_val. intros H.
  apply andb_true_iff in H as [H1 H2].
  apply N.leb_le in H1. apply N.leb_le in H2. lia.
Qed.

Lemma four_digit_year a b c d :
  is_century a b && is_digit c && is_digit d = true ->
  1900 <= number_of_digits [a; b; c; d] <= 2099.
Proof.
  intros H. apply andb_true_iff in H as [H Hd].
  apply andb_true_iff in H as [Hab Hc].
  apply is_digit_bounds in Hc. apply is_digit_bounds in Hd.
  unfold number_of_digits. cbn [fold_left].
  unfold is_century in Hab. apply orb_true_iff in Hab as [Hab|Hab];
    apply andb_true_iff in Hab as [Ha Hb];
    apply N.eqb_eq in Ha; apply N.eqb_eq in Hb; subst a b;
    unfold digit_val in *; lia.
Qed.

Lemma year_at_range s y : year_at s = Some y -> 1900 <= y <= 2099.
Proof.
  unfold year_at. destruct s as [|a [|b [|c [|d rest]]]]; try discriminate.
  destruct (is_century a b && is_digit c && is_digit d) eqn:E;
    [|discriminate].
  intros [= <-]. now apply four_digit_year.
Qed.

Lemma quarter_at_range s y q :
  quarter_at s = Some (y, q) -> 1900 <= y <= 2099 /\ 1 <= q <= 4.
Proof.
  unfold quarter_at.
  destruct s as [|a [|b [|c [|d rest]]]]; try discriminate.
  destruct (is_century a b && is_digit c && is_digit d) eqn:E;
    [|discriminate].
  destruct (dropWhile is_ws rest) as [|k [|n r]]; try discriminate.
  destruct (((k =? 81) || (k =? 113))%N && ((49 <=? n) && (n <=? 52))%N)
    eqn:F; [|discriminate].
  intros [= <- <-]. split; [now apply four_digit_year|].
  apply andb_true_iff in F as [_ F]. apply andb_true_iff in F as [F1 F2].
  apply N.leb_le in F1. apply N.leb_le in F2. unfold digit_val. lia.
Qed.

Lemma realYearOf_range s y m :
  realYearOf s = Some (y, m) ->
  1900 <= y <= 2099 /\ (m = 0 \/ m = 3 \/ m = 6 \/ m = 9).
Proof.
  unfold realYearOf.
  destruct (search quarter_at (trim s)) as [[y' q]|] eqn:Q.
  - intros [= <- <-]. apply search_some in Q as [t Q].
    apply quarter_at_range in Q as [Hy Hq]. split; [exact Hy|lia].
  - destruct (search year_at (trim s)) as [y'|] eqn:Y; [|discriminate].
    intros [= <- <-]. apply search_some in Y as [t Y].
    apply year_at_range in Y. split; [exact Y|now left].
Qed.

Lemma realYearOf_timestamp s y m i :
  realYearOf s = Some (y, m) ->
  yearToTimestamp (LStr s) i = seconds (Date_UTC y m).
Proof.
  unfold realYearOf, yearToTimestamp.
  destruct (search quarter_at (trim s)) as [[y' q]|].
  - now intros [= <- <-].
  - destruct (search year_at (trim s)); [|discriminate].
    now intros [= <- <-].
Qed.

Lemma ordinalOf_timestamp s n i :
  ordinalOf s = Some n ->
  yearToTimestamp (LStr s) i = seconds (Date_UTC (2000 + n) 0).
Proof.
  unfold ordinalOf, realYearOf, yearToTimestamp.
  destruct (search quarter_at (trim s)) as [[y' q]|]; [discriminate|].
  destruct (search year_at (trim s)); [discriminate|].
  now intros ->.
Qed.

Lemma fold_digits_nonneg ds :
  Forall (fun c => is_digit c = true) ds ->
  forall acc, 0 <= acc ->
    0 <= fold_left (fun acc c => 10 * acc + digit_val c) ds acc.
Proof.
  induction 1 as [|c ds Hc _ IH]; intros acc Hacc; cbn [fold_left].
  - exact Hacc.
  - apply IH. apply is_digit_bounds in Hc. lia.
Qed.

Lemma takeWhile_all p s : Forall (fun c => p c = true) (takeWhile p s).
Proof.
  induction s as [|c s IH]; cbn; [constructor|].
  destruct (p c) eqn:E; constructor; assumption.
Qed.

Lemma cnOrdinal_at_nonneg s n : cnOrdinal_at s = Some n -> 0 <= n.
Proof.
  unfold cnOrdinal_at.
  set (s2 := dropWhile is_ws _).
  pose proof (takeWhile_all is_digit s2) as Hall.
  destruct (takeWhile is_digit s2) as [|d ds]; [discriminate|].
  destruct (existsb _ cnSuffixes); [|discriminate].
  intros [= <-]. now apply fold_digits_nonneg.
Qed.

Lemma ordinalOf_nonneg s n : ordinalOf s = Some n -> 0 <= n.
Proof.
  unfold ordinalOf. destruct (realYearOf s); [discriminate|].
  intros H. apply search_some in H as [t H].
  now apply cnOrdinal_at_nonneg in H.
Qed.

Lemma DayFromYear_monotone y y' :
  y <= y' -> DayFromYear y <= DayFromYear y'.
Proof.
  intros H. unfold DayFromYear. Z.div_mod_to_equations. lia.
Qed.

(** A label of the year rules resolves to a date before 2100. *)
Lemma real_year_before_2100 y m :
  1900 <= y <= 2099 -> (m = 0 \/ m = 3 \/ m = 6 \/ m = 9) ->
  exists v, seconds (Date_UTC y m) = Finite v /\ v < year2100.
Proof.
  intros Hy Hm. unfold Date_UTC.
  replace ((0 <=? y) && (y <=? 99)) with false
    by (symmetry; apply andb_false_iff; right; apply Z.leb_gt; lia).
  assert (Hday : -25567 <= MakeDay y m 1 <= 47481).
  { unfold MakeDay.
    assert (Hd : m / 12 = 0 /\ m mod 12 = m)
      by (destruct Hm as [-> | [-> | [-> | ->]]]; now vm_compute).
    destruct Hd as [-> ->]. rewrite Z.add_0_r.
    pose proof (DayFromYear_monotone 1900 y ltac:(lia)) as Hlo.
    pose proof (DayFromYear_monotone y 2099 ltac:(lia)) as Hhi.
    change (DayFromYear 1900) with (-25567) in Hlo.
    change (DayFromYear 2099) with 47117 in Hhi.
    assert (0 <= DayWithinYear (InLeapYear y) m <= 274)
      by (destruct Hm as [-> | [-> | [-> | ->]]];
          destruct (InLeapYear y); cbn; lia).
    lia. }
  unfold TimeClip, msPerDay. rewrite Z.gtb_ltb.
  destruct (Z.ltb_spec 8640000000000000 (Z.abs (MakeDay y m 1 * 86400000)));
    [lia|].
  exists (MakeDay y m 1 * 86400). split.
  - cbn [seconds ts_div]. f_equal. Z.div_mod_to_equations. lia.
  - unfold year2100. lia.
Qed.

(** A year from 2100 on resolves to a date from 2100 on, or to none. *)
Lemma from_2100_on y :
  2100 <= y ->
  seconds (Date_UTC y 0) = NaN
  \/ exists w, seconds (Date_UTC y 0) = Finite w /\ year2100 <= w.
Proof.
  intros Hy. unfold Date_UTC.
  replace ((0 <=? y) && (y <=? 99)) with false
    by (symmetry; apply andb_false_iff; right; apply Z.leb_gt; lia).
  unfold TimeClip.
  destruct (Z.abs (MakeDay y 0 1 * msPerDay) >? 8640000000000000);
    [now left|right].
  exists (MakeDay y 0 1 * 86400). split.
  - cbn [seconds ts_div]. f_equal. unfold msPerDay.
    Z.div_mod_to_equations. lia.
  - unfold MakeDay. change (0 / 12) with 0. change (0 mod 12) with 0.
    replace (y + 0) with y by lia.
    pose proof (DayFromYear_monotone 2100 y Hy) as Hlo.
    change (DayFromYear 2100) with 47482 in Hlo.
    assert (DayWithinYear (InLeapYear y) 0 = 0) by now destruct (InLeapYear y).
    unfold year2100. lia.
Qed.

(** The real-year labels from 2000 to 2099, checked one by one. *)
Lemma real_year_labels_2000_2099 n :
  0 <= n <= 99 -> realYearOf (of_Z (2000 + n)) = Some (2000 + n, 0).
Proof.
  intros Hn.
  assert (Hall : forallb
            (fun k => match realYearOf (of_Z (2000 + Z.of_nat k)) with
                      | Some (y, m) =>
                          (y =? 2000 + Z.of_nat k) && (m =? 0)
                      | None => false
                      end)
            (seq 0 100) = true) by (vm_compute; reflexivity).
  rewrite forallb_forall in Hall.
  specialize (Hall (Z.to_nat n)).
  rewrite Z2Nat.id in Hall by lia.
  assert (Hin : In (Z.to_nat n) (seq 0 100)) by (apply in_seq; lia).
  specialize (Hall Hin).
  destruct (realYearOf (of_Z (2000 + n))) as [[y m]|]; [|discriminate].
  apply andb_true_iff in Hall as [Hy Hm].
  apply Z.eqb_eq in Hy. apply Z.eqb_eq in Hm. now subst.
Qed.

(** C4, as stated, fails: the fifth season and the year 2005 resolve to
    the same timestamp. *)
Lemma ordinal_collides_with_real_year :
  ordinalOf (js "第5季") = Some 5
  /\ realYearOf (js "2005") = Some (2005, 0)
  /\ yearToTimestamp (LStr (js "第5季")) 0
     = yearToTimestamp (LStr (js "2005")) 0.
Proof. vm_compute. repeat split; reflexivity. Qed.

(** C4, amended.  A label handled by the localized ordinal rule with
    ordinal N resolves to 1 January of the year 2000 + N, the timestamp
    of the numeric year 2000 + N.  For N up to 99 this is the timestamp
    of the four-digit-year label 2000 + N; from N = 100 on it differs
    from the timestamp of every string label handled by the year+quarter
    rule or by the plain or embedded year rule. *)
Theorem ordinal_label_timestamp s n i :
  ordinalOf s = Some n ->
  yearToTimestamp (LStr s) i = seconds (Date_UTC (2000 + n) 0)
  /\ yearToTimestamp (LStr s) i = yearToTimestamp (LNum (2000 + n)) i
  /\ (n <= 99 ->
        forall j, yearToTimestamp (LStr (of_Z (2000 + n))) j
                  = yearToTimestamp (LStr s) i)
  /\ (100 <= n ->
        forall s' year month j,
          realYearOf s' = Some (year, month) ->
          yearToTimestamp (LStr s') j <> yearToTimestamp (LStr s) i).
Proof.
  intros Ho. pose proof (ordinalOf_nonneg s n Ho) as Hn.
  pose proof (ordinalOf_timestamp s n i Ho) as Ht.
  split; [exact Ht|]. split; [exact Ht|]. split.
  - intros Hle j. rewrite Ht.
    apply realYearOf_timestamp. apply real_year_labels_2000_2099. lia.
  - intros Hge s' y m j Hr. rewrite Ht.
    rewrite (realYearOf_timestamp s' y m j Hr).
    apply realYearOf_range in Hr as [Hy Hm].
    destruct (real_year_before_2100 y m Hy Hm) as (v & -> & Hv).
    destruct (from_2100_on (2000 + n) ltac:(lia)) as [-> | (w & -> & Hw)].
    + discriminate.
    + intros [= E]. lia.
Qed.

Lemma ordinal_label_timestamp_witness :
  yearToTimestamp (LStr (js "第120季")) 0 = seconds (Date_UTC 2120 0)
  /\ yearToTimestamp (LStr (js "2020Q3")) 0
     <> yearToTimestamp (LStr (js "第120季")) 0.
Proof.
  destruct (ordinal_label_timestamp (js "第120季") 120 0 eq_refl)
    as (H1 & _ & _ & H4).
  split; [exact H1|].
  apply (H4 ltac:(lia) (js "2020Q3") 2020 6 0). reflexivity.
Defined.

(** ** Labels that resolve *)

Lemma real_year_resolvable ph s e :
  start_year ph = LStr s -> end_year ph = LStr e ->
  realYearOf s <> None -> realYearOf e <> None ->
  resolvable ph.
Proof.
  intros Hs He Rs Re i. rewrite Hs, He.
  destruct (realYearOf s) as [[ys ms]|] eqn:Es; [|congruence].
  destruct (realYearOf e) as [[ye me]|] eqn:Ee; [|congruence].
  rewrite (realYearOf_timestamp s ys ms i Es).
  rewrite (realYearOf_timestamp e ye me i Ee).
  apply realYearOf_range in Es as [Hys Hms].
  apply realYearOf_range in Ee as [Hye Hme].
  destruct (real_year_before_2100 ys ms Hys Hms) as (v & -> & _).
  destruct (real_year_before_2100 ye me Hye Hme) as (w & -> & _).
  now split.
Qed.

Lemma sixPhases_resolvable : Forall resolvable Samples.sixPhases.
Proof.
  repeat constructor;
    (eapply real_year_resolvable;
     [reflexivity|reflexivity|vm_compute; discriminate
     |vm_compute; discriminate]).
Qed.

Lemma sixPhases_increasing :
  strictly_increasing (map time (buildAreaData Samples.sixPhases None))
  = true.
Proof.
  apply buildAreaData_increasing_when_resolvable.
  exact sixPhases_resolvable.
Qed.

End ChartProofs.

Module RouteProofs.

Import Route RouteSpec.

(** ** Ingestion: what the loops leave in the state *)

Set Implicit Arguments.

Section Loop.

Variable A : Type.
Variable f : nat -> A -> outcome jsstring.
Variable mk : A -> jsstring -> ReferenceEntry.
Variable fallback : A -> jsstring.

Lemma forEach_step l :
  forall index st,
    forEach_from (step f mk fallback) l index st
    = {| st_references := st_references st ++ loopEntries f mk l index;
         partialErrors := partialErrors st ++ loopErrors f fallback l index;
         hadInput := hadInput st || nonempty l |}.
Proof.
  induction l as [|x l IH]; intros index st.
  - cbn. rewrite !app_nil_r, orb_false_r. now destruct st.
  - cbn [forEach_from]. rewrite IH. unfold step.
    cbn [loopEntries loopErrors nonempty].
    destruct (f index x) as [t|e]; cbn.
    + rewrite <- app_assoc. cbn. f_equal. symmetry. apply orb_true_r.
    + rewrite <- app_assoc. f_equal;
        [now destruct e|symmetry; apply orb_true_r].
Qed.

Lemma loopEntries_length l :
  forall index,
    List.length (loopEntries f mk l index) = succeeded (outcomes_from f l index).
Proof.
  unfold succeeded.
  induction l as [|x l IH]; intros index; cbn; [reflexivity|].
  rewrite length_app, IH. now destruct (f index x).
Qed.

Lemma loopErrors_length l :
  forall index,
    List.length (loopErrors f fallback l index) = failed (outcomes_from f l index).
Proof.
  unfold failed.
  induction l as [|x l IH]; intros index; cbn; [reflexivity|].
  rewrite length_app, IH. destruct (f index x) as [t|[m|m|]]; reflexivity.
Qed.

Lemma loopErrors_thrown l :
  (forall i x e, f i x = Throw e ->
     exists message, e = ReferenceIngestionError message) ->
  forall index,
    loopErrors f fallback l index = thrownMessages (outcomes_from f l index).
Proof.
  intros Hf. unfold thrownMessages.
  induction l as [|x l IH]; intros index; cbn; [reflexivity|].
  rewrite IH. destruct (f index x) as [t|e] eqn:E; [reflexivity|].
  destruct (Hf index x e E) as [message ->]. reflexivity.
Qed.

Lemma loopEntries_content (P : jsstring -> Prop) l :
  (forall i x t, f i x = Return t ->
     P (entry_content (limited (mk x t)))) ->
  forall index, Forall (fun e => P (entry_content e)) (loopEntries f mk l index).
Proof.
  intros Hf. induction l as [|x l IH]; intros index; cbn; [constructor|].
  apply Forall_app. split; [|apply IH].
  destruct (f index x) as [t|e] eqn:E; constructor;
    [now apply (Hf index)|constructor].
Qed.

End Loop.

Unset Implicit Arguments.

Section Ingestion.

Context {C : Collaborators}.

Lemma ingestText_state supplementalText :
  ingestText supplementalText
    {| st_references := []; partialErrors := []; hadInput := false |}
  = {| st_references :=
         map (fun t => limited (mkText t)) (textBlockOf supplementalText);
       partialErrors := [];
       hadInput := nonempty (textBlockOf supplementalText) |}.
Proof.
  unfold ingestText, textBlockOf.
  destruct (option_map trim supplementalText) as [tb|]; [|reflexivity].
  destruct (Js.truthy tb); reflexivity.
Qed.

Lemma ingestState_eq supplementalText links documents :
  ingestState supplementalText links documents
  = {| st_references :=
         map (fun t => limited (mkText t)) (textBlockOf supplementalText)
         ++ loopEntries extractTextFromDocument mkFile documents 0
         ++ loopEntries fetchLinkContent mkUrl links 0;
       partialErrors :=
         loopErrors extractTextFromDocument docFallback documents 0
         ++ loopErrors fetchLinkContent linkFallback links 0;
       hadInput :=
         nonempty (textBlockOf supplementalText)
         || nonempty documents || nonempty links |}.
Proof.
  unfold ingestState. rewrite ingestText_state.
  change ingestDocument
    with (step extractTextFromDocument mkFile docFallback).
  change ingestLink with (step fetchLinkContent mkUrl linkFallback).
  rewrite !forEach_step. cbn [st_references partialErrors hadInput].
  now rewrite <- app_assoc.
Qed.

(** ** Non-empty content *)

Lemma ellipsis_not_empty : js "…" <> [].
Proof. vm_compute. discriminate. Qed.

Lemma truncateText_nonempty value limit :
  value <> [] -> truncateText value limit <> [].
Proof.
  intros Hv. unfold truncateText.
  destruct value as [|c t]; [congruence|]. cbn [Js.truthy negb].
  destruct (Js.length (c :: t) >? limit); [|discriminate].
  intros H. apply app_eq_nil in H as [_ H]. now apply ellipsis_not_empty.
Qed.

Lemma length_zero_empty (s : jsstring) :
  (Js.length s =? 0) = false -> s <> [].
Proof. intros H ->. discriminate. Qed.

Lemma extractTextFromDocument_returns index doc t :
  extractTextFromDocument index doc = Return t ->
  t <> [] /\ exists raw, t = normalizeWhitespace raw.
Proof.
  unfold extractTextFromDocument.
  destruct (_ =? 0); [discriminate|].
  destruct (_ >? MAX_UPLOAD_BYTES); [discriminate|].
  match goal with
  | |- try_catch (bind ?m _) _ = _ -> _ => destruct m as [raw|e]
  end; cbn [bind try_catch].
  - destruct (Js.length (normalizeWhitespace raw) =? 0) eqn:E;
      cbn [try_catch]; [discriminate|].
    intros [= <-]. split; [now apply length_zero_empty|now exists raw].
  - destruct e; discriminate.
Qed.

Lemma fetchLinkContent_returns index url t :
  fetchLinkContent index url = Return t -> t <> [].
Proof.
  unfold fetchLinkContent.
  destruct (fetch index url) as [response|e]; cbn [bind try_catch];
    [|destruct e; discriminate].
  destruct (text response) as [html|e]; cbn [bind try_catch];
    [|destruct e; discriminate].
  destruct (ok response); cbn [negb try_catch]; [|discriminate].
  destruct (extractMainTextFromHtml html) as [|c r]; cbn; [discriminate|].
  intros [= <-]. discriminate.
Qed.

(** Whatever goes wrong inside an extractor leaves it as an error of
    the route's own class. *)
Lemma extractTextFromDocument_throws index doc e :
  extractTextFromDocument index doc = Throw e ->
  exists message, e = ReferenceIngestionError message.
Proof.
  unfold extractTextFromDocument.
  destruct (_ =? 0); [intros [= <-]; eauto|].
  destruct (_ >? MAX_UPLOAD_BYTES); [intros [= <-]; eauto|].
  match goal with
  | |- try_catch (bind ?m _) _ = _ -> _ => destruct m as [raw|err]
  end; cbn [bind try_catch].
  - destruct (Js.length (normalizeWhitespace raw) =? 0);
      cbn [try_catch]; [intros [= <-]; eauto|discriminate].
  - destruct err; intros [= <-]; eauto.
Qed.

Lemma fetchLinkContent_throws index url e :
  fetchLinkContent index url = Throw e ->
  exists message, e = ReferenceIngestionError message.
Proof.
  unfold fetchLinkContent.
  destruct (fetch index url) as [response|err]; cbn [bind try_catch];
    [|destruct err; intros [= <-]; eauto].
  destruct (text response) as [html|err]; cbn [bind try_catch];
    [|destruct err; intros [= <-]; eauto].
  destruct (ok response); cbn [negb try_catch];
    [|intros [= <-]; eauto].
  destruct (extractMainTextFromHtml html) as [|c r]; cbn;
    [intros [= <-]; eauto|discriminate].
Qed.

(** The extractors fail on an empty result. *)
Lemma extractors_fail_on_empty :
  (forall index doc,
     extractTextFromDocument index doc <> Return [])
  /\ (forall index url, fetchLinkContent index url <> Return []).
Proof.
  split; intros index x H.
  - apply extractTextFromDocument_returns in H as [H _]. now apply H.
  - apply fetchLinkContent_returns in H. now apply H.
Qed.

(** C9.  Every entry of every result of [ingestReferences] has a
    non-empty content: the supplemental text is taken in only when
    something is left after trimming, a document or a link whose text is
    empty is a failure and no entry, and the cut to 6000 characters
    keeps a non-empty text non-empty. *)
Theorem reference_content_never_empty supplementalText links documents :
  Forall (fun entry => entry_content entry <> [])
         (references (ingestReferences supplementalText links documents))
  /\ Forall (fun t => t <> [] /\ Some t = option_map trim supplementalText)
            (textBlockOf supplementalText)
  /\ (forall index doc t,
        extractTextFromDocument index doc = Return t ->
        t <> [] /\ exists raw, t = normalizeWhitespace raw)
  /\ (forall index url t, fetchLinkContent index url = Return t -> t <> [])
  /\ (forall value,
        value <> [] -> truncateText value MAX_REFERENCE_CHARS <> []).
Proof.
  assert (Htext : Forall (fun t => t <> []
                           /\ Some t = option_map trim supplementalText)
                         (textBlockOf supplementalText)).
  { unfold textBlockOf.
    destruct (option_map trim supplementalText) as [tb|]; [|constructor].
    destruct tb as [|c r]; cbn; [constructor|].
    constructor; [|constructor]. split; [discriminate|reflexivity]. }
  split; [|split; [exact Htext|split; [|split]]].
  - unfold ingestReferences. rewrite ingestState_eq.
    cbn [hadInput st_references partialErrors].
    match goal with
    | |- context [negb ?b] => destruct b
    end; cbn [negb]; [|constructor].
    assert (Hall : Forall (fun entry => entry_content entry <> [])
              (map (fun t => limited (mkText t)) (textBlockOf supplementalText)
               ++ loopEntries extractTextFromDocument mkFile documents 0
               ++ loopEntries fetchLinkContent mkUrl links 0)).
    { apply Forall_app. split; [|apply Forall_app; split].
      - apply Forall_forall. intros e He.
        apply in_map_iff in He as (t & <- & Ht).
        rewrite Forall_forall in Htext. destruct (Htext t Ht) as [Hne _].
        cbn. now apply truncateText_nonempty.
      - apply (loopEntries_content _ _ (fun content => content <> [])).
        intros i doc t Ht. cbn.
        apply truncateText_nonempty.
        now apply extractTextFromDocument_returns in Ht as [Ht _].
      - apply (loopEntries_content _ _ (fun content => content <> [])).
        intros i url t Ht. cbn.
        apply truncateText_nonempty.
        now apply fetchLinkContent_returns in Ht. }
    destruct (_ ++ _ ++ _) eqn:E; [constructor|]. cbn [references].
    exact Hall.
  - apply extractTextFromDocument_returns.
  - apply fetchLinkContent_returns.
  - intros value. apply truncateText_nonempty.
Qed.

(** ** Status *)

Lemma succeeded_app a b : succeeded (a ++ b) = (succeeded a + succeeded b)%nat.
Proof. unfold succeeded. now rewrite filter_app, length_app. Qed.

Lemma failed_app a b : failed (a ++ b) = (failed a + failed b)%nat.
Proof. unfold failed. now rewrite filter_app, length_app. Qed.

Lemma succeeded_returns (l : list jsstring) :
  succeeded (map Return l) = List.length l /\ failed (map Return l) = 0%nat.
Proof.
  unfold succeeded, failed. induction l as [|x l [IH1 IH2]]; cbn; auto.
Qed.

Lemma thrownMessages_returns (l : list jsstring) :
  thrownMessages (map Return l) = [].
Proof. induction l as [|x l IH]; [reflexivity|exact IH]. Qed.

Lemma outcomes_nonempty (A : Type) (f : nat -> A -> outcome jsstring) l i :
  nonempty l = false <-> outcomes_from f l i = [].
Proof. destruct l; cbn; split; congruence. Qed.

Lemma length_zero_nil (A : Type) (l : list A) :
  List.length l = 0%nat -> l = [].
Proof. destruct l; [reflexivity|discriminate]. Qed.

(** C2.  The status of the result of [ingestReferences] is this function
    of the outcomes of the attempted sources: none attempted gives
    [empty] with no entries and no errors; some attempted and none
    succeeded gives [failed] with no entries; all attempted succeeded
    gives [success] with no errors; some succeeded and some failed gives
    [partial] with one error per failed source.  Every source is
    processed whatever happened to the others: there is one entry per
    source that succeeded and one error per source that failed. *)
Theorem ingestReferences_status supplementalText links documents :
  let outs := sourceOutcomes supplementalText links documents in
  let r := ingestReferences supplementalText links documents in
  (outs = [] ->
     r = {| result_status := StatusEmpty; references := []; errors := [] |})
  /\ (outs <> [] -> succeeded outs = 0%nat ->
        result_status r = StatusFailed /\ references r = [])
  /\ (outs <> [] -> failed outs = 0%nat ->
        result_status r = StatusSuccess /\ errors r = [])
  /\ ((0 < succeeded outs)%nat -> (0 < failed outs)%nat ->
        result_status r = StatusPartial
        /\ errors r = thrownMessages outs
        /\ List.length (errors r) = failed outs)
  /\ List.length (references r) = succeeded outs
  /\ (outs <> [] -> List.length (errors r) = failed outs)
  /\ (outs <> [] ->
        (List.length (references r) + List.length (errors r))%nat
        = List.length outs).
Proof.
  intros outs r.
  set (texts := textBlockOf supplementalText).
  set (docEntries := loopEntries extractTextFromDocument mkFile documents 0).
  set (linkEntries := loopEntries fetchLinkContent mkUrl links 0).
  set (docErrors :=
         loopErrors extractTextFromDocument docFallback documents 0).
  set (linkErrors := loopErrors fetchLinkContent linkFallback links 0).
  set (entries := map (fun t => limited (mkText t)) texts
                  ++ docEntries ++ linkEntries).
  assert (Hsucc : succeeded outs = List.length entries).
  { subst outs entries docEntries linkEntries texts. unfold sourceOutcomes.
    rewrite !succeeded_app, !length_app, length_map, !loopEntries_length.
    now destruct (succeeded_returns (textBlockOf supplementalText))
      as [-> _]. }
  assert (Hfail : failed outs = List.length (docErrors ++ linkErrors)).
  { subst outs docErrors linkErrors. unfold sourceOutcomes.
    rewrite !failed_app, length_app, !loopErrors_length.
    now destruct (succeeded_returns (textBlockOf supplementalText))
      as [_ ->]. }
  assert (Hmsgs : thrownMessages outs = docErrors ++ linkErrors).
  { subst outs docErrors linkErrors. unfold sourceOutcomes, thrownMessages.
    rewrite !flat_map_app.
    rewrite (loopErrors_thrown extractTextFromDocument docFallback)
      by apply extractTextFromDocument_throws.
    rewrite (loopErrors_thrown fetchLinkContent linkFallback)
      by apply fetchLinkContent_throws.
    fold (thrownMessages (map Return (textBlockOf supplementalText))).
    now rewrite thrownMessages_returns. }
  assert (Htotal : List.length outs = (succeeded outs + failed outs)%nat).
  { unfold succeeded, failed. clear. induction outs as [|o l IH]; cbn.
    - reflexivity.
    - destruct o; cbn; lia. }
  assert (Hhad : nonempty texts || nonempty documents || nonempty links
                 = false <-> outs = []).
  { subst outs. unfold sourceOutcomes. split.
    - intros H. apply orb_false_iff in H as [H Hl].
      apply orb_false_iff in H as [Ht Hd].
      apply (outcomes_nonempty _ extractTextFromDocument _ 0) in Hd.
      apply (outcomes_nonempty _ fetchLinkContent _ 0) in Hl.
      rewrite Hd, Hl. fold texts. now destruct texts.
    - intros H. apply app_eq_nil in H as [Ht H].
      apply app_eq_nil in H as [Hd Hl].
      apply (outcomes_nonempty _ extractTextFromDocument _ 0) in Hd.
      apply (outcomes_nonempty _ fetchLinkContent _ 0) in Hl.
      rewrite Hd, Hl. fold texts in Ht. now destruct texts. }
  assert (Hr : r =
    if negb (nonempty texts || nonempty documents || nonempty links) then
      {| result_status := StatusEmpty; references := []; errors := [] |}
    else
      match entries with
      | [] =>
          {| result_status := StatusFailed; references := [];
             errors := match docErrors ++ linkErrors with
                       | [] => [js "提供的资料为空或无法解析。"]
                       | _ => docErrors ++ linkErrors
                       end |}
      | _ =>
          {| result_status := match docErrors ++ linkErrors with
                              | [] => StatusSuccess
                              | _ => StatusPartial
                              end;
             references := entries;
             errors := docErrors ++ linkErrors |}
      end).
  { subst r. unfold ingestReferences. now rewrite ingestState_eq. }
  clearbody outs r entries.
  destruct (nonempty texts || nonempty documents || nonempty links) eqn:Had;
    cbn [negb] in Hr.
  - assert (Hne : outs <> []).
    { intros H. apply Hhad in H. discriminate. }
    destruct entries as [|e entries]; destruct (docErrors ++ linkErrors)
      as [|m errs] eqn:E; cbn [List.length] in *; subst r;
      cbn [result_status references errors List.length];
      repeat split; intros; try reflexivity; try congruence; try lia.
    all: exfalso; destruct outs as [|o outs];
      [congruence|cbn [List.length] in Htotal; lia].
  - assert (Hnil : outs = []) by now apply Hhad.
    subst r outs. cbn in Hsucc, Hfail. cbn [references errors List.length].
    repeat split; intros; try reflexivity; try congruence; try lia.
    exfalso. cbn in *. lia.
Qed.

End Ingestion.

(** A text, a reachable page, a page out of reach, a note and a blank
    file: three sources succeed and two fail. *)
Lemma ingestReferences_status_witness :
  result_status
    (ingestReferences (C := Samples.sampleWorld Samples.chatty)
       (Some (js " tour notes "))
       [Samples.reportUrl; js "https://example.com/missing"]
       [Samples.note; Samples.blank])
  = StatusPartial
  /\ List.length
       (errors
          (ingestReferences (C := Samples.sampleWorld Samples.chatty)
             (Some (js " tour notes "))
             [Samples.reportUrl; js "https://example.com/missing"]
             [Samples.note; Samples.blank]))
     = 2%nat.
Proof.
  destruct (ingestReferences_status
              (C := Samples.sampleWorld Samples.chatty)
              (Some (js " tour notes "))
              [Samples.reportUrl; js "https://example.com/missing"]
              [Samples.note; Samples.blank])
    as (_ & _ & _ & Hpartial & _).
  destruct Hpartial as (Hstatus & _ & Hlength);
    [vm_compute; lia|vm_compute; lia|].
  split; [exact Hstatus|exact Hlength].
Defined.

(** ** Validation *)

(** C5, as stated, fails: with a digest required, a payload of five
    phases whose digest is a string of twenty-three characters is
    rejected, because only three of them are left after trimming. *)
Lemma padded_digest_rejected :
  throws (validateGeneratedPayload Samples.paddedDigestPayload true) = true
  /\ nonnull_object Samples.paddedDigestPayload
  /\ phases_in_bounds Samples.paddedDigestPayload
  /\ digest_long_enough Js.length Samples.paddedDigestPayload.
Proof.
  split; [reflexivity|]. split; [|split].
  - left. eexists. reflexivity.
  - eexists. split; [reflexivity|]. cbn. lia.
  - eexists. split; [reflexivity|]. vm_compute. discriminate.
Qed.

Lemma validate_accepts_iff payload requireSourceDigest :
  validateGeneratedPayload payload requireSourceDigest = Return tt
  <-> nonnull_object payload
      /\ phases_in_bounds payload
      /\ (requireSourceDigest = true ->
            digest_long_enough trimmedLength payload).
Proof.
  unfold validateGeneratedPayload, nonnull_object, phases_in_bounds,
    digest_long_enough, trimmedLength.
  split.
  - intros H.
    destruct payload as [|b|q|s0|items|fields];
      [ discriminate
      | destruct b; discriminate
      | cbn [truthy is_object_type negb orb] in H;
        rewrite orb_true_r in H; discriminate
      | cbn [truthy is_object_type negb orb] in H;
        rewrite orb_true_r in H; discriminate
      | discriminate
      | ].
    cbn [truthy is_object_type negb orb get] in *.
    destruct (lookup (js "phases") fields) as [[| | | |phs|]|] eqn:P;
      try discriminate.
    destruct ((Z.of_nat (List.length phs) <? 5)
              || (Z.of_nat (List.length phs) >? 10)) eqn:B;
      [discriminate|].
    apply orb_false_iff in B as [B1 B2].
    apply Z.ltb_ge in B1. rewrite Z.gtb_ltb in B2. apply Z.ltb_ge in B2.
    split; [|split].
    + left. now exists fields.
    + exists phs. split; [reflexivity|lia].
    + intros ->.
      destruct (lookup (js "source_digest") fields)
        as [[| | |d| |]|] eqn:D; try discriminate.
      destruct (Js.length (trim d) <? 20) eqn:L; [discriminate|].
      apply Z.ltb_ge in L. exists d. now split.
  - intros (Hobj & (phs & Hp & Hb) & Hd).
    destruct Hobj as [[fields ->]|[items ->]]; [|discriminate].
    cbn [truthy is_object_type negb orb]. rewrite Hp.
    replace ((Z.of_nat (List.length phs) <? 5)
             || (Z.of_nat (List.length phs) >? 10)) with false.
    2:{ symmetry. apply orb_false_iff. split.
        - apply Z.ltb_ge. lia.
        - rewrite Z.gtb_ltb. apply Z.ltb_ge. lia. }
    destruct requireSourceDigest; [|reflexivity].
    destruct (Hd eq_refl) as (d & -> & Hlen).
    replace (Js.length (trim d) <? 20) with false
      by (symmetry; apply Z.ltb_ge; lia).
    reflexivity.
Qed.

Lemma outcome_unit_cases (m : outcome unit) :
  throws m = true <-> m <> Return tt.
Proof.
  destruct m as [[]|e]; cbn; split; congruence.
Qed.

(** C5, amended.  [validateGeneratedPayload] throws exactly when the
    payload is not a non-null object, or its [phases] is not an array of
    five to ten elements, or a digest is required and [source_digest] is
    not a string whose length after trimming is at least twenty;
    otherwise it returns.  A payload of four phases is rejected, one of
    five and one of ten are accepted. *)
Theorem validate_throws_iff payload requireSourceDigest :
  (throws (validateGeneratedPayload payload requireSourceDigest) = true
   <-> ~ nonnull_object payload
       \/ ~ phases_in_bounds payload
       \/ (requireSourceDigest = true
           /\ ~ digest_long_enough trimmedLength payload))
  /\ (throws (validateGeneratedPayload payload requireSourceDigest) = false
      <-> validateGeneratedPayload payload requireSourceDigest = Return tt)
  /\ throws (validateGeneratedPayload (Samples.payloadWithPhases 4)
                                      requireSourceDigest) = true
  /\ validateGeneratedPayload (Samples.payloadWithPhases 5) false
     = Return tt
  /\ validateGeneratedPayload (Samples.payloadWithPhases 10) false
     = Return tt.
Proof.
  split; [|split; [|split; [|split; reflexivity]]].
  - rewrite outcome_unit_cases, validate_accepts_iff. split.
    + intros H.
      destruct (validateGeneratedPayload payload requireSourceDigest)
        as [[]|e] eqn:V.
      * exfalso. apply H. now apply validate_accepts_iff.
      * clear H.
        unfold validateGeneratedPayload in V.
        destruct (negb (truthy payload) || negb (is_object_type payload))
          eqn:O.
        { left. intros [[fields ->]|[items ->]]; discriminate. }
        destruct (get payload (js "phases")) as [[| | | |phs|]|] eqn:P;
          try (right; left; intros (items & Hp & _); congruence).
        destruct ((Z.of_nat (List.length phs) <? 5)
                  || (Z.of_nat (List.length phs) >? 10)) eqn:B.
        { right. left. intros (items & Hp & Hb).
          assert (items = phs) by congruence. subst items.
          apply orb_true_iff in B as [B|B].
          - apply Z.ltb_lt in B. lia.
          - rewrite Z.gtb_ltb in B. apply Z.ltb_lt in B. lia. }
        destruct requireSourceDigest; [|discriminate].
        right. right. split; [reflexivity|].
        unfold digest_long_enough, trimmedLength.
        intros (d & Hd & Hlen). rewrite Hd in V.
        destruct (Js.length (trim d) <? 20) eqn:L; [|discriminate].
        apply Z.ltb_lt in L. lia.
    + intros [H|[H|[-> H]]] (Ho & Hp & Hd); auto.
  - destruct (validateGeneratedPayload payload requireSourceDigest)
      as [[]|e]; cbn; split; congruence.
  - now destruct requireSourceDigest.
Qed.

(** ** Recovery of the structured output *)

Section Recovery.

Context {C : Collaborators}.

Lemma attemptParse_eq payload :
  attemptParse payload
  = Return match parseCandidate payload with
           | Some v => v
           | None => JNull
           end.
Proof.
  unfold attemptParse, parseCandidate.
  destruct (JSON_parse (normalizeJsonText payload)) as [v|e];
    cbn [try_catch]; [reflexivity|].
  destruct (jsonrepair (normalizeJsonText payload)) as [r|e'];
    cbn [bind try_catch]; [|reflexivity].
  destruct (JSON_parse r); reflexivity.
Qed.

Lemma extractJsonPayload_eq content :
  extractJsonPayload content
  = Return (firstTruthy (map parseCandidate (candidates content))).
Proof.
  unfold extractJsonPayload, candidates.
  set (trimmed := normalizeJsonText content).
  rewrite attemptParse_eq. cbn [bind map app firstTruthy].
  assert (Hslice :
    match braceSlice trimmed with
    | Some sliced =>
        parsedSlice <- attemptParse sliced ;;
        (if truthy parsedSlice then Return parsedSlice else Return JNull)
    | None => Return JNull
    end
    = Return (firstTruthy
                (map parseCandidate
                   match braceSlice trimmed with
                   | Some sliced => [sliced]
                   | None => []
                   end))).
  { destruct (braceSlice trimmed) as [sliced|]; [|reflexivity].
    rewrite attemptParse_eq. cbn [bind map firstTruthy].
    destruct (parseCandidate sliced) as [v|]; [|reflexivity].
    now destruct (truthy v). }
  assert (Hfence :
    match search fence_at trimmed with
    | Some inner =>
        fenced <- attemptParse (trim inner) ;;
        (if truthy fenced then Return fenced
         else match braceSlice trimmed with
              | Some sliced =>
                  parsedSlice <- attemptParse sliced ;;
                  (if truthy parsedSlice then Return parsedSlice
                   else Return JNull)
              | None => Return JNull
              end)
    | None =>
        match braceSlice trimmed with
        | Some sliced =>
            parsedSlice <- attemptParse sliced ;;
            (if truthy parsedSlice then Return parsedSlice
             else Return JNull)
        | None => Return JNull
        end
    end
    = Return (firstTruthy
                (map parseCandidate
                   (match search fence_at trimmed with
                    | Some inner => [trim inner]
                    | None => []
                    end
                    ++ match braceSlice trimmed with
                       | Some sliced => [sliced]
                       | None => []
                       end)))).
  { rewrite Hslice.
    destruct (search fence_at trimmed) as [inner|]; [|reflexivity].
    rewrite attemptParse_eq. cbn [bind map app firstTruthy].
    destruct (parseCandidate (trim inner)) as [v|]; [|reflexivity].
    now destruct (truthy v). }
  destruct (parseCandidate trimmed) as [v|].
  - cbn [truthy]. destruct (truthy v) eqn:T; [reflexivity|exact Hfence].
  - cbn [truthy]. exact Hfence.
Qed.

Lemma firstTruthy_null parses :
  firstTruthy parses = JNull
  <-> forall v, In (Some v) parses -> truthy v = false.
Proof.
  induction parses as [|[w|] rest IH]; cbn [firstTruthy].
  - split; [intros _ v []|reflexivity].
  - destruct (truthy w) eqn:T.
    + split.
      * intros ->. discriminate.
      * intros H. rewrite (H w) in T by now left. discriminate.
    + rewrite IH. split.
      * intros H v [[= <-]|Hin]; [exact T|now apply H].
      * intros H v Hin. apply H. now right.
  - rewrite IH. split.
    + intros H v [|Hin]; [discriminate|now apply H].
    + intros H v Hin. apply H. now right.
Qed.

(** C7, amended.  For every input, [extractJsonPayload] returns and does
    not throw.  Its candidates are the normalized text, the inside of
    the first fenced block and the slice from the first opening brace to
    the last closing brace; each is parsed strictly and, when that
    fails, again after the repair pass.  The result is the first parse
    that is truthy; it is [null] exactly when every candidate fails both
    ways or parses to a falsy value ([null], [false], zero, the empty
    string). *)
Theorem extractJsonPayload_first_truthy content :
  (exists v, extractJsonPayload content = Return v)
  /\ extractJsonPayload content
     = Return (firstTruthy (map parseCandidate (candidates content)))
  /\ (extractJsonPayload content = Return JNull
      <-> forall candidate v,
            In candidate (candidates content) ->
            parseCandidate candidate = Some v -> truthy v = false)
  /\ (forall payload,
        attemptParse payload
        = Return match parseCandidate payload with
                 | Some v => v
                 | None => JNull
                 end).
Proof.
  split; [rewrite extractJsonPayload_eq; eauto|].
  split; [apply extractJsonPayload_eq|].
  split; [|apply attemptParse_eq].
  rewrite extractJsonPayload_eq. split.
  - intros H candidate v Hin Hp.
    assert (Hnull : firstTruthy (map parseCandidate (candidates content))
                    = JNull) by congruence.
    apply (proj1 (firstTruthy_null _) Hnull).
    rewrite <- Hp. now apply in_map.
  - intros H. f_equal. apply firstTruthy_null. intros v Hin.
    apply in_map_iff in Hin as (candidate & Hp & Hin).
    now apply (H candidate).
Qed.

End Recovery.

(** C7, as stated, fails: on the text [0] the first candidate parses
    (to the number zero), and the extractor returns [null]. *)
Lemma zero_parses_yet_null :
  candidates (js "0") = [js "0"]
  /\ parseCandidate (C := Samples.sampleWorld Samples.chatty) (js "0")
     = Some (JNum 0)
  /\ JSON_parse (js "0") = Return (JNum 0)
  /\ extractJsonPayload (C := Samples.sampleWorld Samples.chatty) (js "0")
     = Return JNull.
Proof. vm_compute. repeat split; reflexivity. Qed.

(** ** The two attempts *)

Section Orchestrator.

Context {C : Collaborators}.

Lemma unrecoverable_continue attempt messages :
  unrecoverable attempt messages <-> attemptOnce attempt messages = Continue.
Proof.
  unfold unrecoverable, attemptOnce. split.
  - intros (reply & raw & -> & -> & -> & H). cbn [negb].
    destruct H as [->|(v & -> & ->)]; [reflexivity|].
    now destruct (Js.truthy (or_empty raw)).
  - destruct (chat_completions attempt messages) as [reply|e];
      [|discriminate].
    destruct (chat_ok reply) eqn:Ok; cbn [negb]; [|discriminate].
    destruct (chat_content reply) as [raw|e] eqn:Raw; [|discriminate].
    destruct (Js.truthy (or_empty raw)) eqn:T; cbn [negb].
    + destruct (extractJsonPayload (or_empty raw)) as [v|e] eqn:X;
        [|discriminate].
      destruct (truthy v) eqn:V; [discriminate|]. intros _.
      exists reply, raw. repeat split; try assumption.
      right. now exists v.
    + intros _. exists reply, raw. repeat split; try assumption. now left.
Qed.

Lemma generationLoop_two query context refs :
  generationLoop query context refs 2 0
  = let m := attemptMessages query context refs in
    match attemptOnce 0 (m 0%nat) with
    | Continue =>
        match attemptOnce 1 (m 1%nat) with
        | Continue =>
            ([Generate 0 (m 0%nat); Generate 1 (m 1%nat)], Return Exhausted)
        | Leave exit =>
            ([Generate 0 (m 0%nat); Generate 1 (m 1%nat)], exit)
        end
    | Leave exit => ([Generate 0 (m 0%nat)], exit)
    end.
Proof.
  cbn [generationLoop].
  destruct (attemptOnce 0 _); [|reflexivity].
  destruct (attemptOnce 1 _); reflexivity.
Qed.

Lemma generate_log query ingestion :
  let m := attemptMessages query (promptContextOf ingestion)
                           (referenceInstructionMessageOf ingestion) in
  exists tail,
    fst (generate query ingestion)
    = Generate 0 (m 0%nat) :: tail
    /\ (tail = [] \/ tail = [Generate 1 (m 1%nat)]
        \/ (exists v r, tail = [Validate v r]
              /\ attemptOnce 0 (m 0%nat) = Leave (Return (Break v)))
        \/ (exists v r, tail = [Generate 1 (m 1%nat); Validate v r]
              /\ attemptOnce 1 (m 1%nat) = Leave (Return (Break v)))).
Proof.
  intros m. unfold generate. rewrite generationLoop_two. fold m.
  cbv zeta.
  destruct (attemptOnce 0 (m 0%nat)) as [|[[v| |r]|e]] eqn:A0.
  - destruct (attemptOnce 1 (m 1%nat)) as [|[[v| |r]|e]] eqn:A1;
      try (eexists; split; [reflexivity|]; right; left; reflexivity).
    destruct (validateGeneratedPayload v _);
      (eexists; split; [reflexivity|]; right; right; right;
       eexists; eexists; split; reflexivity).
  - destruct (validateGeneratedPayload v _);
      (eexists; split; [reflexivity|]; right; right; left;
       eexists; eexists; split; reflexivity).
  - eexists; split; [reflexivity|]. now left.
  - eexists; split; [reflexivity|]. now left.
  - eexists; split; [reflexivity|]. now left.
Qed.


(** With a key and a prompt, [POST] is the ingestion followed by the
    attempts. *)
Lemma POST_generates apiKey body :
  Js.truthy (or_empty apiKey) = true ->
  Js.truthy (or_empty (option_map trim (prompt body))) = true ->
  POST apiKey (Return body)
  = generate (or_empty (option_map trim (prompt body)))
      (ingestReferences
         (option_map trim (supplementalText body))
         match links body with
         | Some ls => filter Js.truthy (map trim ls)
         | None => []
         end
         match documents body with
         | Some ds => firstn 5 ds
         | None => []
         end).
Proof.
  intros Hkey Hprompt. unfold POST. now rewrite Hkey, Hprompt.
Qed.

End Orchestrator.


End RouteProofs.

(* ================================================================== *)
(** * Further properties *)
(* ================================================================== *)

Module JsFacts.

Import TextSpec.

Lemma takeWhile_dropWhile p s : takeWhile p s ++ dropWhile p s = s.
Proof.
  induction s as [|c t IH]; cbn; [reflexivity|].
  destruct (p c); cbn; [now rewrite IH|reflexivity].
Qed.

Lemma dropWhile_starts s : starts_clean (dropWhile is_ws s).
Proof.
  induction s as [|c t IH]; cbn; [exact I|].
  destruct (is_ws c) eqn:E; [exact IH|exact E].
Qed.

Lemma dropWhile_id s : starts_clean s -> dropWhile is_ws s = s.
Proof. destruct s as [|c t]; cbn; [reflexivity|]. now intros ->. Qed.

Lemma trimEnd_prefix s : trimEnd s ++ rev (takeWhile is_ws (rev s)) = s.
Proof.
  unfold trimEnd. rewrite <- rev_app_distr, takeWhile_dropWhile.
  apply rev_involutive.
Qed.

Lemma trimEnd_ends s : ends_clean (trimEnd s).
Proof.
  unfold ends_clean, trimEnd. rewrite rev_involutive. apply dropWhile_starts.
Qed.

Lemma starts_clean_prefix a b : starts_clean (a ++ b) -> starts_clean a.
Proof. destruct a; cbn; auto. Qed.

Lemma trimEnd_starts s : starts_clean s -> starts_clean (trimEnd s).
Proof.
  intros H. rewrite <- (trimEnd_prefix s) in H.
  now apply starts_clean_prefix in H.
Qed.

Lemma trim_starts s : starts_clean (trim s).
Proof. apply trimEnd_starts, dropWhile_starts. Qed.

Lemma trim_ends s : ends_clean (trim s).
Proof. apply trimEnd_ends. Qed.

Lemma trimEnd_id s : ends_clean s -> trimEnd s = s.
Proof.
  unfold ends_clean, trimEnd. intros H. rewrite dropWhile_id by exact H.
  apply rev_involutive.
Qed.

Lemma trim_id s : starts_clean s -> ends_clean s -> trim s = s.
Proof.
  intros Hs He. unfold trim, trimStart. rewrite dropWhile_id by exact Hs.
  now apply trimEnd_id.
Qed.

Lemma trim_idem s : trim (trim s) = trim s.
Proof. apply trim_id; [apply trim_starts|apply trim_ends]. Qed.

Lemma single_spaced_suffix a b : single_spaced (a ++ b) -> single_spaced b.
Proof. induction a as [|c a IH]; cbn; [auto|]. intros [_ H]. auto. Qed.

Lemma single_spaced_prefix a b : single_spaced (a ++ b) -> single_spaced a.
Proof.
  induction a as [|c a IH]; cbn; [auto|]. intros [Hc H]. split; [|auto].
  intros Hw. destruct (Hc Hw) as [-> Hs]. split; [reflexivity|].
  now apply starts_clean_prefix in Hs.
Qed.

Lemma single_spaced_trim s : single_spaced s -> single_spaced (trim s).
Proof.
  intros H. unfold trim, trimStart.
  apply (single_spaced_prefix _ (rev (takeWhile is_ws (rev (dropWhile is_ws s))))).
  rewrite trimEnd_prefix.
  apply (single_spaced_suffix (takeWhile is_ws s)).
  now rewrite takeWhile_dropWhile.
Qed.

Lemma collapse_starts c t :
  is_ws c = false -> starts_clean (collapse_ws (c :: t)).
Proof. intros H. cbn. now rewrite H. Qed.

Lemma collapse_single_spaced s : single_spaced (collapse_ws s).
Proof.
  induction s as [|c t IH]; [exact I|].
  cbn [collapse_ws]. destruct (is_ws c) eqn:E.
  - destruct t as [|d t'].
    + cbn. repeat split; reflexivity.
    + destruct (is_ws d) eqn:F; [exact IH|].
      split; [|exact IH]. intros _. split; [reflexivity|].
      now apply collapse_starts.
  - split; [|exact IH]. rewrite E. discriminate.
Qed.

Lemma collapse_id s : single_spaced s -> collapse_ws s = s.
Proof.
  induction s as [|c t IH]; [reflexivity|].
  intros [Hc Ht]. cbn [collapse_ws]. destruct (is_ws c) eqn:E.
  - destruct (Hc eq_refl) as [-> Hs].
    destruct t as [|d t']; [reflexivity|].
    cbn in Hs. rewrite Hs. f_equal. now apply IH.
  - f_equal. now apply IH.
Qed.

Lemma length_app_Z (a b : jsstring) :
  Js.length (a ++ b) = Js.length a + Js.length b.
Proof. unfold Js.length. rewrite length_app. lia. Qed.

Lemma slice_prefix s limit :
  0 <= limit -> exists rest, s = slice s 0 limit ++ rest.
Proof.
  intros H. unfold slice. cbn [Z.to_nat skipn].
  exists (skipn (Z.to_nat (limit - 0)) s). symmetry. apply firstn_skipn.
Qed.

Lemma slice_length s limit :
  0 <= limit -> Js.length (slice s 0 limit) <= limit.
Proof.
  intros H. unfold slice, Js.length. cbn [Z.to_nat skipn].
  rewrite length_firstn. lia.
Qed.

Lemma dropWhile_Forall (P : N -> Prop) p s :
  Forall P s -> Forall P (dropWhile p s).
Proof.
  induction 1 as [|c s Hc Hs IH]; [constructor|].
  cbn. destruct (p c); [exact IH|now constructor].
Qed.

Lemma trim_Forall (P : N -> Prop) s : Forall P s -> Forall P (trim s).
Proof.
  intros H. unfold trim, trimEnd, trimStart.
  apply Forall_rev, dropWhile_Forall, Forall_rev, dropWhile_Forall, H.
Qed.

Lemma filter_Forall_id (A : Type) (f : A -> bool) l :
  Forall (fun x => f x = true) l -> filter f l = l.
Proof.
  induction 1 as [|x l Hx _ IH]; [reflexivity|].
  cbn. now rewrite Hx, IH.
Qed.

Lemma filter_Forall (A : Type) (f : A -> bool) l :
  Forall (fun x => f x = true) (filter f l).
Proof.
  induction l as [|x l IH]; [constructor|].
  cbn. destruct (f x) eqn:E; [now constructor|exact IH].
Qed.

Lemma map_Forall_id (A : Type) (f : A -> A) l :
  Forall (fun x => f x = x) l -> map f l = l.
Proof.
  induction 1 as [|x l Hx _ IH]; [reflexivity|].
  cbn. now rewrite Hx, IH.
Qed.

(** *** Positions of a code unit *)

Lemma lacks_app c a b : lacks c (a ++ b) <-> lacks c a /\ lacks c b.
Proof. apply Forall_app. Qed.

Lemma lacks_occurrence c a b : lacks c (a ++ c :: b) -> False.
Proof.
  intros H. apply lacks_app in H as [_ H]. inversion H. congruence.
Qed.

Lemma app_cons_split (A : Type) (pre : list A) :
  forall pre' a b post post',
    pre ++ a :: post = pre' ++ b :: post' ->
    (List.length pre < List.length pre')%nat ->
    exists mid, pre' = pre ++ a :: mid /\ post = mid ++ b :: post'.
Proof.
  induction pre as [|x pre IH]; intros pre' a b post post' H Hlen.
  - destruct pre' as [|y pre']; [cbn in Hlen; lia|].
    cbn in H. injection H as -> ->. now exists pre'.
  - destruct pre' as [|y pre']; [cbn in Hlen; lia|].
    cbn in H. injection H as -> H. cbn in Hlen.
    destruct (IH pre' a b post post' H ltac:(lia)) as (mid & -> & ->).
    now exists mid.
Qed.

Lemma indexOf_from_spec c s :
  forall i,
    (lacks c s /\ indexOf_from c s i = -1)
    \/ exists pre post,
         s = pre ++ c :: post /\ lacks c pre
         /\ indexOf_from c s i = i + Js.length pre.
Proof.
  induction s as [|d s IH]; intros i; cbn.
  - left. split; [constructor|reflexivity].
  - destruct (N.eqb_spec c d) as [->|Hne].
    + right. exists [], s. repeat split; [constructor|cbn; lia].
    + destruct (IH (i + 1)) as [[Hs ->]|(pre & post & -> & Hpre & ->)].
      * left. split; [constructor; [congruence|exact Hs]|reflexivity].
      * right. exists (d :: pre), post. split; [reflexivity|].
        split; [constructor; [congruence|exact Hpre]|].
        unfold Js.length. cbn [List.length]. lia.
Qed.

Lemma lastIndexOf_from_spec c s :
  forall i found,
    (lacks c s /\ lastIndexOf_from c s i found = found)
    \/ exists pre post,
         s = pre ++ c :: post /\ lacks c post
         /\ lastIndexOf_from c s i found = i + Js.length pre.
Proof.
  induction s as [|d s IH]; intros i found; cbn.
  - left. split; [constructor|reflexivity].
  - destruct (IH (i + 1) (if (c =? d)%N then i else found))
      as [[Hs ->]|(pre & post & -> & Hpost & ->)].
    + destruct (N.eqb_spec c d) as [->|Hne].
      * right. exists [], s. repeat split; [exact Hs|cbn; lia].
      * left. split; [constructor; [congruence|exact Hs]|reflexivity].
    + right. exists (d :: pre), post. split; [reflexivity|].
      split; [exact Hpost|].
      unfold Js.length. cbn [List.length]. lia.
Qed.

Lemma includes_unit c s : includes [c] s = false <-> lacks c s.
Proof.
  induction s as [|d s IH]; cbn.
  - split; [constructor|reflexivity].
  - unfold startsWith. cbn.
    destruct (N.eqb_spec c d) as [->|Hne]; cbn.
    + split; [discriminate|]. intros H. inversion H. congruence.
    + rewrite IH. split.
      * intros H. constructor; [congruence|exact H].
      * intros H. now inversion H.
Qed.

Lemma after_last_comma_payload prefix payload :
  lacks 44%N payload ->
  Route.after_last_comma (prefix ++ 44%N :: payload) = payload.
Proof.
  intros Hp. unfold Route.after_last_comma, lastIndexOf.
  destruct (lastIndexOf_from_spec 44%N (prefix ++ 44%N :: payload) 0 (-1))
    as [[H _]|(pre & post & Heq & Hpost & ->)].
  - now apply lacks_occurrence in H.
  - assert (Hlen : List.length pre = List.length prefix).
    { destruct (Nat.lt_trichotomy (List.length pre) (List.length prefix))
        as [H|[H|H]]; [|exact H|].
      - symmetry in Heq.
        destruct (app_cons_split _ _ _ _ _ _ _ Heq H) as (mid & _ & ->).
        now apply lacks_occurrence in Hpost.
      - destruct (app_cons_split _ _ _ _ _ _ _ Heq H) as (mid & _ & ->).
        now apply lacks_occurrence in Hp. }
    unfold Js.length. rewrite Hlen.
    replace (Z.to_nat (0 + Z.of_nat (List.length prefix) + 1))
      with (List.length prefix + 1)%nat by lia.
    rewrite <- (firstn_skipn 0 payload) at 2. cbn [firstn app skipn].
    replace (prefix ++ 44%N :: payload) with ((prefix ++ [44%N]) ++ payload)
      by now rewrite <- app_assoc.
    rewrite skipn_app, skipn_all2 by (rewrite length_app; cbn; lia).
    rewrite length_app. cbn [List.length app].
    now replace (List.length prefix + 1 - (List.length prefix + 1))%nat
      with 0%nat by lia.
Qed.

Lemma after_last_comma_lacks s : lacks 44%N (Route.after_last_comma s).
Proof.
  unfold Route.after_last_comma, lastIndexOf.
  destruct (lastIndexOf_from_spec 44%N s 0 (-1))
    as [[H ->]|(pre & post & Heq & Hpost & Hidx)].
  - exact H.
  - pose proof (after_last_comma_payload pre post Hpost) as H.
    unfold Route.after_last_comma, lastIndexOf in H. rewrite <- Heq in H.
    now rewrite H.
Qed.

(** ** Strings of white space *)

Lemma dropWhile_nil p s :
  dropWhile p s = [] <-> Forall (fun c => p c = true) s.
Proof.
  induction s as [|c t IH]; [split; constructor|].
  cbn [dropWhile]. destruct (p c) eqn:E.
  - rewrite IH. split; intros H; [now constructor|now inversion H].
  - split; [discriminate|]. intros H. inversion H; congruence.
Qed.

Lemma dropWhile_all p s :
  Forall (fun c => p c = true) (dropWhile p s) ->
  Forall (fun c => p c = true) s.
Proof.
  induction s as [|c t IH]; [constructor|].
  cbn [dropWhile]. destruct (p c) eqn:E; [|auto].
  intros H. constructor; auto.
Qed.

Lemma trim_nil s : trim s = [] <-> blank s.
Proof.
  unfold trim, trimEnd, trimStart, blank. split.
  - intros H.
    assert (H' : dropWhile is_ws (rev (dropWhile is_ws s)) = []).
    { rewrite <- (rev_involutive (dropWhile _ (rev _))), H. reflexivity. }
    apply dropWhile_nil, Forall_rev in H'. rewrite rev_involutive in H'.
    now apply dropWhile_all.
  - intros H. apply dropWhile_nil in H. rewrite H. reflexivity.
Qed.

Lemma collapse_blank s : blank s -> collapse_ws s = [] \/ collapse_ws s = [32%N].
Proof.
  unfold blank. induction s as [|c t IH]; [now left|].
  intros H. inversion H as [|? ? Hc Ht]; subst.
  cbn [collapse_ws]. rewrite Hc. destruct t as [|d t']; [now right|].
  inversion Ht as [|? ? Hd _]; subst. rewrite Hd.
  exact (IH Ht).
Qed.

Lemma collapse_keeps s : blank (collapse_ws s) -> blank s.
Proof.
  unfold blank. induction s as [|c t IH]; [constructor|].
  cbn [collapse_ws]. destruct (is_ws c) eqn:Ec.
  - intros H. constructor; [exact Ec|].
    destruct t as [|d t']; [constructor|].
    destruct (is_ws d) eqn:Ed; [now apply IH|].
    apply IH. now inversion H.
  - intros H. inversion H; congruence.
Qed.

End JsFacts.

Module TextProofs.

Import Route RouteSpec TextSpec JsFacts.

(** X1.  The result of [normalizeWhitespace] neither starts nor ends with
    white space, holds no white space but single spaces between other
    characters, and is left unchanged by a second normalization. *)
Theorem normalizeWhitespace_normal value :
  starts_clean (normalizeWhitespace value)
  /\ ends_clean (normalizeWhitespace value)
  /\ single_spaced (normalizeWhitespace value)
  /\ normalizeWhitespace (normalizeWhitespace value)
     = normalizeWhitespace value.
Proof.
  assert (Hs : single_spaced (normalizeWhitespace value))
    by apply single_spaced_trim, collapse_single_spaced.
  split; [apply trim_starts|]. split; [apply trim_ends|].
  split; [exact Hs|].
  unfold normalizeWhitespace at 1. rewrite collapse_id by exact Hs.
  apply trim_idem.
Qed.

Lemma ellipsis_length : Js.length (js "…") = 1.
Proof. reflexivity. Qed.

Lemma truncateText_length value limit :
  0 <= limit -> Js.length (truncateText value limit) <= limit + 1.
Proof.
  intros Hl. unfold truncateText.
  destruct value as [|c t]; [cbn; lia|].
  cbn [Js.truthy negb]. rewrite Z.gtb_ltb.
  destruct (Z.ltb_spec limit (Js.length (c :: t))) as [Hlt|Hge]; [|lia].
  rewrite length_app_Z, ellipsis_length.
  pose proof (slice_length (c :: t) limit Hl). lia.
Qed.

(** X2.  [truncateText] keeps a text within the limit as it is, and cuts a
    longer one to its first [limit] code units followed by an ellipsis:
    the result never has more than [limit + 1] code units. *)
Theorem truncateText_bounds value limit :
  0 <= limit ->
  Js.length (truncateText value limit) <= limit + 1
  /\ (Js.length value <= limit -> truncateText value limit = value)
  /\ (limit < Js.length value ->
        truncateText value limit = slice value 0 limit ++ js "…"
        /\ exists rest, value = slice value 0 limit ++ rest).
Proof.
  intros Hl. unfold truncateText.
  destruct value as [|c t].
  - cbn. repeat split; try lia; intros H; cbn in H; lia.
  - cbn [Js.truthy negb]. rewrite Z.gtb_ltb.
    destruct (Z.ltb_spec limit (Js.length (c :: t))) as [Hlt|Hge].
    + split; [|split].
      * rewrite length_app_Z, ellipsis_length.
        pose proof (slice_length (c :: t) limit Hl). lia.
      * lia.
      * intros _. split; [reflexivity|]. now apply slice_prefix.
    + split; [lia|]. split; [reflexivity|]. lia.
Qed.

Lemma truncateText_bounds_witness :
  truncateText (js "narrative") 4 = js "narr…"
  /\ Js.length (truncateText (js "narrative") 4) <= 4 + 1.
Proof.
  destruct (truncateText_bounds (js "narrative") 4 ltac:(lia))
    as (Hlen & _ & Hcut).
  split; [|exact Hlen].
  destruct Hcut as [Hcut _]; [vm_compute; reflexivity|]. exact Hcut.
Defined.

Lemma buildReferencePreview_length value limit :
  0 <= limit -> Js.length (buildReferencePreview value limit) <= limit + 1.
Proof.
  intros Hl. unfold buildReferencePreview.
  set (n := normalizeWhitespace value).
  destruct (Js.length n =? 0); [cbn; lia|].
  rewrite Z.gtb_ltb.
  destruct (Z.ltb_spec limit (Js.length n)) as [Hlt|Hge]; [|lia].
  rewrite length_app_Z, ellipsis_length.
  pose proof (slice_length n limit Hl). lia.
Qed.

(** The normalized text is empty exactly when the text holds nothing
    but white space. *)
Lemma normalizeWhitespace_nil value :
  normalizeWhitespace value = [] <-> blank value.
Proof.
  unfold normalizeWhitespace. rewrite trim_nil. split.
  - apply collapse_keeps.
  - intros H. destruct (collapse_blank value H) as [-> | ->].
    + constructor.
    + repeat constructor.
Qed.

Lemma buildReferencePreview_nil value limit :
  buildReferencePreview value limit = [] <-> normalizeWhitespace value = [].
Proof.
  unfold buildReferencePreview.
  set (n := normalizeWhitespace value).
  destruct n as [|c t] eqn:E; [split; reflexivity|].
  replace (Js.length (c :: t) =? 0) with false.
  - split; [|discriminate]. intros H.
    destruct (Js.length (c :: t) >? limit); [|exact H].
    apply app_eq_nil in H as [_ H]. discriminate.
  - symmetry. apply Z.eqb_neq. unfold Js.length. cbn [List.length]. lia.
Qed.

(** X3.  The preview of a text is its normalized form when that has at most
    [limit] code units; it is never longer than [limit + 1], and it is
    empty exactly when the text is empty or all white space. *)
Theorem buildReferencePreview_bounds value limit :
  0 <= limit ->
  Js.length (buildReferencePreview value limit) <= limit + 1
  /\ (Js.length (normalizeWhitespace value) <= limit ->
        buildReferencePreview value limit = normalizeWhitespace value)
  /\ (buildReferencePreview value limit = []
      <-> normalizeWhitespace value = [])
  /\ (buildReferencePreview value limit = [] <-> blank value).
Proof.
  intros Hl. split; [now apply buildReferencePreview_length|].
  split.
  - intros Hfit. unfold buildReferencePreview.
    destruct (Z.eqb_spec (Js.length (normalizeWhitespace value)) 0) as [H0|H0].
    + destruct (normalizeWhitespace value); [reflexivity|discriminate].
    + rewrite Z.gtb_ltb.
      now destruct (Z.ltb_spec limit (Js.length (normalizeWhitespace value)));
        [lia|].
  - split; [apply buildReferencePreview_nil|].
    rewrite buildReferencePreview_nil. apply normalizeWhitespace_nil.
Qed.

Lemma buildReferencePreview_bounds_witness :
  buildReferencePreview (js "  tour   notes ") 240 = js "tour notes"
  /\ buildReferencePreview [] 240 = []
  /\ buildReferencePreview [32; 9; 10; 12288; 32]%N 240 = []
  /\ buildReferencePreview (js " x ") 0 = js "…".
Proof.
  destruct (buildReferencePreview_bounds (js "  tour   notes ") 240
              ltac:(lia)) as (_ & Hshort & _).
  destruct (buildReferencePreview_bounds [] 240 ltac:(lia))
    as (_ & _ & _ & Hempty).
  destruct (buildReferencePreview_bounds [32; 9; 10; 12288; 32]%N 240
              ltac:(lia)) as (_ & _ & _ & Hblank).
  split; [rewrite Hshort; [reflexivity|vm_compute; discriminate]|].
  split; [apply Hempty; constructor|].
  split; [apply Hblank; repeat constructor|reflexivity].
Defined.

End TextProofs.

Module IngestProofs.

Import Route RouteSpec RouteProofs TextSpec IngestSpec JsFacts TextProofs.

Section WithCollaborators.

Context {C : Collaborators}.

Lemma limited_length entry :
  Js.length (entry_content (limited entry)) <= MAX_REFERENCE_CHARS + 1.
Proof.
  cbn. apply truncateText_length. unfold MAX_REFERENCE_CHARS. lia.
Qed.

Lemma loopEntries_from (A : Type) (f : nat -> A -> outcome jsstring)
    (mk : A -> jsstring -> ReferenceEntry) (l : list A) :
  forall index entry,
    In entry (loopEntries f mk l index) ->
    exists i x text,
      In x l /\ f i x = Return text /\ entry = limited (mk x text).
Proof.
  induction l as [|x l IH]; intros index entry; cbn; [intros []|].
  intros H. apply in_app_or in H as [H|H].
  - destruct (f index x) as [text|e] eqn:E; [|destruct H].
    destruct H as [<-|[]]. exists index, x, text. auto.
  - destruct (IH _ _ H) as (i & y & text & Hy & Hf & He).
    exists i, y, text. auto.
Qed.

Lemma references_of_state supplementalText links documents entry :
  In entry (references (ingestReferences supplementalText links documents)) ->
  In entry
     (map (fun t => limited (mkText t)) (textBlockOf supplementalText)
      ++ loopEntries extractTextFromDocument mkFile documents 0
      ++ loopEntries fetchLinkContent mkUrl links 0).
Proof.
  unfold ingestReferences. rewrite ingestState_eq.
  cbn [hadInput st_references partialErrors].
  match goal with |- context [negb ?b] => destruct b end; cbn [negb];
    [|intros []].
  destruct (_ ++ _ ++ _) eqn:E; [intros []|]. cbn [references]. auto.
Qed.

(** X4.  Every entry that [ingestReferences] returns comes from a source that
    was submitted and that produced a text: it is the trimmed
    supplemental text under the source [user_input], or the text of a
    submitted document under its name, or the text of a submitted link
    under its address.  Its content is that text cut to 6000 code units
    (with an ellipsis after a cut), so it never has more than 6001. *)
Theorem references_come_from_sources supplementalText links documents :
  Forall
    (fun entry =>
       Js.length (entry_content entry) <= 6001
       /\ ((exists text,
              option_map trim supplementalText = Some text
              /\ entry = limited (mkText text))
           \/ (exists index doc text,
                 In doc documents
                 /\ extractTextFromDocument index doc = Return text
                 /\ entry = limited (mkFile doc text))
           \/ (exists index link text,
                 In link links
                 /\ fetchLinkContent index link = Return text
                 /\ entry = limited (mkUrl link text))))
    (references (ingestReferences supplementalText links documents)).
Proof.
  apply Forall_forall. intros entry Hin.
  apply references_of_state in Hin.
  assert (Hcases :
    (exists text, option_map trim supplementalText = Some text
                  /\ entry = limited (mkText text))
    \/ (exists index doc text,
          In doc documents
          /\ extractTextFromDocument index doc = Return text
          /\ entry = limited (mkFile doc text))
    \/ (exists index link text,
          In link links
          /\ fetchLinkContent index link = Return text
          /\ entry = limited (mkUrl link text))).
  { apply in_app_or in Hin as [H|H]; [|apply in_app_or in H as [H|H]].
    - left. apply in_map_iff in H as (text & <- & Ht). exists text.
      split; [|reflexivity]. unfold textBlockOf in Ht.
      destruct (option_map trim supplementalText) as [tb|]; [|destruct Ht].
      destruct (Js.truthy tb); [|destruct Ht].
      destruct Ht as [<-|[]]. reflexivity.
    - right. left. now apply loopEntries_from in H.
    - right. right. now apply loopEntries_from in H. }
  split; [|exact Hcases].
  destruct Hcases as [(t & _ & ->)|[(i & d & t & _ & _ & ->)
                                   |(i & l & t & _ & _ & ->)]];
    apply limited_length.
Qed.

Ltac case_if :=
  match goal with
  | |- context [if ?b then _ else _] => destruct b eqn:?
  end.

Lemma thrown_named (prefix name : jsstring) (e : exn) :
  @Throw jsstring (ReferenceIngestionError (prefix ++ name)) = Throw e ->
  exists message, e = ReferenceIngestionError message /\ names message name.
Proof.
  intros H. assert (e = ReferenceIngestionError (prefix ++ name))
    as -> by congruence.
  eexists. split; [reflexivity|]. now exists prefix.
Qed.

Lemma extractTextFromDocument_message index doc e :
  foreign_errors C ->
  extractTextFromDocument index doc = Throw e ->
  exists message, e = ReferenceIngestionError message
                  /\ names message (name doc).
Proof.
  intros (Hpdf & Hword & _). unfold extractTextFromDocument, names.
  cbv zeta.
  case_if; [apply thrown_named|].
  case_if; [apply thrown_named|].
  destruct (isPdf (name doc) (or_empty (type doc))).
  - destruct (PDFParse_getText index _) as [parsed|err] eqn:P;
      cbn [bind try_catch].
    + case_if; cbn [try_catch]; [apply thrown_named|discriminate].
    + destruct err as [m|m|]; cbn [bind try_catch];
        [now apply Hpdf in P|apply thrown_named..].
  - destruct (isDocx (name doc) (or_empty (type doc))).
    + destruct (mammoth_extractRawText index _) as [parsed|err] eqn:P;
        cbn [bind try_catch].
      * case_if; cbn [try_catch]; [apply thrown_named|discriminate].
      * destruct err as [m|m|]; cbn [bind try_catch];
          [now apply Hword in P|apply thrown_named..].
    + cbn [bind try_catch].
      case_if; cbn [try_catch]; [apply thrown_named|discriminate].
Qed.

Lemma fetchLinkContent_message index url e :
  foreign_errors C ->
  fetchLinkContent index url = Throw e ->
  exists message, e = ReferenceIngestionError message /\ names message url.
Proof.
  intros (_ & _ & Hfetch & Htext). unfold fetchLinkContent, names.
  destruct (fetch index url) as [response|err] eqn:F;
    cbn [bind try_catch].
  - destruct (text response) as [html|err] eqn:T; cbn [bind try_catch].
    + destruct (ok response); cbn [negb try_catch].
      * case_if; cbn [try_catch]; [apply thrown_named|discriminate].
      * intros [= <-]. eexists. split; [reflexivity|].
        exists (js "链接响应 " ++ of_Z (status response) ++ js "：").
        now rewrite <- !app_assoc.
    + destruct err as [m|m|]; cbn [bind try_catch];
        [now apply (Htext index url response) in T
        |apply thrown_named..].
  - destruct err as [m|m|]; cbn [bind try_catch];
      [now apply Hfetch in F|apply thrown_named..].
Qed.

Lemma loopErrors_from (A : Type) (f : nat -> A -> outcome jsstring)
    (fallback : A -> jsstring) (l : list A) :
  forall index message,
    In message (loopErrors f fallback l index) ->
    exists i x e,
      In x l /\ f i x = Throw e
      /\ message = match e with
                   | ReferenceIngestionError m => m
                   | _ => fallback x
                   end.
Proof.
  induction l as [|x l IH]; intros index message; cbn; [intros []|].
  intros H. apply in_app_or in H as [H|H].
  - destruct (f index x) as [text|e] eqn:E; [destruct H|].
    exists index, x, e. split; [now left|]. split; [exact E|].
    destruct e; destruct H as [<-|[]]; reflexivity.
  - destruct (IH _ _ H) as (i & y & e & Hy & Hf & He).
    exists i, y, e. auto.
Qed.

Lemma loop_nothing (A : Type) (f : nat -> A -> outcome jsstring)
    (mk : A -> jsstring -> ReferenceEntry) (fallback : A -> jsstring)
    (l : list A) index :
  loopEntries f mk l index = [] -> loopErrors f fallback l index = [] ->
  l = [].
Proof.
  destruct l as [|x l]; [reflexivity|]. cbn.
  destruct (f index x) as [t|[m|m|]]; discriminate.
Qed.

(** X5.  Provided no collaborator throws the route's own class of error,
    every message in the errors of [ingestReferences] ends with the name
    of a submitted document or with a submitted link: the result tells
    which sources failed. *)
Theorem errors_name_their_source supplementalText links documents :
  foreign_errors C ->
  Forall
    (fun message =>
       (exists doc, In doc documents /\ names message (name doc))
       \/ (exists link, In link links /\ names message link))
    (errors (ingestReferences supplementalText links documents)).
Proof.
  intros Hforeign. apply Forall_forall. intros message Hin.
  assert (Hloop :
    In message
       (loopErrors extractTextFromDocument docFallback documents 0
        ++ loopErrors fetchLinkContent linkFallback links 0)).
  { revert Hin. unfold ingestReferences. rewrite ingestState_eq.
    cbn [hadInput st_references partialErrors].
    destruct (nonempty (textBlockOf supplementalText)
              || nonempty documents || nonempty links) eqn:Had;
      cbn [negb]; [|intros []].
    destruct (_ ++ _ ++ _) eqn:E; cbn [errors]; [|auto].
    destruct (loopErrors _ _ documents 0 ++ loopErrors _ _ links 0)
      eqn:Err; [|auto].
    exfalso.
    apply app_eq_nil in E as [Et E]. apply app_eq_nil in E as [Ed El].
    apply app_eq_nil in Err as [Erd Erl].
    apply (loop_nothing _ _ _ docFallback) in Ed; [|exact Erd].
    apply (loop_nothing _ _ _ linkFallback) in El; [|exact Erl].
    subst. destruct (textBlockOf supplementalText); discriminate. }
  apply in_app_or in Hloop as [H|H]; apply loopErrors_from in H
    as (i & x & e & Hx & Hf & ->).
  - left. exists x. split; [exact Hx|].
    now destruct (extractTextFromDocument_message i x e Hforeign Hf)
      as (m & -> & Hm).
  - right. exists x. split; [exact Hx|].
    now destruct (fetchLinkContent_message i x e Hforeign Hf)
      as (m & -> & Hm).
Qed.

(** X6.  The size limits of a document: an empty payload and one of more than
    2 MiB fail whatever the parsers would say, and a document that
    returns a text had a payload within the bounds. *)
Theorem document_size_limits index doc :
  let size := Z.of_nat (List.length (decodeDocumentBuffer (doc_content doc))) in
  (size = 0 ->
     extractTextFromDocument index doc
     = Throw (ReferenceIngestionError (js "文件内容为空：" ++ name doc)))
  /\ (MAX_UPLOAD_BYTES < size ->
        extractTextFromDocument index doc
        = Throw (ReferenceIngestionError
                   (js "文件超过 2MB 限制：" ++ name doc)))
  /\ (forall text,
        extractTextFromDocument index doc = Return text ->
        0 < size <= 2 * 1024 * 1024).
Proof.
  intros size. unfold extractTextFromDocument. fold size. cbv zeta.
  split; [|split].
  - intros ->. reflexivity.
  - intros H. destruct (Z.eqb_spec size 0) as [E|_].
    + unfold MAX_UPLOAD_BYTES in H. lia.
    + rewrite Z.gtb_ltb. now apply Z.ltb_lt in H as ->.
  - intros text. destruct (Z.eqb_spec size 0) as [E|E]; [discriminate|].
    rewrite Z.gtb_ltb.
    destruct (Z.ltb_spec MAX_UPLOAD_BYTES size) as [L|L]; [discriminate|].
    intros _. unfold MAX_UPLOAD_BYTES in L. subst size. lia.
Qed.

End WithCollaborators.

Lemma sampleWorld_foreign chat :
  IngestSpec.foreign_errors (Samples.sampleWorld chat).
Proof.
  repeat split; cbn [Samples.sampleWorld PDFParse_getText
                     mammoth_extractRawText fetch]; intros;
    try discriminate.
  - destruct (Js.eqb _ _); discriminate.
  - destruct (Js.eqb url Samples.reportUrl); [|discriminate].
    assert (response = {| ok := true; status := 200;
                          text := Return (js "annual report") |})
      as -> by congruence.
    discriminate.
Qed.

Lemma errors_name_their_source_witness :
  foreign_errors (Samples.sampleWorld Samples.chatty)
  /\ errors (ingestReferences (C := Samples.sampleWorld Samples.chatty)
               None [js "https://nowhere.example/a"] [Samples.blank])
     = [js "文件内容为空：blank.txt";
        js "无法访问链接：https://nowhere.example/a"]
  /\ Forall
       (fun message =>
          (exists doc, In doc [Samples.blank] /\ names message (name doc))
          \/ (exists link, In link [js "https://nowhere.example/a"]
                           /\ names message link))
       (errors (ingestReferences (C := Samples.sampleWorld Samples.chatty)
                  None [js "https://nowhere.example/a"] [Samples.blank])).
Proof.
  split; [apply sampleWorld_foreign|]. split; [reflexivity|].
  apply (errors_name_their_source
           (C := Samples.sampleWorld Samples.chatty)
           None [js "https://nowhere.example/a"] [Samples.blank]).
  apply sampleWorld_foreign.
Defined.

End IngestProofs.

Module SeriesProofs.

Import Chart ChartSpec SeriesSpec ChartProofs JsFacts.

(** ** Times of a series whose labels all resolve *)

Lemma pushPoint_advancing x v ph lbl st :
  advancing st -> advancing (pushPoint (Finite x) v ph lbl st).
Proof.
  intros (w & Hlast & Hw & Hinc & Hle).
  unfold pushPoint. rewrite Hlast. cbn [ts_leb ts_add].
  set (t' := if x <=? w then w + 24 * 60 * 60 else x).
  assert (Hgt : w < t').
  { subst t'. destruct (Z.leb_spec x w); lia. }
  replace (if x <=? w then Finite (w + 24 * 60 * 60) else Finite x)
    with (Finite t') by (subst t'; now destruct (x <=? w)).
  exists t'. cbn [lastTime points]. split; [reflexivity|].
  split; [lia|].
  rewrite map_app. cbn [map time]. split.
  - apply strictly_increasing_snoc; [exact Hinc|].
    eapply Forall_impl; [|exact Hle].
    intros t (a & -> & Ha). cbn. apply Z.ltb_lt. lia.
  - apply Forall_app. split.
    + eapply Forall_impl; [|exact Hle].
      intros t (a & -> & Ha). exists a. split; [reflexivity|lia].
    + constructor; [|constructor]. exists t'. split; [reflexivity|lia].
Qed.

Lemma pushPoint_advancing_finite t v ph lbl st :
  is_finite t = true -> advancing st -> advancing (pushPoint t v ph lbl st).
Proof.
  destruct t; [intros _|discriminate]. apply pushPoint_advancing.
Qed.

Lemma phaseStep_advancing phases st ph index :
  resolvable ph -> advancing st -> advancing (phaseStep phases st ph index).
Proof.
  intros Hres Hst. unfold phaseStep.
  destruct (Hres (Z.of_nat index)) as [Hs _].
  destruct (Hres (Z.of_nat index + 1)) as [_ He].
  apply pushPoint_advancing_finite; [exact He|].
  destruct index as [|i].
  - now apply pushPoint_advancing_finite.
  - destruct (nth_error phases i) as [prev|]; [|exact Hst].
    destruct (shouldBridge prev ph); [|exact Hst].
    now apply pushPoint_advancing_finite.
Qed.

Lemma forEach_advancing phases l :
  Forall resolvable l ->
  forall index st, advancing st ->
    advancing (forEach_from (phaseStep phases) l index st).
Proof.
  induction 1 as [|ph l Hph _ IH]; intros index st Hst; cbn.
  - exact Hst.
  - apply IH. now apply phaseStep_advancing.
Qed.

(** X7.  When both labels of every phase resolve to a date, the times of the
    points are numbers, positive and strictly increasing: what the chart
    library requires of a series. *)
Theorem resolvable_series_advances phases labelMap :
  Forall resolvable phases ->
  strictly_increasing (map time (buildAreaData phases labelMap)) = true
  /\ Forall (fun t => exists x, t = Finite x /\ 0 < x)
            (map time (buildAreaData phases labelMap)).
Proof.
  intros Hall. unfold buildAreaData.
  destruct phases as [|ph rest] eqn:E; [split; [reflexivity|constructor]|].
  rewrite <- E in *.
  destruct (forEach_advancing phases phases Hall 0
              {| points := []; lastTime := Finite 0; labelMap := labelMap |})
    as (z & _ & _ & Hinc & Hpos).
  - exists 0. cbn. repeat split; try constructor; lia.
  - split; [exact Hinc|].
    eapply Forall_impl; [|exact Hpos].
    intros t (x & -> & Hx). exists x. split; [reflexivity|lia].
Qed.

Lemma resolvable_series_advances_witness :
  Forall resolvable Samples.sixPhases
  /\ strictly_increasing
       (map time (buildAreaData Samples.sixPhases None)) = true
  /\ Forall (fun t => exists x, t = Finite x /\ 0 < x)
            (map time (buildAreaData Samples.sixPhases None)).
Proof.
  split; [exact sixPhases_resolvable|].
  apply (resolvable_series_advances Samples.sixPhases None).
  exact sixPhases_resolvable.
Defined.

(** ** What a point carries *)

Lemma pushPoint_mirrors phases t v ph lbl st :
  In ph phases ->
  (v = clampScore (open ph) \/ v = clampScore (close ph)) ->
  Forall (mirrors phases) (points st) ->
  Forall (mirrors phases) (points (pushPoint t v ph lbl st)).
Proof.
  intros Hin Hv Hst. cbn. apply Forall_app. split; [exact Hst|].
  constructor; [|constructor]. split; assumption.
Qed.

Lemma forEach_mirrors phases l :
  incl l phases ->
  forall index st,
    Forall (mirrors phases) (points st) ->
    Forall (mirrors phases)
           (points (forEach_from (phaseStep phases) l index st)).
Proof.
  induction l as [|ph l IH]; intros Hincl index st Hst; cbn.
  - exact Hst.
  - assert (Hph : In ph phases) by (apply Hincl; now left).
    apply IH; [intros x Hx; apply Hincl; now right|].
    unfold phaseStep.
    apply pushPoint_mirrors; [exact Hph|now right|].
    destruct index as [|i].
    + apply pushPoint_mirrors; [exact Hph|now left|exact Hst].
    + destruct (nth_error phases i) as [prev|]; [|exact Hst].
      destruct (shouldBridge prev ph); [|exact Hst].
      apply pushPoint_mirrors; [exact Hph|now left|exact Hst].
Qed.

(** X8.  Every point refers to one of the phases it was built from, and its
    value is the clamped open or the clamped close of that phase: the
    builder clamps on its own, whatever the axis, so the drawn values
    lie in [0,100] also for phases that were handed over unclamped. *)
Theorem points_mirror_phases phases labelMap :
  Forall
    (fun pt =>
       In (phase pt) phases
       /\ (value pt = clampScore (open (phase pt))
           \/ value pt = clampScore (close (phase pt)))
       /\ in_range (value pt))
    (buildAreaData phases labelMap).
Proof.
  assert (H : Forall (mirrors phases) (buildAreaData phases labelMap)).
  { unfold buildAreaData.
    destruct phases as [|ph0 rest0] eqn:E; [constructor|].
    rewrite <- E. apply forEach_mirrors; [apply incl_refl|constructor]. }
  eapply Forall_impl; [|exact H].
  intros pt [Hin Hv]. split; [exact Hin|]. split; [exact Hv|].
  destruct Hv as [-> | ->]; apply clampScore_in_range.
Qed.

(** ** Number of points *)

Lemma discontinuities_cons a t :
  (discontinuities (a :: t) <= List.length t)%nat.
Proof.
  revert a. induction t as [|b t IH]; intros a; [cbn; lia|].
  change (discontinuities (a :: b :: t))
    with ((if shouldBridge a b then 1 else 0)
          + discontinuities (b :: t))%nat.
  specialize (IH b). cbn [List.length]. destruct (shouldBridge a b); lia.
Qed.

Lemma discontinuities_bound phases :
  (discontinuities phases <= List.length phases - 1)%nat.
Proof.
  destruct phases as [|a t]; [cbn; lia|].
  pose proof (discontinuities_cons a t). cbn [List.length]. lia.
Qed.

(** X9.  The builder emits no point for no phase and otherwise more points
    than phases and at most two for each; one more than phases exactly
    when every phase continues the one before. *)
Theorem point_count_bounds phases labelMap :
  (buildAreaData phases labelMap = [] <-> phases = [])
  /\ (phases <> [] ->
      (List.length phases < List.length (buildAreaData phases labelMap)
       <= 2 * List.length phases)%nat)
  /\ (phases <> [] ->
      (List.length (buildAreaData phases labelMap)
       = S (List.length phases)
       <-> discontinuities phases = 0)%nat).
Proof.
  pose proof (discontinuities_bound phases) as Hd.
  split; [|split].
  - split; [|now intros ->].
    intros H. destruct phases as [|ph rest]; [reflexivity|].
    apply (f_equal (@List.length _)) in H.
    rewrite buildAreaData_length in H by discriminate. discriminate.
  - intros Hne. rewrite buildAreaData_length by exact Hne.
    destruct phases; [congruence|]. cbn [List.length] in *. lia.
  - intros Hne. rewrite buildAreaData_length by exact Hne. lia.
Qed.

(** ** Labels without a digit *)

Lemma search_none (A : Type) (m : jsstring -> option A) (P : N -> Prop) s :
  (forall t, Forall P t -> m t = None) ->
  Forall P s -> search m s = None.
Proof.
  intros Hm. induction 1 as [|c s Hc Hs IH].
  - cbn. now rewrite (Hm []) by constructor.
  - cbn. rewrite (Hm (c :: s)) by now constructor. exact IH.
Qed.

Lemma takeWhile_none_digit s :
  Forall (fun c => is_digit c = false) s ->
  takeWhile is_digit (dropWhile is_ws s) = [].
Proof.
  induction 1 as [|c s Hc Hs IH]; [reflexivity|].
  cbn. destruct (is_ws c); [exact IH|]. cbn. now rewrite Hc.
Qed.

Lemma stripPrefix_ci_Forall (P : N -> Prop) p :
  forall s r, stripPrefix_ci p s = Some r -> Forall P s -> Forall P r.
Proof.
  induction p as [|a p IH]; intros s r; cbn.
  - now intros [= <-].
  - destruct s as [|b s]; [discriminate|].
    destruct (a =? lower b)%N; [|discriminate].
    intros H Hs. apply (IH s r H). now inversion Hs.
Qed.

Lemma firstSome_none (A B : Type) (f : A -> option B) l :
  (forall x, f x = None) -> firstSome f l = None.
Proof.
  intros Hf. induction l as [|x l IH]; [reflexivity|].
  cbn. now rewrite Hf.
Qed.

Lemma digit_free_fallback s index :
  Forall (fun c => is_digit c = false) s ->
  yearToTimestamp (LStr s) index = Finite (index * 86400).
Proof.
  intros Hs. apply (trim_Forall _ s) in Hs.
  unfold yearToTimestamp. cbv zeta.
  rewrite (search_none _ quarter_at (fun c => is_digit c = false)); [|
    |exact Hs].
  2:{ intros t Ht. unfold quarter_at.
      destruct t as [|a [|b [|c [|d rest]]]]; try reflexivity.
      inversion Ht as [|? ? _ Ht1]; subst.
      inversion Ht1 as [|? ? _ Ht2]; subst.
      inversion Ht2 as [|? ? Hc _]; subst.
      rewrite Hc. now rewrite andb_false_r. }
  rewrite (search_none _ year_at (fun c => is_digit c = false)); [|
    |exact Hs].
  2:{ intros t Ht. unfold year_at.
      destruct t as [|a [|b [|c [|d rest]]]]; try reflexivity.
      inversion Ht as [|? ? _ Ht1]; subst.
      inversion Ht1 as [|? ? _ Ht2]; subst.
      inversion Ht2 as [|? ? Hc _]; subst.
      rewrite Hc. now rewrite andb_false_r. }
  rewrite (search_none _ cnOrdinal_at (fun c => is_digit c = false)); [|
    |exact Hs].
  2:{ intros t Ht. unfold cnOrdinal_at. cbv zeta.
      rewrite takeWhile_none_digit; [reflexivity|].
      destruct t as [|c t]; [constructor|].
      destruct (c =? cn_di)%N; [now inversion Ht|exact Ht]. }
  rewrite (search_none _ enOrdinal_at (fun c => is_digit c = false)); [|
    |exact Hs].
  2:{ intros t Ht. unfold enOrdinal_at. apply firstSome_none. intros kw.
      destruct (stripPrefix_ci kw t) as [rest|] eqn:E; [|reflexivity].
      rewrite takeWhile_none_digit; [reflexivity|].
      eapply stripPrefix_ci_Forall; eassumption. }
  rewrite (search_none _ numeric_at (fun c => is_digit c = false)); [|
    |exact Hs].
  2:{ intros t Ht. unfold numeric_at.
      destruct Ht as [|c t Hc _]; [reflexivity|]. cbn. now rewrite Hc. }
  cbn. f_equal. lia.
Qed.

Lemma pushPoint_daily x v ph lbl st :
  daily st ->
  x <= 86400 * Z.of_nat (List.length (points st)) ->
  daily (pushPoint (Finite x) v ph lbl st).
Proof.
  intros [Hlast Htimes] Hx. unfold daily, pushPoint.
  rewrite Hlast. cbn [ts_leb ts_add points lastTime].
  destruct (Z.leb_spec x (86400 * Z.of_nat (List.length (points st))));
    [|lia].
  rewrite length_app. cbn [List.length].
  replace (List.length (points st) + 1)%nat
    with (S (List.length (points st))) by lia.
  split; [f_equal; lia|].
  rewrite map_app, seq_S, map_app, <- Htimes. cbn [map time Nat.add].
  do 2 f_equal. f_equal. lia.
Qed.

Lemma pushPoint_count t v ph lbl st :
  List.length (points (pushPoint t v ph lbl st))
  = S (List.length (points st)).
Proof. cbn. rewrite length_app. cbn. lia. Qed.

Lemma phaseStep_daily phases st ph index :
  digit_free (start_year ph) -> digit_free (end_year ph) ->
  daily st ->
  (index = 0 \/ index + 1 <= List.length (points st))%nat ->
  daily (phaseStep phases st ph index)
  /\ (index + 2 <= List.length (points (phaseStep phases st ph index)))%nat.
Proof.
  intros Hs He Hst Hn. unfold phaseStep. cbv zeta.
  destruct (start_year ph) as [?|s]; [destruct Hs|].
  destruct (end_year ph) as [?|e]; [destruct He|].
  rewrite !digit_free_fallback by assumption.
  cbn [label_text].
  destruct index as [|i].
  - split.
    + apply pushPoint_daily; [apply pushPoint_daily; [exact Hst|lia]|].
      rewrite pushPoint_count. lia.
    + rewrite !pushPoint_count. lia.
  - destruct Hn as [Hn|Hn]; [discriminate|].
    destruct (nth_error phases i) as [prev|].
    + destruct (shouldBridge prev _).
      * split.
        -- apply pushPoint_daily; [apply pushPoint_daily; [exact Hst|lia]|].
           rewrite pushPoint_count. lia.
        -- rewrite !pushPoint_count. lia.
      * split; [apply pushPoint_daily; [exact Hst|lia]|].
        rewrite pushPoint_count. lia.
    + split; [apply pushPoint_daily; [exact Hst|lia]|].
      rewrite pushPoint_count. lia.
Qed.

Lemma forEach_daily phases l :
  Forall (fun ph => digit_free (start_year ph) /\ digit_free (end_year ph))
         l ->
  forall index st,
    daily st ->
    (index = 0 \/ index + 1 <= List.length (points st))%nat ->
    daily (forEach_from (phaseStep phases) l index st).
Proof.
  induction 1 as [|ph l [Hs He] _ IH]; intros index st Hst Hn; cbn.
  - exact Hst.
  - destruct (phaseStep_daily phases st ph index Hs He Hst Hn) as [Hd Hc].
    apply IH; [exact Hd|right; lia].
Qed.

(** X10.  When no label of the phases holds a digit, no rule of
    [yearToTimestamp] applies, every label falls back to its position
    counted in days from 1970, and the guard of the builder moves every
    point one day after the one before: the times of the series are day
    1, day 2, day 3, ... whatever the labels say. *)
Theorem digit_free_series_daily phases labelMap :
  Forall (fun ph => digit_free (start_year ph) /\ digit_free (end_year ph))
         phases ->
  map time (buildAreaData phases labelMap)
  = map (fun k => Finite (86400 * (Z.of_nat k + 1)))
        (seq 0 (List.length (buildAreaData phases labelMap))).
Proof.
  intros Hall. unfold buildAreaData.
  destruct phases as [|ph rest] eqn:E; [reflexivity|]. rewrite <- E in *.
  apply (forEach_daily phases phases Hall 0
           {| points := []; lastTime := Finite 0; labelMap := labelMap |}).
  - split; reflexivity.
  - now left.
Qed.

Lemma digit_free_series_daily_witness :
  Forall (fun ph => digit_free (start_year ph) /\ digit_free (end_year ph))
         acts
  /\ map time (buildAreaData acts None)
     = [Finite 86400; Finite 172800; Finite 259200].
Proof.
  assert (H : Forall (fun ph => digit_free (start_year ph)
                                /\ digit_free (end_year ph)) acts)
    by (repeat constructor).
  split; [exact H|].
  exact (digit_free_series_daily acts None H).
Defined.

(** ** Rounding *)

Lemma two_nonzero : ~ (2 == 0)%Q.
Proof. discriminate. Qed.

Lemma pow2_pos e : (0 < 2 ^ e)%Q.
Proof. apply Qpower_0_lt. reflexivity. Qed.

Lemma pow2_nonzero e : ~ (2 ^ e == 0)%Q.
Proof.
  intros H. pose proof (pow2_pos e) as Hp. rewrite H in Hp.
  exact (Qlt_irrefl _ Hp).
Qed.

Lemma pow2_add a b : (2 ^ (a + b) == 2 ^ a * 2 ^ b)%Q.
Proof. apply Qpower_plus, two_nonzero. Qed.

Lemma pow2_le a b : a <= b -> (2 ^ a <= 2 ^ b)%Q.
Proof. intros H. apply Qpower_le_compat_l; [exact H|discriminate]. Qed.

Lemma pow2_lt a b : a < b -> (2 ^ a < 2 ^ b)%Q.
Proof. intros H. apply Qpower_lt_compat_l; [exact H|reflexivity]. Qed.

Lemma pow2_inject n : 0 <= n -> (inject_Z (2 ^ n) == 2 ^ n)%Q.
Proof. intros H. exact (Zpower_Qpower 2 n H). Qed.

(** [ilog2] is the binary exponent of a positive rational. *)
Lemma ilog2_spec x :
  (0 < x)%Q -> (2 ^ ilog2 x <= x)%Q /\ (x < 2 ^ (ilog2 x + 1))%Q.
Proof.
  intros Hx. destruct x as [n d].
  assert (Hn : 0 < n).
  { unfold Qlt in Hx. cbn in Hx. lia. }
  unfold ilog2. cbn [Qnum Qden].
  set (a := Z.log2 n). set (b := Z.log2 (Z.pos d)).
  destruct (Z.log2_spec n Hn) as [Ha1 Ha2]. fold a in Ha1, Ha2.
  destruct (Z.log2_spec (Z.pos d) ltac:(lia)) as [Hb1 Hb2].
  fold b in Hb1, Hb2.
  assert (Ha0 : 0 <= a) by apply Z.log2_nonneg.
  assert (Hb0 : 0 <= b) by apply Z.log2_nonneg.
  assert (Hupper : (n # d < 2 ^ (a - b + 1))%Q).
  { replace (a - b + 1) with ((a + 1) - b) by lia.
    rewrite (Qpower_minus 2 (a + 1) b two_nonzero).
    apply Qlt_shift_div_l; [apply pow2_pos|].
    rewrite <- (pow2_inject b Hb0), <- (pow2_inject (a + 1)) by lia.
    unfold Qlt, Qmult, inject_Z. cbn [Qnum Qden].
    replace (Z.succ a) with (a + 1) in Ha2 by lia.
    assert (0 < 2 ^ b) by (apply Z.pow_pos_nonneg; lia).
    nia. }
  assert (Hlower : (2 ^ (a - b - 1) < n # d)%Q).
  { replace (a - b - 1) with (a - (b + 1)) by lia.
    rewrite (Qpower_minus 2 a (b + 1) two_nonzero).
    apply Qlt_shift_div_r; [apply pow2_pos|].
    rewrite <- (pow2_inject (b + 1)), <- (pow2_inject a Ha0) by lia.
    unfold Qlt, Qmult, inject_Z. cbn [Qnum Qden].
    replace (Z.succ b) with (b + 1) in Hb2 by lia.
    assert (0 < 2 ^ a) by (apply Z.pow_pos_nonneg; lia).
    nia. }
  destruct (Qle_bool (2 ^ (a - b)) (n # d)) eqn:E.
  - apply Qle_bool_iff in E. split; assumption.
  - split; [now apply Qlt_le_weak|].
    replace (a - b - 1 + 1) with (a - b) by lia.
    apply Qnot_le_lt. intros H. apply Qle_bool_iff in H. congruence.
Qed.

Lemma round_even_floor y : Qfloor y <= round_even y <= Qfloor y + 1.
Proof.
  unfold round_even.
  destruct (y - inject_Z (Qfloor y) ?= 1 # 2)%Q;
    [destruct (Z.even (Qfloor y))| |]; lia.
Qed.

(** Rounding to an integer does not cross an integer. *)
Lemma round_even_le y k : (y <= inject_Z k)%Q -> round_even y <= k.
Proof.
  intros H.
  assert (Hf : Qfloor y <= k).
  { rewrite Zle_Qle. eapply Qle_trans; [apply Qfloor_le|exact H]. }
  destruct (Z.eq_dec (Qfloor y) k) as [E|E].
  - assert (Hy : (y - inject_Z (Qfloor y) <= 0)%Q).
    { rewrite E. lra. }
    unfold round_even.
    destruct (y - inject_Z (Qfloor y) ?= 1 # 2)%Q eqn:C; [| lia |].
    + apply Qeq_alt in C. lra.
    + apply Qgt_alt in C. lra.
  - pose proof (round_even_floor y). lia.
Qed.

Lemma round_even_ge y k : (inject_Z k <= y)%Q -> k <= round_even y.
Proof.
  intros H. apply Qfloor_resp_le in H. rewrite Qfloor_Z in H.
  pose proof (round_even_floor y). lia.
Qed.

Lemma round_positive_eq x :
  (round_positive x
   == inject_Z (round_even (x / 2 ^ Z.max (-1074) (ilog2 x - 52)))
      * 2 ^ Z.max (-1074) (ilog2 x - 52))%Q.
Proof. unfold round_positive. apply Qred_correct. Qed.

(** A double as an integer multiple of a finer unit. *)
Lemma double_on_grid M E e :
  e <= E ->
  (inject_Z M * 2 ^ E == inject_Z (M * 2 ^ (E - e)) * 2 ^ e)%Q.
Proof.
  intros H. rewrite inject_Z_mult, pow2_inject by lia.
  replace E with ((E - e) + e) at 1 by lia. rewrite pow2_add.
  ring.
Qed.

Lemma double_below M E : M < 2 ^ 53 -> (inject_Z M * 2 ^ E < 2 ^ (53 + E))%Q.
Proof.
  intros H. rewrite pow2_add. apply Qmult_lt_compat_r; [apply pow2_pos|].
  rewrite <- pow2_inject by lia. now rewrite <- Zlt_Qlt.
Qed.

(** Rounding a positive number does not cross a double. *)
Lemma round_positive_le x M E :
  (0 < x)%Q -> M < 2 ^ 53 -> -1074 <= E ->
  (x <= inject_Z M * 2 ^ E)%Q ->
  (round_positive x <= inject_Z M * 2 ^ E)%Q.
Proof.
  intros Hx HM HE Hle. rewrite round_positive_eq.
  destruct (ilog2_spec x Hx) as [Hlo _].
  set (e := Z.max (-1074) (ilog2 x - 52)) in *.
  destruct (Z.le_gt_cases e E) as [HeE|HeE].
  - rewrite (double_on_grid M E e HeE) in Hle |- *.
    apply Qmult_le_compat_r; [|apply Qlt_le_weak, pow2_pos].
    rewrite <- Zle_Qle. apply round_even_le.
    apply Qle_shift_div_r; [apply pow2_pos|exact Hle].
  - exfalso. assert (He : e = ilog2 x - 52) by lia.
    pose proof (double_below M E HM) as Hb.
    pose proof (pow2_le (53 + E) (ilog2 x) ltac:(lia)) as Hp.
    lra.
Qed.

Lemma round_positive_ge x M E :
  (0 < x)%Q -> M < 2 ^ 53 -> -1074 <= E ->
  (inject_Z M * 2 ^ E <= x)%Q ->
  (inject_Z M * 2 ^ E <= round_positive x)%Q.
Proof.
  intros Hx HM HE Hle. rewrite round_positive_eq.
  destruct (ilog2_spec x Hx) as [Hlo _].
  set (e := Z.max (-1074) (ilog2 x - 52)) in *.
  destruct (Z.le_gt_cases e E) as [HeE|HeE].
  - rewrite (double_on_grid M E e HeE) in Hle |- *.
    apply Qmult_le_compat_r; [|apply Qlt_le_weak, pow2_pos].
    rewrite <- Zle_Qle. apply round_even_ge.
    apply Qle_shift_div_l; [apply pow2_pos|exact Hle].
  - assert (He : e = ilog2 x - 52) by lia.
    pose proof (double_below M E HM) as Hb.
    pose proof (pow2_le (53 + E) (52 + e) ltac:(lia)) as Hp.
    apply Qle_trans with (2 ^ (52 + e))%Q; [lra|].
    rewrite pow2_add. apply Qmult_le_compat_r;
      [|apply Qlt_le_weak, pow2_pos].
    rewrite <- (pow2_inject 52) by lia. rewrite <- Zle_Qle.
    apply round_even_ge. rewrite pow2_inject by lia.
    apply Qle_shift_div_l; [apply pow2_pos|].
    rewrite <- pow2_add. replace (52 + e) with (ilog2 x) by lia.
    exact Hlo.
Qed.

Lemma is_double_opp a : is_double a -> is_double (- a).
Proof.
  intros (M & E & HM & HE & Ha). exists (- M), E.
  split; [lia|]. split; [exact HE|].
  rewrite Ha, inject_Z_opp. ring.
Qed.

Lemma is_double_zero : is_double 0.
Proof. exists 0, 0. split; [reflexivity|]. split; [lia|reflexivity]. Qed.

Lemma double_not_huge a : is_double a -> (a < 2 ^ 1024)%Q.
Proof.
  intros (M & E & HM & HE & Ha). rewrite Ha.
  eapply Qlt_le_trans; [apply double_below; lia|].
  apply pow2_le. lia.
Qed.

(** Rounding does not cross a double: a result that is no greater than
    a double is rounded to a number no greater than it, and likewise
    from below. *)
Lemma fl_le x a : is_double a -> (x <= a)%Q -> Number_le (fl x) (Fin a).
Proof.
  intros Ha Hle. unfold fl. destruct (x ?= 0)%Q eqn:C.
  - apply Qeq_alt in C. cbn. lra.
  - apply Qlt_alt in C.
    pose proof (is_double_opp a Ha) as (M & E & HM & HE & Hma).
    assert (Hr : (- a <= round_positive (- x))%Q).
    { rewrite Hma. apply round_positive_ge; [lra|lia|lia|].
      rewrite <- Hma. lra. }
    destruct (Qle_bool (2 ^ 1024) (round_positive (- x))); [exact I|].
    unfold Number_le. rewrite Qred_correct. lra.
  - apply Qgt_alt in C.
    pose proof Ha as (M & E & HM & HE & Hma).
    assert (Hr : (round_positive x <= a)%Q).
    { rewrite Hma. apply round_positive_le; [lra|lia|lia|].
      rewrite <- Hma. exact Hle. }
    pose proof (double_not_huge a Ha) as Hh.
    destruct (Qle_bool (2 ^ 1024) (round_positive x)) eqn:O.
    + apply Qle_bool_iff in O. lra.
    + exact Hr.
Qed.

Lemma fl_ge x a : is_double a -> (a <= x)%Q -> Number_le (Fin a) (fl x).
Proof.
  intros Ha Hle. unfold fl. destruct (x ?= 0)%Q eqn:C.
  - apply Qeq_alt in C. cbn. lra.
  - apply Qlt_alt in C.
    pose proof (is_double_opp a Ha) as (M & E & HM & HE & Hma).
    assert (Hr : (round_positive (- x) <= - a)%Q).
    { rewrite Hma. apply round_positive_le; [lra|lia|lia|].
      rewrite <- Hma. lra. }
    pose proof (double_not_huge (- a) (is_double_opp a Ha)) as Hh.
    destruct (Qle_bool (2 ^ 1024) (round_positive (- x))) eqn:O.
    + apply Qle_bool_iff in O. lra.
    + unfold Number_le. rewrite Qred_correct. lra.
  - apply Qgt_alt in C.
    pose proof Ha as (M & E & HM & HE & Hma).
    assert (Hr : (a <= round_positive x)%Q).
    { rewrite Hma. apply round_positive_ge; [lra|lia|lia|].
      rewrite <- Hma. exact Hle. }
    destruct (Qle_bool (2 ^ 1024) (round_positive x)); [exact I|].
    exact Hr.
Qed.

Lemma Number_le_Fin_r a x y :
  Number_le a (Fin x) -> (x <= y)%Q -> Number_le a (Fin y).
Proof.
  destruct a as [q|[|]|]; cbn; intros H Hxy;
    [exact (Qle_trans _ _ _ H Hxy)|exact I|exact H|exact H].
Qed.

Lemma Number_le_Fin_l x y b :
  (x <= y)%Q -> Number_le (Fin y) b -> Number_le (Fin x) b.
Proof.
  destruct b as [q|[|]|]; cbn; intros Hxy H;
    [exact (Qle_trans _ _ _ Hxy H)|exact H|exact I|exact H].
Qed.

Lemma Number_le_through a x b :
  Number_le a (Fin x) -> Number_le (Fin x) b -> Number_le a b.
Proof.
  destruct a as [p|[|]|], b as [q|[|]|]; cbn; intros H1 H2;
    try exact I; try contradiction.
  exact (Qle_trans _ _ _ H1 H2).
Qed.

Lemma or_one_nonneg p : Number_le (Fin 0) p -> Number_le (Fin 0) (or_one p).
Proof.
  destruct p as [q|[|]|]; cbn; intros H; try contradiction; try exact I.
  destruct (Qeq_bool q 0); [discriminate|exact H].
Qed.

Lemma literals_positive :
  (exists c, fl (5 # 100) = Fin c /\ (0 < c)%Q)
  /\ (exists c, fl (8 # 100) = Fin c /\ (0 < c)%Q).
Proof.
  split; eexists; (split; [vm_compute; reflexivity|reflexivity]).
Qed.

Lemma Number_mul_nonneg p c :
  Number_le (Fin 0) p -> (0 < c)%Q ->
  Number_le (Fin 0) (Number_mul p (Fin c)).
Proof.
  intros Hp Hc. destruct p as [q|[|]|]; cbn in Hp; try contradiction.
  - cbn [Number_mul]. apply fl_ge; [apply is_double_zero|].
    apply Qmult_le_0_compat; [exact Hp|now apply Qlt_le_weak].
  - cbn [Number_mul]. apply Qgt_alt in Hc. rewrite Hc. exact I.
Qed.

Lemma Number_sub_le mn p :
  is_double mn -> Number_le (Fin 0) p ->
  Number_le (Number_sub (Fin mn) p) (Fin mn).
Proof.
  intros Hd Hp. destruct p as [q|[|]|]; cbn in Hp; try contradiction.
  - cbn [Number_sub Number_opp Number_add]. apply fl_le; [exact Hd|]. lra.
  - exact I.
Qed.

Lemma Number_add_ge mx p :
  is_double mx -> Number_le (Fin 0) p ->
  Number_le (Fin mx) (Number_add (Fin mx) p).
Proof.
  intros Hd Hp. destruct p as [q|[|]|]; cbn in Hp; try contradiction.
  - cbn [Number_add]. apply fl_ge; [exact Hd|]. lra.
  - exact I.
Qed.

Lemma Number_sub_nonneg mn mx :
  (mn <= mx)%Q -> Number_le (Fin 0) (Number_sub (Fin mx) (Fin mn)).
Proof.
  intros H. cbn [Number_sub Number_opp Number_add].
  apply fl_ge; [apply is_double_zero|]. lra.
Qed.

(** The range of values that are doubles has every value inside. *)
Lemma paddedRange_covers values :
  values <> [] -> Forall is_double values ->
  exists r,
    paddedRange (map Fin values) = Some r
    /\ Forall (fun v => Number_le (min r) (Fin v)
                        /\ Number_le (Fin v) (max r)) values.
Proof.
  intros Hne Hd.
  destruct (paddedRange_spec values Hne)
    as (mn & mx & [Hmn Hleast] & [Hmx Hgreatest] & Hr).
  rewrite Forall_forall in Hd.
  pose proof (Hd _ Hmn) as Hdmn. pose proof (Hd _ Hmx) as Hdmx.
  destruct literals_positive as [(c5 & E5 & Hc5) (c8 & E8 & Hc8)].
  rewrite E5, E8 in Hr.
  assert (Hpad : Number_le (Fin 0)
                   (or_one (Number_mul (Fin (Qabs mn)) (Fin c5)))).
  { apply or_one_nonneg, Number_mul_nonneg; [apply Qabs_nonneg|exact Hc5]. }
  assert (Hgap : Number_le (Fin 0)
                   (or_one (Number_mul (Number_sub (Fin mx) (Fin mn))
                                       (Fin c8)))).
  { apply or_one_nonneg, Number_mul_nonneg; [|exact Hc8].
    apply Number_sub_nonneg.
    rewrite Forall_forall in Hleast. now apply Hleast. }
  eexists. split; [exact Hr|].
  rewrite Forall_forall in Hleast, Hgreatest |- *.
  intros v Hv.
  destruct (Qeq_bool mn mx); cbn [min max]; split.
  - eapply Number_le_Fin_r; [apply Number_sub_le; eassumption|auto].
  - eapply Number_le_Fin_l; [|apply Number_add_ge; eassumption]. auto.
  - eapply Number_le_Fin_r; [apply Number_sub_le; eassumption|auto].
  - eapply Number_le_Fin_l; [|apply Number_add_ge; eassumption]. auto.
Qed.

(** No range for values one of which is not finite. *)
Lemma smaller_finite a b :
  Number_isFinite (smaller a b) = true ->
  (a = Infinity false \/ Number_isFinite a = true)
  /\ (b = Infinity false \/ Number_isFinite b = true).
Proof. destruct a as [p|[|]|], b as [q|[|]|]; cbn; intros H; auto. Qed.

Lemma larger_finite a b :
  Number_isFinite (larger a b) = true ->
  (a = Infinity true \/ Number_isFinite a = true)
  /\ (b = Infinity true \/ Number_isFinite b = true).
Proof. destruct a as [p|[|]|], b as [q|[|]|]; cbn; intros H; auto. Qed.

Lemma Math_min_no_less values :
  Math_min values = Infinity false
  \/ Number_isFinite (Math_min values) = true ->
  Forall (fun v => v = Infinity false \/ Number_isFinite v = true) values.
Proof.
  induction values as [|v t IH]; [constructor|].
  change (Math_min (v :: t)) with (smaller v (Math_min t)).
  intros H.
  assert (Hv : (v = Infinity false \/ Number_isFinite v = true)
               /\ (Math_min t = Infinity false
                   \/ Number_isFinite (Math_min t) = true)).
  { destruct H as [H|H]; [|now apply smaller_finite].
    destruct v as [p|[|]|], (Math_min t) as [q|[|]|]; cbn in H |- *;
      try discriminate; auto. }
  constructor; [apply Hv|apply IH, Hv].
Qed.

Lemma Math_max_no_more values :
  Math_max values = Infinity true
  \/ Number_isFinite (Math_max values) = true ->
  Forall (fun v => v = Infinity true \/ Number_isFinite v = true) values.
Proof.
  induction values as [|v t IH]; [constructor|].
  change (Math_max (v :: t)) with (larger v (Math_max t)).
  intros H.
  assert (Hv : (v = Infinity true \/ Number_isFinite v = true)
               /\ (Math_max t = Infinity true
                   \/ Number_isFinite (Math_max t) = true)).
  { destruct H as [H|H]; [|now apply larger_finite].
    destruct v as [p|[|]|], (Math_max t) as [q|[|]|]; cbn in H |- *;
      try discriminate; auto. }
  constructor; [apply Hv|apply IH, Hv].
Qed.

Lemma paddedRange_finite values r :
  paddedRange values = Some r ->
  Forall (fun v => Number_isFinite v = true) values.
Proof.
  unfold paddedRange. intros H.
  destruct (Number_isFinite (Math_min values)) eqn:Emin;
    [|discriminate].
  destruct (Number_isFinite (Math_max values)) eqn:Emax;
    [|discriminate].
  pose proof (Math_min_no_less values (or_intror Emin)) as Hmin.
  pose proof (Math_max_no_more values (or_intror Emax)) as Hmax.
  rewrite Forall_forall in Hmin, Hmax |- *. intros v Hv.
  destruct (Hmin v Hv) as [E1|Hf]; [|exact Hf].
  destruct (Hmax v Hv) as [E2|Hf]; [congruence|exact Hf].
Qed.

(** ** The range and the values *)

Lemma is_double_integer n : Z.abs n < 2 ^ 53 -> is_double (inject_Z n).
Proof.
  intros H. exists n, 0. split; [exact H|]. split; [lia|].
  change (2 ^ 0)%Q with 1%Q. ring.
Qed.

Lemma is_double_clampScore v : is_double v -> is_double (clampScore v).
Proof.
  intros H. unfold clampScore.
  destruct (Qmin_cases (Qmax v 0) 100) as [[-> _]|[-> _]].
  - destruct (Qmax_cases v 0) as [[-> _]|[-> _]];
      [exact H|apply is_double_zero].
  - apply (is_double_integer 100). reflexivity.
Qed.

Lemma of_doubles_display phases axis :
  of_doubles phases -> of_doubles (displayPhases phases axis).
Proof.
  intros H. unfold displayPhases.
  destruct (shouldClamp axis).
  - rewrite normalizePhases_clamping. unfold of_doubles in *.
    rewrite Forall_forall in H |- *. intros p Hp.
    apply in_map_iff in Hp as (q & <- & Hq). specialize (H q Hq).
    unfold phaseValues in *. cbn [clampPhase with_values open close low high].
    inversion H as [|? ? H1 H']; subst. inversion H' as [|? ? H2 H'']; subst.
    inversion H'' as [|? ? H3 H''']; subst.
    inversion H''' as [|? ? H4 ?]; subst.
    repeat constructor; now apply is_double_clampScore.
  - now rewrite normalizePhases_passthrough.
Qed.

Lemma bounded_covered phases :
  Forall bounded phases ->
  covers {| min := Fin 0; max := Fin 100 |} phases.
Proof.
  intros H. unfold covers. eapply Forall_impl; [|exact H].
  intros p (Ho & Hh & Hl & Hc). unfold phaseValues, in_range in *.
  cbn [min max Number_le]. repeat constructor; tauto.
Qed.

(** The range the page computes: none for no phase; for phases whose
    values are doubles a range that has every displayed value inside,
    the fixed one under a subjective axis. *)
Lemma primaryRange_covers phases axis :
  of_doubles phases ->
  (phases = [] -> primaryRange phases axis = None)
  /\ (phases <> [] ->
      exists r, primaryRange phases axis = Some r
                /\ covers r (displayPhases phases axis)
                /\ (kind_of axis = Some Subjective ->
                    r = {| min := Fin 0; max := Fin 100 |})).
Proof.
  intros Hd. split; [intros ->; reflexivity|]. intros Hne.
  apply (of_doubles_display phases axis) in Hd.
  assert (Hne' : displayPhases phases axis <> []).
  { unfold displayPhases. destruct (shouldClamp axis).
    - rewrite normalizePhases_clamping.
      destruct phases; [congruence|discriminate].
    - now rewrite normalizePhases_passthrough. }
  unfold primaryRange. rewrite computePhaseRange_by_kind by exact Hne'.
  destruct (kind_of axis) as [[|]|] eqn:Hk.
  - eexists. split; [reflexivity|]. split; [|reflexivity].
    apply bounded_covered.
    now apply (proj1 (displayPhases_by_axis_kind phases axis)).
  - destruct (paddedRange_covers (valuesOf (displayPhases phases axis)))
      as (r & Hr & Hall).
    + now apply valuesOf_nonempty.
    + apply Forall_flat_map. exact Hd.
    + exists r. split; [exact Hr|]. split; [|discriminate].
      apply Forall_flat_map in Hall. exact Hall.
  - destruct (paddedRange_covers (valuesOf (displayPhases phases axis)))
      as (r & Hr & Hall).
    + now apply valuesOf_nonempty.
    + apply Forall_flat_map. exact Hd.
    + exists r. split; [exact Hr|]. split; [|discriminate].
      apply Forall_flat_map in Hall. exact Hall.
Qed.

Lemma covers_ordered r phases :
  phases <> [] -> covers r phases -> Number_le (min r) (max r).
Proof.
  intros Hne H. destruct phases as [|p t]; [congruence|].
  inversion H as [|? ? Hp _]; subst.
  inversion Hp as [|? ? [H1 H2] _]; subst.
  eapply Number_le_through; eassumption.
Qed.

(** ** Normalization *)

Lemma clampScore_idempotent v : clampScore (clampScore v) = clampScore v.
Proof.
  unfold clampScore, Qmin, Qmax, GenericMinMax.gmin, GenericMinMax.gmax.
  destruct (v ?= 0)%Q eqn:E1; [| reflexivity |];
    (destruct (v ?= 100)%Q eqn:E2; [| | reflexivity];
     now rewrite E1, E2).
Qed.

Lemma clampScore_fixed v : in_range v -> (clampScore v == v)%Q.
Proof.
  intros [Hlo Hhi]. unfold clampScore.
  rewrite Q.max_l by exact Hlo. now rewrite Q.min_l.
Qed.

Lemma clampPhase_idempotent p : clampPhase (clampPhase p) = clampPhase p.
Proof.
  unfold clampPhase, with_values. cbn.
  now rewrite !clampScore_idempotent.
Qed.

(** X11.  Normalizing twice is normalizing once; normalization keeps the
    number and the order of the phases and every field but the four
    values; with clamping each value is replaced by the nearest value in
    [0,100], which is the value itself when it lies in that range;
    without clamping the phases come back as they were. *)
Theorem normalizePhases_idempotent phases clampToHundred :
  normalizePhases (Some (normalizePhases (Some phases) clampToHundred))
                  clampToHundred
  = normalizePhases (Some phases) clampToHundred
  /\ map frame (normalizePhases (Some phases) clampToHundred)
     = map frame phases
  /\ (clampToHundred = true ->
      Forall bounded (normalizePhases (Some phases) clampToHundred)
      /\ (Forall bounded phases ->
          Forall2 (fun p q => (open p == open q)%Q /\ (high p == high q)%Q
                              /\ (low p == low q)%Q
                              /\ (close p == close q)%Q)
                  (normalizePhases (Some phases) clampToHundred) phases))
  /\ (clampToHundred = false ->
      normalizePhases (Some phases) clampToHundred = phases).
Proof.
  destruct clampToHundred.
  - rewrite !normalizePhases_clamping. split; [|split; [|split]].
    + rewrite map_map. apply map_ext. apply clampPhase_idempotent.
    + rewrite map_map. now apply map_ext.
    + intros _. split.
      * apply Forall_map, Forall_forall. intros p _.
        apply clampPhase_bounded.
      * induction 1 as [|p t (Ho & Hh & Hl & Hc) _ IH]; cbn [map];
          constructor; [|exact IH].
        cbn. repeat split; now apply clampScore_fixed.
    + discriminate.
  - rewrite !normalizePhases_passthrough. repeat split; discriminate.
Qed.

(** ** Years given as numbers *)

Lemma DayFromYear_step y : DayFromYear y + 365 <= DayFromYear (y + 1).
Proof. unfold DayFromYear. Z.div_mod_to_equations. lia. Qed.

Lemma DayFromYear_increasing y y' :
  y < y' -> DayFromYear y < DayFromYear y'.
Proof.
  intros H. pose proof (DayFromYear_step y).
  pose proof (DayFromYear_monotone (y + 1) y' ltac:(lia)). lia.
Qed.

Lemma MakeDay_january y : MakeDay y 0 1 = DayFromYear y.
Proof.
  unfold MakeDay. change (0 / 12) with 0. change (0 mod 12) with 0.
  replace (y + 0) with y by lia.
  assert (DayWithinYear (InLeapYear y) 0 = 0) by now destruct (InLeapYear y).
  lia.
Qed.

Lemma january_in_range y :
  firstYear <= y <= lastYear ->
  seconds (TimeClip (MakeDay y 0 1 * msPerDay)) = Finite (yearStart y).
Proof.
  unfold firstYear, lastYear. intros Hy. rewrite MakeDay_january.
  pose proof (DayFromYear_monotone (-271820) y ltac:(lia)) as Hlo.
  pose proof (DayFromYear_monotone y 275760 ltac:(lia)) as Hhi.
  change (DayFromYear (-271820)) with (-99999744) in Hlo.
  change (DayFromYear 275760) with 99999744 in Hhi.
  unfold TimeClip, msPerDay, yearStart. rewrite Z.gtb_ltb.
  destruct (Z.ltb_spec 8640000000000000 (Z.abs (DayFromYear y * 86400000)));
    [lia|].
  cbn [seconds ts_div]. f_equal. Z.div_mod_to_equations. lia.
Qed.

Lemma january_out_of_range y :
  y < firstYear \/ lastYear < y ->
  seconds (TimeClip (MakeDay y 0 1 * msPerDay)) = NaN.
Proof.
  unfold firstYear, lastYear. intros Hy. rewrite MakeDay_january.
  assert (H : DayFromYear y <= -100000109 \/ 100000110 <= DayFromYear y).
  { destruct Hy as [Hy|Hy].
    - left. pose proof (DayFromYear_monotone y (-271821) ltac:(lia)) as H.
      change (DayFromYear (-271821)) with (-100000109) in H. exact H.
    - right. pose proof (DayFromYear_monotone 275761 y ltac:(lia)) as H.
      change (DayFromYear 275761) with 100000110 in H. exact H. }
  unfold TimeClip, msPerDay. rewrite Z.gtb_ltb.
  destruct (Z.ltb_spec 8640000000000000 (Z.abs (DayFromYear y * 86400000)));
    [reflexivity|lia].
Qed.

(** X12.  A label that is a number [n] stands for 1 January of the year [n]
    at 00:00 UTC, with the exceptions of [Date.UTC]: a number from 0 to
    99 stands for the year 1900 + [n], so that two different labels
    get one timestamp, and a year before -271820 or after 275760 has no
    timestamp.  Within the range the order of the labels is the order
    of the timestamps.  The position of the phase plays no part. *)
Theorem numeric_label_timestamp n index :
  (0 <= n <= 99 ->
   yearToTimestamp (LNum n) index = Finite (yearStart (1900 + n))
   /\ yearToTimestamp (LNum n) index
      = yearToTimestamp (LNum (1900 + n)) index)
  /\ (firstYear <= n < 0 \/ 100 <= n <= lastYear ->
      yearToTimestamp (LNum n) index = Finite (yearStart n))
  /\ (n < firstYear \/ lastYear < n ->
      yearToTimestamp (LNum n) index = NaN)
  /\ (forall m, n < m -> yearStart n < yearStart m).
Proof.
  unfold yearToTimestamp, Date_UTC. cbv zeta. split; [|split; [|split]].
  - intros Hn.
    replace ((0 <=? n) && (n <=? 99)) with true
      by (symmetry; apply andb_true_iff; split; apply Z.leb_le; lia).
    replace ((0 <=? 1900 + n) && (1900 + n <=? 99)) with false
      by (symmetry; apply andb_false_iff; right; apply Z.leb_gt; lia).
    split; [|reflexivity].
    apply january_in_range. unfold firstYear, lastYear. lia.
  - intros Hn.
    replace ((0 <=? n) && (n <=? 99)) with false.
    + apply january_in_range. unfold firstYear, lastYear in *. lia.
    + symmetry. apply andb_false_iff.
      destruct Hn as [Hn|Hn]; [left|right]; apply Z.leb_gt; lia.
  - intros Hn.
    replace ((0 <=? n) && (n <=? 99)) with false.
    + now apply january_out_of_range.
    + symmetry. apply andb_false_iff. unfold firstYear, lastYear in Hn.
      destruct Hn as [Hn|Hn]; [left|right]; apply Z.leb_gt; lia.
  - intros m Hm. unfold yearStart.
    pose proof (DayFromYear_increasing n m Hm). lia.
Qed.

End SeriesProofs.

Module PanelProofs.

Import Chart ChartSpec SeriesSpec Panel PanelSpec ChartProofs SeriesProofs.

(** ** The year of a time *)

Lemma DayFromYear_mean y :
  146097 * (y - 1970) - 800 <= 400 * DayFromYear y
  <= 146097 * (y - 1970) + 800.
Proof. unfold DayFromYear. Z.div_mod_to_equations. lia. Qed.

(** [YearFromTime] is the function ECMAScript specifies: the year
    in which the day of [t] falls. *)
Lemma YearFromTime_spec t :
  DayFromYear (YearFromTime t) <= t / msPerDay
  < DayFromYear (YearFromTime t + 1).
Proof.
  unfold YearFromTime. cbv zeta.
  set (day := t / msPerDay).
  set (y := 1970 + 400 * day / 146097).
  assert (Hy : 146097 * (y - 1970) <= 400 * day
               < 146097 * (y - 1970) + 146097).
  { subst y. Z.div_mod_to_equations. lia. }
  pose proof (DayFromYear_mean (y - 1)) as Hm1.
  pose proof (DayFromYear_mean (y + 1 + 1)) as Hp2.
  destruct (Z.leb_spec (DayFromYear (y + 1)) day) as [H1|H1]; [lia|].
  destruct (Z.ltb_spec day (DayFromYear y)) as [H2|H2].
  - replace (y - 1 + 1) with y by lia. lia.
  - lia.
Qed.

Lemma YearFromTime_unique t y :
  DayFromYear y <= t / msPerDay < DayFromYear (y + 1) ->
  YearFromTime t = y.
Proof.
  intros Hy. pose proof (YearFromTime_spec t) as Hs.
  destruct (Z.lt_trichotomy (YearFromTime t) y) as [H|[H|H]];
    [|exact H|].
  - pose proof (DayFromYear_monotone (YearFromTime t + 1) y ltac:(lia)).
    lia.
  - pose proof (DayFromYear_monotone (y + 1) (YearFromTime t) ltac:(lia)).
    lia.
Qed.

Lemma getUTCFullYear_yearStart y :
  firstYear <= y <= lastYear ->
  getUTCFullYear (Finite (yearStart y)) = Some y.
Proof.
  unfold firstYear, lastYear. intros Hy. unfold getUTCFullYear, yearStart.
  pose proof (DayFromYear_monotone (-271820) y ltac:(lia)) as Hlo.
  pose proof (DayFromYear_monotone y 275760 ltac:(lia)) as Hhi.
  change (DayFromYear (-271820)) with (-99999744) in Hlo.
  change (DayFromYear 275760) with 99999744 in Hhi.
  unfold TimeClip. rewrite Z.gtb_ltb.
  destruct (Z.ltb_spec 8640000000000000
              (Z.abs (DayFromYear y * 86400 * 1000))); [lia|].
  f_equal. apply YearFromTime_unique.
  pose proof (DayFromYear_step y).
  replace (DayFromYear y * 86400 * 1000 / msPerDay) with (DayFromYear y).
  - lia.
  - unfold msPerDay. Z.div_mod_to_equations. lia.
Qed.

Lemma getUTCFullYear_within y d :
  firstYear <= y < lastYear -> 0 <= d < 365 ->
  getUTCFullYear (Finite ((DayFromYear y + d) * 86400)) = Some y.
Proof.
  unfold firstYear, lastYear. intros Hy Hd. unfold getUTCFullYear.
  pose proof (DayFromYear_monotone (-271820) y ltac:(lia)) as Hlo.
  pose proof (DayFromYear_monotone (y + 1) 275760 ltac:(lia)) as Hhi.
  pose proof (DayFromYear_step y) as Hstep.
  change (DayFromYear (-271820)) with (-99999744) in Hlo.
  change (DayFromYear 275760) with 99999744 in Hhi.
  unfold TimeClip. rewrite Z.gtb_ltb.
  destruct (Z.ltb_spec 8640000000000000
              (Z.abs ((DayFromYear y + d) * 86400 * 1000))); [lia|].
  f_equal. apply YearFromTime_unique.
  replace ((DayFromYear y + d) * 86400 * 1000 / msPerDay)
    with (DayFromYear y + d).
  - lia.
  - unfold msPerDay. Z.div_mod_to_equations. lia.
Qed.

Lemma Date_UTC_quarter y m :
  100 <= y < lastYear -> (m = 0 \/ m = 3 \/ m = 6 \/ m = 9) ->
  exists d, 0 <= d < 365
    /\ seconds (Date_UTC y m) = Finite ((DayFromYear y + d) * 86400).
Proof.
  unfold lastYear. intros Hy Hm. unfold Date_UTC.
  replace ((0 <=? y) && (y <=? 99)) with false
    by (symmetry; apply andb_false_iff; right; apply Z.leb_gt; lia).
  exists (DayWithinYear (InLeapYear y) m).
  assert (Hd : 0 <= DayWithinYear (InLeapYear y) m < 365)
    by (destruct Hm as [-> | [-> | [-> | ->]]];
        destruct (InLeapYear y); cbn; lia).
  split; [exact Hd|].
  assert (Hday : MakeDay y m 1 = DayFromYear y + DayWithinYear (InLeapYear y) m).
  { unfold MakeDay.
    assert (Hq : m / 12 = 0 /\ m mod 12 = m)
      by (destruct Hm as [-> | [-> | [-> | ->]]]; now vm_compute).
    destruct Hq as [-> ->]. replace (y + 0) with y by lia. lia. }
  rewrite Hday.
  pose proof (DayFromYear_monotone 100 y ltac:(lia)) as Hlo.
  pose proof (DayFromYear_monotone (y + 1) 275760 ltac:(lia)) as Hhi.
  pose proof (DayFromYear_step y) as Hstep.
  change (DayFromYear 100) with (-683003) in Hlo.
  change (DayFromYear 275760) with 99999744 in Hhi.
  unfold TimeClip, msPerDay. rewrite Z.gtb_ltb.
  destruct (Z.ltb_spec 8640000000000000
              (Z.abs ((DayFromYear y + DayWithinYear (InLeapYear y) m)
                      * 86400000))); [lia|].
  cbn [seconds ts_div]. f_equal. Z.div_mod_to_equations. lia.
Qed.

Lemma defaultTimeLabel_in_year y m :
  100 <= y < lastYear -> (m = 0 \/ m = 3 \/ m = 6 \/ m = 9) ->
  defaultTimeLabel (TimeNumber (seconds (Date_UTC y m)))
  = if (2000 <=? y) && (y <=? 2100) then seasonText (y - 1999)
    else if y =? 1970 then []
    else yearText y.
Proof.
  intros Hy Hm. destruct (Date_UTC_quarter y m Hy Hm) as (d & Hd & ->).
  unfold defaultTimeLabel.
  rewrite getUTCFullYear_within; [reflexivity| |exact Hd].
  unfold firstYear, lastYear in *. lia.
Qed.

(** X13.  The default label of a tick, which the formatter uses where the
    map holds no label.  At the time of an ordinal label it names the
    next ordinal: season [n] is filed under 1 January of the year
    2000 + [n], and the formatter calls that year season
    [year - 1999], which is [n + 1]; beyond 100 it names the synthetic
    year.  At the time of a label that holds a year it takes a year
    from 2000 on for a season and calls it [year - 1999]; 1970 gets no
    label; an earlier year is named as a year. *)
Theorem default_tick_labels s index :
  (forall n,
     ordinalOf s = Some n ->
     (n <= 100 ->
      defaultTimeLabel (TimeNumber (yearToTimestamp (LStr s) index))
      = seasonText (n + 1))
     /\ (100 < n < 273760 ->
         defaultTimeLabel (TimeNumber (yearToTimestamp (LStr s) index))
         = yearText (2000 + n)))
  /\ (forall y m,
        realYearOf s = Some (y, m) ->
        defaultTimeLabel (TimeNumber (yearToTimestamp (LStr s) index))
        = if 2000 <=? y then seasonText (y - 1999)
          else if y =? 1970 then []
          else yearText y).
Proof.
  split.
  - intros n Hs. pose proof (ordinalOf_nonneg s n Hs) as Hn.
    rewrite (ordinalOf_timestamp s n index Hs).
    split; intros Hr.
    + rewrite defaultTimeLabel_in_year; [|unfold lastYear; lia|now left].
      replace ((2000 <=? 2000 + n) && (2000 + n <=? 2100)) with true
        by (symmetry; apply andb_true_iff; split; apply Z.leb_le; lia).
      f_equal. lia.
    + rewrite defaultTimeLabel_in_year; [|unfold lastYear; lia|now left].
      replace ((2000 <=? 2000 + n) && (2000 + n <=? 2100)) with false
        by (symmetry; apply andb_false_iff; right; apply Z.leb_gt; lia).
      replace (2000 + n =? 1970) with false
        by (symmetry; apply Z.eqb_neq; lia).
      reflexivity.
  - intros y m Hs. rewrite (realYearOf_timestamp s y m index Hs).
    apply realYearOf_range in Hs as [Hy Hm].
    rewrite defaultTimeLabel_in_year; [|unfold lastYear; lia|exact Hm].
    destruct (Z.leb_spec 2000 y); [|reflexivity].
    now replace (y <=? 2100) with true by (symmetry; apply Z.leb_le; lia).
Qed.

Lemma default_tick_labels_witness :
  ordinalOf (js "第5季") = Some 5
  /\ defaultTimeLabel (TimeNumber (yearToTimestamp (LStr (js "第5季")) 0))
     = js "6季"
  /\ realYearOf (js "1999Q3") = Some (1999, 6)
  /\ defaultTimeLabel (TimeNumber (yearToTimestamp (LStr (js "1999Q3")) 0))
     = js "1999年".
Proof.
  split; [reflexivity|]. split.
  - destruct (default_tick_labels (js "第5季") 0) as [H _].
    destruct (H 5 eq_refl) as [H5 _]. apply H5. lia.
  - split; [reflexivity|].
    destruct (default_tick_labels (js "1999Q3") 0) as [_ H].
    exact (H 1999 6 eq_refl).
Defined.

(** ** The label map *)

Lemma ts_same_eq a b : ts_same a b = true <-> a = b.
Proof.
  destruct a as [x|], b as [y|]; cbn; split; try congruence;
    try discriminate.
  - intros H. apply Z.eqb_eq in H. now subst.
  - intros [= ->]. apply Z.eqb_refl.
Qed.

Lemma Map_get_set_same m k v : Map_get (Map_set m k v) k = Some v.
Proof.
  assert (Hk : ts_same k k = true) by now apply ts_same_eq.
  induction m as [|[k' v'] m IH]; cbn.
  - now rewrite Hk.
  - destruct (ts_same k k') eqn:E; cbn; [now rewrite Hk|].
    now rewrite E.
Qed.

Lemma Map_get_set_other m k v k' :
  k' <> k -> Map_get (Map_set m k v) k' = Map_get m k'.
Proof.
  intros Hne.
  assert (Hk : ts_same k' k = false).
  { destruct (ts_same k' k) eqn:E; [|reflexivity].
    now apply ts_same_eq in E. }
  induction m as [|[k0 v0] m IH]; cbn.
  - now rewrite Hk.
  - destruct (ts_same k k0) eqn:E; cbn.
    + apply ts_same_eq in E. subst k0. now rewrite Hk.
    + now rewrite IH.
Qed.

Lemma Map_set_fresh m k v :
  Forall (fun e => fst e <> k) m -> Map_set m k v = m ++ [(k, v)].
Proof.
  induction 1 as [|[k' v'] m Hk _ IH]; [reflexivity|].
  cbn. destruct (ts_same k k') eqn:E.
  - apply ts_same_eq in E. cbn in Hk. congruence.
  - now rewrite IH.
Qed.

Lemma pushPoint_filed x v ph lbl st :
  (lbl = label_text (start_year ph) \/ lbl = label_text (end_year ph)) ->
  filed st -> filed (pushPoint (Finite x) v ph lbl st).
Proof.
  intros Hlbl [Hadv (m & Hm & Hall)].
  split; [now apply pushPoint_advancing|].
  destruct Hadv as (w & Hlast & Hw & Hinc & Hle).
  unfold pushPoint. rewrite Hlast, Hm. cbn [ts_leb ts_add option_map].
  set (t' := if x <=? w then w + 24 * 60 * 60 else x).
  assert (Hgt : w < t').
  { subst t'. destruct (Z.leb_spec x w); lia. }
  replace (if x <=? w then Finite (w + 24 * 60 * 60) else Finite x)
    with (Finite t') by (subst t'; now destruct (x <=? w)).
  cbn [points labelMap]. eexists. split; [reflexivity|].
  rewrite Map_set_fresh.
  - apply Forall2_app; [exact Hall|].
    constructor; [|constructor]. split; [reflexivity|exact Hlbl].
  - clear - Hall Hle Hgt. revert Hle.
    induction Hall as [|pt e pts m' [Hfst _] _ IH]; intros Hle;
      [constructor|].
    cbn [map] in Hle. inversion Hle as [|? ? (a & Ha & Hr) Hle']; subst.
    constructor; [|now apply IH].
    rewrite Hfst, Ha. intros [= ->]. lia.
Qed.

Lemma pushPoint_filed_finite t v ph lbl st :
  is_finite t = true ->
  (lbl = label_text (start_year ph) \/ lbl = label_text (end_year ph)) ->
  filed st -> filed (pushPoint t v ph lbl st).
Proof.
  destruct t; [intros _|discriminate]. apply pushPoint_filed.
Qed.

Lemma phaseStep_filed phases st ph index :
  resolvable ph -> filed st -> filed (phaseStep phases st ph index).
Proof.
  intros Hres Hst. unfold phaseStep.
  destruct (Hres (Z.of_nat index)) as [Hs _].
  destruct (Hres (Z.of_nat index + 1)) as [_ He].
  apply pushPoint_filed_finite; [exact He|now right|].
  destruct index as [|i].
  - apply pushPoint_filed_finite; [exact Hs|now left|exact Hst].
  - destruct (nth_error phases i) as [prev|]; [|exact Hst].
    destruct (shouldBridge prev ph); [|exact Hst].
    apply pushPoint_filed_finite; [exact Hs|now left|exact Hst].
Qed.

Lemma forEach_filed phases l :
  Forall resolvable l ->
  forall index st, filed st ->
    filed (forEach_from (phaseStep phases) l index st).
Proof.
  induction 1 as [|ph l Hph _ IH]; intros index st Hst; cbn.
  - exact Hst.
  - apply IH. now apply phaseStep_filed.
Qed.

Lemma filed_lookup st m :
  filed st -> labelMap st = Some m ->
  Forall (fun entry => Map_get m (fst entry) = Some (snd entry)) m.
Proof.
  intros [(w & _ & _ & Hinc & Hle) (m' & Hm & Hall)] Hm'.
  assert (m' = m) by congruence. subst m'. clear Hm Hm'.
  assert (Hkeys : map fst m = map time (points st)).
  { clear - Hall. induction Hall as [|pt e pts m' [Hfst _] _ IH];
      [reflexivity|]. cbn. now rewrite Hfst, IH. }
  rewrite <- Hkeys in Hinc, Hle. clear Hkeys Hall.
  induction m as [|[k v] m IH]; [constructor|].
  cbn [map fst] in *.
  inversion Hle as [|? ? (a & -> & Ha) Hle']; subst.
  assert (Hrest : strictly_increasing (map fst m) = true
                  /\ Forall (fun t => exists x, t = Finite x /\ a < x)
                            (map fst m)).
  { clear IH Hle. revert a Ha Hinc Hle'.
    induction m as [|[k' v'] m IHm]; intros a Ha Hinc Hle';
      [split; [reflexivity|constructor]|].
    cbn [map fst] in *.
    apply andb_true_iff in Hinc as [Hlt Hinc].
    inversion Hle' as [|? ? (b & -> & Hb) Hle'']; subst.
    cbn in Hlt. apply Z.ltb_lt in Hlt.
    split; [exact Hinc|].
    constructor; [exists b; split; [reflexivity|exact Hlt]|].
    destruct (IHm b Hb Hinc Hle'') as [_ Hall].
    eapply Forall_impl; [|exact Hall].
    intros t (x & -> & Hx). exists x. split; [reflexivity|lia]. }
  destruct Hrest as [Hinc' Hgt].
  constructor.
  - cbn. now rewrite Z.eqb_refl.
  - specialize (IH Hinc' Hle').
    rewrite Forall_forall in IH, Hgt. apply Forall_forall.
    intros [k' v'] Hin. cbn [fst snd].
    destruct (Hgt k') as (x & -> & Hx); [now apply (in_map fst) in Hin|].
    cbn [Map_get ts_same].
    replace (x =? a) with false by (symmetry; apply Z.eqb_neq; lia).
    exact (IH _ Hin).
Qed.

(** X14.  When both labels of every phase resolve to a date, the map that
    the builder fills holds exactly one entry for each point, in the
    order of the points, filed under the time of the point and holding
    the start or the end label of the phase of the point; looking a
    time of the map up gives that label back, and the tick formatter
    shows it unless it is empty. *)
Theorem labels_follow_points phases :
  Forall resolvable phases ->
  Forall2 labelled (buildAreaData phases (Some [])) (labelsAfter phases [])
  /\ Forall
       (fun entry =>
          Map_get (labelsAfter phases []) (fst entry) = Some (snd entry)
          /\ (Js.truthy (snd entry) = true ->
              tickMarkFormatter (labelsAfter phases [])
                                (TimeNumber (fst entry))
              = snd entry))
       (labelsAfter phases []).
Proof.
  intros Hall.
  assert (Hfiled : filed (buildAreaData_state phases (Some []))).
  { apply forEach_filed; [exact Hall|]. split.
    - exists 0. cbn. repeat split; try constructor; lia.
    - exists []. split; [reflexivity|constructor]. }
  pose proof Hfiled as [_ (m & Hm & Hpts)].
  assert (Hlabels : labelsAfter phases [] = m)
    by (unfold labelsAfter; unfold LabelMap in *; now rewrite Hm).
  rewrite Hlabels. split.
  - unfold buildAreaData. destruct phases as [|ph rest] eqn:E; [|exact Hpts].
    cbn in Hm. injection Hm as <-. constructor.
  - pose proof (filed_lookup _ m Hfiled Hm) as Hget.
    eapply Forall_impl; [|exact Hget].
    intros entry He. split; [exact He|].
    intros Ht. unfold tickMarkFormatter. now rewrite He, Ht.
Qed.

Lemma labels_follow_points_witness :
  Forall resolvable Samples.sixPhases
  /\ Forall2 labelled (buildAreaData Samples.sixPhases (Some []))
             (labelsAfter Samples.sixPhases [])
  /\ Forall
       (fun entry =>
          Map_get (labelsAfter Samples.sixPhases []) (fst entry)
          = Some (snd entry)
          /\ (Js.truthy (snd entry) = true ->
              tickMarkFormatter (labelsAfter Samples.sixPhases [])
                                (TimeNumber (fst entry))
              = snd entry))
       (labelsAfter Samples.sixPhases []).
Proof.
  split; [exact sixPhases_resolvable|].
  apply (labels_follow_points Samples.sixPhases).
  exact sixPhases_resolvable.
Defined.

(** ** One map for two series *)

Lemma pushPoint_alongside m0 t v ph lbl st' st :
  alongside m0 st' st ->
  alongside m0 (pushPoint t v ph lbl st') (pushPoint t v ph lbl st).
Proof.
  intros (Hpts & Hlast & own & m & Hown & Hm & Hover).
  unfold pushPoint. rewrite Hpts, Hlast, Hown, Hm.
  cbn [points lastTime labelMap option_map].
  split; [reflexivity|]. split; [reflexivity|].
  eexists. eexists. split; [reflexivity|]. split; [reflexivity|].
  set (t' := if ts_leb t (lastTime st') then _ else t).
  intros k.
  destruct (ts_same k t') eqn:E.
  - apply ts_same_eq in E. subst k. now rewrite !Map_get_set_same.
  - assert (k <> t') by (intros ->; now rewrite (proj2 (ts_same_eq _ _)) in E).
    rewrite !Map_get_set_other by assumption. apply Hover.
Qed.

Lemma phaseStep_alongside m0 phases st' st ph index :
  alongside m0 st' st ->
  alongside m0 (phaseStep phases st' ph index)
            (phaseStep phases st ph index).
Proof.
  intros H. unfold phaseStep. apply pushPoint_alongside.
  destruct index as [|i].
  - now apply pushPoint_alongside.
  - destruct (nth_error phases i) as [prev|]; [|exact H].
    destruct (shouldBridge prev ph); [|exact H].
    now apply pushPoint_alongside.
Qed.

Lemma forEach_alongside m0 phases l :
  forall index st' st,
    alongside m0 st' st ->
    alongside m0 (forEach_from (phaseStep phases) l index st')
              (forEach_from (phaseStep phases) l index st).
Proof.
  induction l as [|ph l IH]; intros index st' st H; cbn; [exact H|].
  apply IH. now apply phaseStep_alongside.
Qed.

Lemma pushPoint_mapless t v ph lbl st' st :
  mapless st' st ->
  mapless (pushPoint t v ph lbl st') (pushPoint t v ph lbl st).
Proof.
  intros (Hpts & Hlast & Hnone). unfold pushPoint, mapless.
  rewrite Hpts, Hlast, Hnone. cbn. auto.
Qed.

Lemma phaseStep_mapless phases st' st ph index :
  mapless st' st ->
  mapless (phaseStep phases st' ph index) (phaseStep phases st ph index).
Proof.
  intros H. unfold phaseStep. apply pushPoint_mapless.
  destruct index as [|i].
  - now apply pushPoint_mapless.
  - destruct (nth_error phases i) as [prev|]; [|exact H].
    destruct (shouldBridge prev ph); [|exact H].
    now apply pushPoint_mapless.
Qed.

Lemma forEach_mapless phases l :
  forall index st' st,
    mapless st' st ->
    mapless (forEach_from (phaseStep phases) l index st')
            (forEach_from (phaseStep phases) l index st).
Proof.
  induction l as [|ph l IH]; intros index st' st H; cbn; [exact H|].
  apply IH. now apply phaseStep_mapless.
Qed.

Lemma buildAreaData_any_map phases labelMap :
  buildAreaData phases labelMap = buildAreaData phases None.
Proof.
  unfold buildAreaData. destruct phases as [|ph rest] eqn:E; [reflexivity|].
  rewrite <- E.
  now destruct (forEach_mapless phases phases 0
                  {| points := []; lastTime := Finite 0; labelMap := None |}
                  {| points := []; lastTime := Finite 0;
                     labelMap := labelMap |})
    as (H & _); [repeat split|].
Qed.

Lemma labelsAfter_overlays phases m0 :
  overlays m0 (labelsAfter phases []) (labelsAfter phases m0).
Proof.
  destruct (forEach_alongside m0 phases phases 0
              {| points := []; lastTime := Finite 0;
                 labelMap := Some ([] : LabelMap) |}
              {| points := []; lastTime := Finite 0;
                 labelMap := Some m0 |})
    as (_ & _ & own & m & Hown & Hm & Hover).
  - split; [reflexivity|]. split; [reflexivity|].
    exists [], m0. repeat split.
  - unfold labelsAfter, buildAreaData_state. unfold LabelMap in *.
    now rewrite Hown, Hm.
Qed.

(** X15.  The two series of a panel are built with one map.  The map plays
    no part in the points; after both calls, what it holds for a time
    is the label of the secondary series where that series has a point
    at this time, and the label of the primary series otherwise: on a
    shared time the secondary label replaces the primary one. *)
Theorem shared_label_map phases secondary :
  data (panelData phases (Some secondary)) = buildAreaData phases None
  /\ secondaryData (panelData phases (Some secondary))
     = buildAreaData secondary None
  /\ (secondaryVisible (panelData phases (Some secondary)) = true
      <-> secondary <> [])
  /\ overlays (labelsAfter phases []) (labelsAfter secondary [])
              (labels (panelData phases (Some secondary))).
Proof.
  unfold panelData.
  destruct secondary as [|s rest];
    cbn [data secondaryData secondaryVisible labels].
  - split; [apply buildAreaData_any_map|]. split; [reflexivity|].
    split; [split; [discriminate|congruence]|].
    intros t. reflexivity.
  - split; [apply buildAreaData_any_map|].
    split; [apply buildAreaData_any_map|].
    split; [split; [discriminate|reflexivity]|].
    apply labelsAfter_overlays.
Qed.

(** ** The price scale *)

(** X16.  The price range of the right scale, for phases whose values
    are finite doubles: from 0 to 100 when there is no phase; otherwise
    the range the page computed, whose minimum is not above its maximum
    and which has every value of the displayed phases inside, bounds
    included (the padding can be absorbed by rounding).  A subjective
    axis has the fixed range from 0 to 100.  The padded range exists
    only for values that are all finite: an infinite value or NaN among
    them gives no range. *)
Theorem price_range_covers_display phases axis :
  of_doubles phases ->
  (exists lo hi,
     primaryPriceRange phases axis = Some (lo, hi)
     /\ Number_le lo hi
     /\ covers {| min := lo; max := hi |} (displayPhases phases axis)
     /\ (phases = [] \/ kind_of axis = Some Subjective ->
         lo = Fin 0 /\ hi = Fin 100)
     /\ (phases <> [] ->
         primaryRange phases axis = Some {| min := lo; max := hi |}))
  /\ (forall values r,
        paddedRange values = Some r ->
        Forall (fun v => Number_isFinite v = true) values).
Proof.
  intros Hd. split; [|exact paddedRange_finite].
  unfold primaryPriceRange, applyPriceScale. cbn [negb meta range].
  destruct (primaryRange_covers phases axis Hd) as [Hnil Hcons].
  destruct phases as [|p t].
  - rewrite (Hnil eq_refl).
    exists (Fin 0), (Fin 100). split; [reflexivity|].
    split; [cbn; discriminate|].
    split; [constructor|]. split; [auto|]. congruence.
  - destruct (Hcons ltac:(discriminate)) as (r & Hr & Hcov & Hs).
    rewrite Hr. destruct r as [lo hi]. cbn [min max] in *.
    exists lo, hi. split; [reflexivity|].
    split.
    { apply (covers_ordered {| min := lo; max := hi |}
                            (displayPhases (p :: t) axis)); [|exact Hcov].
      unfold displayPhases. destruct (shouldClamp axis).
      - rewrite normalizePhases_clamping. discriminate.
      - rewrite normalizePhases_passthrough. discriminate. }
    split; [exact Hcov|]. split; [|reflexivity].
    intros [Hnil'|Hsub]; [discriminate|].
    specialize (Hs Hsub). now injection Hs as -> ->.
Qed.

Lemma indexPhases_doubles : of_doubles indexPhases.
Proof.
  repeat constructor;
    match goal with
    | |- is_double ?q => apply (is_double_integer (Qnum q)); reflexivity
    end.
Defined.

(** The index series under an objective axis has the range 4920 to
    6080.  Between 1e16 and 1e16 + 2 the padding of 0.16 is lost in
    rounding, and the range ends at the values themselves; with an
    infinite value there is no range. *)
Lemma price_range_covers_display_witness :
  of_doubles indexPhases
  /\ primaryPriceRange indexPhases
                       (Some (Samples.axisOfKind (Some Objective)))
     = Some (Fin 4920, Fin 6080)
  /\ covers {| min := Fin 4920; max := Fin 6080 |} indexPhases
  /\ primaryPriceRange indexPhases
                       (Some (Samples.axisOfKind (Some Subjective)))
     = Some (Fin 0, Fin 100)
  /\ paddedRange [Fin 10000000000000000; Fin 10000000000000002]
     = Some {| min := Fin 10000000000000000;
               max := Fin 10000000000000002 |}
  /\ paddedRange [Fin 5000; Infinity false] = None.
Proof.
  split; [exact indexPhases_doubles|].
  destruct (price_range_covers_display indexPhases
              (Some (Samples.axisOfKind (Some Objective)))
              indexPhases_doubles)
    as [(lo & hi & Hr & _ & Hcov & _) _].
  assert (E : Some (lo, hi) = Some (Fin 4920, Fin 6080)).
  { rewrite <- Hr. vm_compute. reflexivity. }
  injection E as -> ->.
  split; [exact Hr|]. split; [exact Hcov|].
  split; [vm_compute; reflexivity|]. split; vm_compute; reflexivity.
Defined.

(** X17.  Under an objective axis the page displays the phases as they
    are, and the price range is computed around their values; the
    builder clamps all the same, so that the points of phases that open
    and close at 100 or more all lie at 100, while the range, for
    values that are doubles, has the raw values inside. *)
Theorem objective_series_flattened phases axis labelMap :
  kind_of axis = Some Objective ->
  Forall (fun p => (100 <= open p)%Q /\ (100 <= close p)%Q) phases ->
  displayPhases phases axis = phases
  /\ Forall (fun pt => (value pt == 100)%Q)
            (chartData phases axis labelMap)
  /\ (of_doubles phases ->
      forall r, primaryRange phases axis = Some r -> covers r phases).
Proof.
  intros Hkind Hall.
  assert (Hdisplay : displayPhases phases axis = phases).
  { unfold displayPhases, shouldClamp. rewrite Hkind.
    apply normalizePhases_passthrough. }
  split; [exact Hdisplay|]. split.
  - unfold chartData. rewrite Hdisplay.
    assert (H : Forall (mirrors phases) (buildAreaData phases labelMap)).
    { unfold buildAreaData.
      destruct phases as [|ph0 rest0] eqn:E; [constructor|].
      rewrite <- E. apply forEach_mirrors; [apply incl_refl|constructor]. }
    eapply Forall_impl; [|exact H].
    intros pt [Hin Hv]. rewrite Forall_forall in Hall.
    destruct (Hall _ Hin) as [Ho Hc].
    unfold clampScore in Hv.
    destruct Hv as [-> | ->];
      (rewrite Q.max_l by (eapply Qle_trans; [|eassumption]; discriminate));
      now apply Q.min_r.
  - intros Hd r Hr.
    destruct (primaryRange_covers phases axis Hd) as [Hnil Hcons].
    destruct phases as [|p t]; [constructor|].
    destruct (Hcons ltac:(discriminate)) as (r' & Hr' & Hcov & _).
    assert (r' = r) by congruence. subst r'.
    now rewrite Hdisplay in Hcov.
Qed.

Lemma objective_series_flattened_witness :
  displayPhases indexPhases (Some (Samples.axisOfKind (Some Objective)))
  = indexPhases
  /\ map value
         (chartData indexPhases
                    (Some (Samples.axisOfKind (Some Objective))) None)
     = [clampScore 5000; clampScore 5500; clampScore 6000]
  /\ Forall (fun pt => (value pt == 100)%Q)
            (chartData indexPhases
                       (Some (Samples.axisOfKind (Some Objective))) None)
  /\ primaryRange indexPhases (Some (Samples.axisOfKind (Some Objective)))
     = Some {| min := Fin 4920; max := Fin 6080 |}.
Proof.
  assert (Hall : Forall (fun p => (100 <= open p)%Q /\ (100 <= close p)%Q)
                        indexPhases)
    by (repeat constructor; discriminate).
  destruct (objective_series_flattened indexPhases
              (Some (Samples.axisOfKind (Some Objective))) None
              eq_refl Hall) as (H1 & H2 & _).
  split; [exact H1|]. split; [reflexivity|]. split; [exact H2|].
  vm_compute. reflexivity.
Defined.

(** ** The bounds series *)

Lemma pushPoint_extends t v ph lbl st :
  exists more, points (pushPoint t v ph lbl st) = points st ++ more.
Proof. eexists. reflexivity. Qed.

Lemma phaseStep_extends phases st ph index :
  exists more, points (phaseStep phases st ph index) = points st ++ more.
Proof.
  unfold phaseStep. cbv zeta.
  match goal with
  | |- exists more, points (pushPoint _ _ _ _ ?s) = _ =>
      assert (H : exists more, points s = points st ++ more)
  end.
  { destruct index as [|i]; [apply pushPoint_extends|].
    destruct (nth_error phases i) as [prev|];
      [|exists []; now rewrite app_nil_r].
    destruct (shouldBridge prev ph);
      [apply pushPoint_extends|exists []; now rewrite app_nil_r]. }
  destruct H as (more & Hmore). cbn [pushPoint points].
  rewrite Hmore, <- app_assoc. eexists. reflexivity.
Qed.

Lemma forEach_extends phases l :
  forall index st,
    exists more,
      points (forEach_from (phaseStep phases) l index st)
      = points st ++ more.
Proof.
  induction l as [|ph l IH]; intros index st; cbn.
  - exists []. now rewrite app_nil_r.
  - destruct (IH (S index) (phaseStep phases st ph index)) as (more & ->).
    destruct (phaseStep_extends phases st ph index) as (more' & ->).
    rewrite <- app_assoc. eexists. reflexivity.
Qed.

(** X18.  The first point of a series lies at the time of the first start
    label, or one day after the epoch when that time is not after the
    epoch; its time is positive or, when the label resolves to no
    date, NaN.  The invisible bounds series, which spans the chart from
    0 to 100, is set exactly when there is a phase and its first start
    label resolves. *)
Theorem bounds_need_first_label ph rest secondary :
  exists first more,
    buildAreaData (ph :: rest) (Some []) = first :: more
    /\ time first
       = (if ts_leb (yearToTimestamp (start_year ph) 0) (Finite 0)
          then Finite 86400
          else yearToTimestamp (start_year ph) 0)
    /\ (time first = NaN \/ exists x, time first = Finite x /\ 0 < x)
    /\ (boundsData (panelData (ph :: rest) secondary) = None
        <-> yearToTimestamp (start_year ph) 0 = NaN)
    /\ boundsData (panelData [] secondary) = None.
Proof.
  unfold buildAreaData, buildAreaData_state. cbn [forEach_from].
  set (st1 := phaseStep _ _ ph 0).
  destruct (forEach_extends (ph :: rest) rest 1 st1) as (more & Hmore).
  assert (Hst1 : exists first, points st1 = first :: tl (points st1)
            /\ time first
               = if ts_leb (yearToTimestamp (start_year ph) 0) (Finite 0)
                 then Finite 86400
                 else yearToTimestamp (start_year ph) 0).
  { subst st1. unfold phaseStep. cbn [pushPoint points lastTime app].
    eexists. split; [reflexivity|]. cbn [time Z.of_nat].
    now destruct (yearToTimestamp (start_year ph) 0) as [x|]. }
  destruct Hst1 as (first & Hpts & Htime).
  assert (Hdata : buildAreaData (ph :: rest) (Some [])
                  = first :: (tl (points st1) ++ more)).
  { unfold buildAreaData, buildAreaData_state. cbn [forEach_from].
    fold st1. rewrite Hmore, Hpts. reflexivity. }
  exists first, (tl (points st1) ++ more).
  split; [exact Hdata|]. split; [exact Htime|].
  assert (Hcases : time first = NaN
                   /\ yearToTimestamp (start_year ph) 0 = NaN
                   \/ exists x, time first = Finite x /\ 0 < x
                        /\ yearToTimestamp (start_year ph) 0 <> NaN).
  { rewrite Htime.
    destruct (yearToTimestamp (start_year ph) 0) as [x|]; [|now left].
    right. cbn [ts_leb]. destruct (Z.leb_spec x 0).
    - exists 86400. split; [reflexivity|]. split; [lia|discriminate].
    - exists x. split; [reflexivity|]. split; [lia|discriminate]. }
  split; [|split].
  - destruct Hcases as [[H _]|(x & H & Hx & _)]; [now left|right; eauto].
  - assert (Hb : boundsData (panelData (ph :: rest) secondary)
                 = if ts_truthy (time first)
                   then Some (time first,
                              time (last (first :: tl (points st1) ++ more)
                                         first))
                   else None).
    { unfold panelData. cbv zeta. unfold LabelMap in *. rewrite Hdata.
      now destruct secondary as [[|s l]|]. }
    rewrite Hb.
    destruct Hcases as [[H Hn]|(x & H & Hx & Hn)]; rewrite H; cbn.
    + split; auto.
    + replace (x =? 0) with false by (symmetry; apply Z.eqb_neq; lia).
      cbn. split; [discriminate|contradiction].
  - unfold panelData. now destruct secondary as [[|s l]|].
Qed.

End PanelProofs.

Module RecoveryProofs.

Import Route RouteSpec TextSpec JsFacts.

(** ** Normalized reply text *)

Lemma quotes_plain c :
  typographic
    (if ((c =? 8220) || (c =? 8221))%N then 34%N
     else if ((c =? 8216) || (c =? 8217))%N then 39%N
     else c) = false
  \/ c = 65279%N.
Proof.
  unfold typographic.
  destruct (N.eqb_spec c 8220) as [->|H1]; [now left|].
  destruct (N.eqb_spec c 8221) as [->|H2]; [now left|].
  destruct (N.eqb_spec c 8216) as [->|H3]; [now left|].
  destruct (N.eqb_spec c 8217) as [->|H4]; [now left|].
  destruct (N.eqb_spec c 65279) as [->|H5]; [now right|].
  left. cbn.
  repeat match goal with
         | H : c <> ?k |- _ => apply N.eqb_neq in H; rewrite H; clear H
         end.
  reflexivity.
Qed.

Lemma normalizeJsonText_plain value :
  Forall (fun c => typographic c = false) (normalizeJsonText value).
Proof.
  unfold normalizeJsonText. cbv zeta. apply trim_Forall.
  induction value as [|c value IH]; [constructor|].
  cbn [map filter].
  destruct (quotes_plain c) as [H| ->].
  - destruct (negb _); [constructor; [exact H|exact IH]|exact IH].
  - cbn. exact IH.
Qed.

(** X19.  The text handed to the parser holds no typographic quote and no
    byte-order mark, and neither starts nor ends with white space;
    normalizing it again changes nothing. *)
Theorem normalizeJsonText_normal value :
  Forall (fun c => typographic c = false) (normalizeJsonText value)
  /\ starts_clean (normalizeJsonText value)
  /\ ends_clean (normalizeJsonText value)
  /\ normalizeJsonText (normalizeJsonText value) = normalizeJsonText value.
Proof.
  pose proof (normalizeJsonText_plain value) as Hplain.
  split; [exact Hplain|].
  split; [apply trim_starts|]. split; [apply trim_ends|].
  set (t := normalizeJsonText value) in *.
  assert (Hst : starts_clean t) by apply trim_starts.
  assert (Hen : ends_clean t) by apply trim_ends.
  unfold normalizeJsonText at 1. cbv zeta.
  rewrite map_Forall_id, filter_Forall_id; [now apply trim_id| |].
  - eapply Forall_impl; [|exact Hplain]. intros c Hc. unfold typographic in Hc.
    apply orb_false_iff in Hc as [_ Hc]. now rewrite Hc.
  - eapply Forall_impl; [|exact Hplain]. intros c Hc. unfold typographic in Hc.
    apply orb_false_iff in Hc as [Hc _].
    apply orb_false_iff in Hc as [Hc H4].
    apply orb_false_iff in Hc as [Hc H3].
    apply orb_false_iff in Hc as [H1 H2].
    now rewrite H1, H2, H3, H4.
Qed.

(** ** The slice between the braces *)

(** X20.  The third candidate of the extractor is the part of the text from
    its first opening brace to its last closing brace, both included;
    there is none exactly when no opening brace comes before a closing
    one. *)
Theorem braceSlice_shape trimmed :
  match braceSlice trimmed with
  | Some sliced =>
      exists pre mid post,
        trimmed = pre ++ sliced ++ post
        /\ sliced = 123%N :: mid ++ [125%N]
        /\ lacks 123%N pre /\ lacks 125%N post
  | None =>
      forall pre mid post, trimmed <> pre ++ 123%N :: mid ++ 125%N :: post
  end.
Proof.
  unfold braceSlice, indexOf, lastIndexOf. cbv zeta.
  destruct (indexOf_from_spec 123%N trimmed 0)
    as [[Hno ->]|(pre & post & Ht & Hpre & ->)].
  - cbn [Z.eqb negb andb]. intros pre mid post ->.
    now apply lacks_occurrence in Hno.
  - destruct (lastIndexOf_from_spec 125%N trimmed 0 (-1))
      as [[Hno ->]|(pre' & post' & Ht' & Hpost' & ->)].
    + rewrite andb_false_r. cbn [andb]. intros p m q Heq.
      rewrite Heq in Hno. apply lacks_app in Hno as [_ Hno].
      inversion Hno as [|? ? _ Hno']; subst.
      now apply lacks_occurrence in Hno'.
    + unfold Js.length.
      replace (negb (0 + Z.of_nat (List.length pre) =? -1)) with true
        by (symmetry; apply negb_true_iff, Z.eqb_neq; lia).
      replace (negb (0 + Z.of_nat (List.length pre') =? -1)) with true
        by (symmetry; apply negb_true_iff, Z.eqb_neq; lia).
      cbn [andb]. rewrite Z.gtb_ltb.
      destruct (Z.ltb_spec (0 + Z.of_nat (List.length pre))
                           (0 + Z.of_nat (List.length pre'))) as [Hlt|Hge].
      * assert (Heq : pre ++ 123%N :: post = pre' ++ 125%N :: post')
          by congruence.
        destruct (app_cons_split _ _ _ _ _ _ _ Heq ltac:(lia))
          as (mid & -> & ->).
        assert (Hs : slice trimmed (0 + Z.of_nat (List.length pre))
                       (0 + Z.of_nat (List.length (pre ++ 123%N :: mid)) + 1)
                     = 123%N :: mid ++ [125%N]).
        { unfold slice. rewrite Ht.
          replace (Z.to_nat (0 + Z.of_nat (List.length pre)))
            with (List.length pre + 0)%nat by lia.
          rewrite skipn_app, skipn_all2 by lia.
          replace (List.length pre + 0 - List.length pre)%nat
            with 0%nat by lia.
          cbn [app skipn]. rewrite length_app. cbn [List.length].
          replace (Z.to_nat
                     (0 + Z.of_nat (List.length pre
                                    + S (List.length mid)) + 1
                      - (0 + Z.of_nat (List.length pre))))
            with (S (List.length mid + 1)) by lia.
          cbn [firstn]. f_equal.
          replace (mid ++ 125%N :: post') with ((mid ++ [125%N]) ++ post')
            by now rewrite <- app_assoc.
          rewrite firstn_app, firstn_all2
            by (rewrite length_app; cbn; lia).
          rewrite length_app. cbn [List.length].
          replace (List.length mid + 1 - (List.length mid + 1))%nat
            with 0%nat by lia.
          cbn. now rewrite app_nil_r. }
        rewrite Hs.
        exists pre, mid, post'. split; [|split; [|split]]; try assumption.
        -- rewrite Ht. cbn. now rewrite <- app_assoc.
        -- reflexivity.
      * intros p m q Heq.
        assert (H1 : (List.length pre <= List.length p)%nat).
        { destruct (Nat.le_gt_cases (List.length pre) (List.length p))
            as [H|H]; [exact H|exfalso].
          assert (E : p ++ 123%N :: (m ++ 125%N :: q)
                      = pre ++ 123%N :: post) by congruence.
          destruct (app_cons_split _ _ _ _ _ _ _ E H) as (x & -> & _).
          now apply lacks_occurrence in Hpre. }
        assert (H2 : (List.length p + 1 + List.length m
                      <= List.length pre')%nat).
        { destruct (Nat.le_gt_cases (List.length p + 1 + List.length m)
                                    (List.length pre'))
            as [H|H]; [exact H|exfalso].
          assert (E : pre' ++ 125%N :: post'
                      = (p ++ 123%N :: m) ++ 125%N :: q).
          { rewrite <- Ht', Heq. now rewrite <- app_assoc. }
          assert (Hl : (List.length pre'
                        < List.length (p ++ 123%N :: m))%nat)
            by (rewrite length_app; cbn; lia).
          destruct (app_cons_split _ _ _ _ _ _ _ E Hl) as (x & _ & ->).
          now apply lacks_occurrence in Hpost'. }
        lia.
Qed.

(** ** The payload of an uploaded document *)

Section WithCollaborators.

Context {C : Collaborators}.

(** X21.  What the route decodes of an upload is what follows its last comma:
    the whole content when it holds no comma, and the payload of a
    data URL when it has a header; the decoder never sees a comma. *)
Theorem decodeDocumentBuffer_strips_header input :
  (lacks 44%N input ->
   decodeDocumentBuffer input = Buffer_from_base64 input)
  /\ (forall header payload,
        input = header ++ 44%N :: payload -> lacks 44%N payload ->
        decodeDocumentBuffer input = Buffer_from_base64 payload)
  /\ exists base64,
       decodeDocumentBuffer input = Buffer_from_base64 base64
       /\ lacks 44%N base64.
Proof.
  unfold decodeDocumentBuffer. cbv zeta.
  change (js ",") with [44%N].
  split; [|split].
  - intros H. now rewrite (proj2 (includes_unit _ _) H).
  - intros header payload -> Hp.
    destruct (includes [44%N] (header ++ 44%N :: payload)) eqn:E.
    + now rewrite after_last_comma_payload.
    + apply includes_unit in E. now apply lacks_occurrence in E.
  - destruct (includes [44%N] input) eqn:E.
    + eexists. split; [reflexivity|apply after_last_comma_lacks].
    + exists input. split; [reflexivity|now apply includes_unit].
Qed.

End WithCollaborators.

End RecoveryProofs.

Module ReplyProofs.

Import Route RouteSpec ReplySpec TextSpec JsFacts TextProofs RouteProofs.

Section WithCollaborators.

Context {C : Collaborators}.

Lemma attemptOnce_leaves attempt messages exit :
  attemptOnce attempt messages = Leave (Return exit) ->
  (exists parsed, exit = Break parsed /\ truthy parsed = true)
  \/ (exists details,
        exit = Responded
                 {| http_status := 502;
                    body := ErrorBody
                              (js "DeepSeek 接口暂时不可用，请稍后重试。")
                              (Some details) |}).
Proof.
  unfold attemptOnce.
  destruct (chat_completions attempt messages) as [reply|e];
    [|discriminate].
  destruct (chat_ok reply); cbn [negb].
  - destruct (chat_content reply) as [raw|e]; [|discriminate].
    destruct (Js.truthy (or_empty raw)); cbn [negb]; [|discriminate].
    destruct (extractJsonPayload (or_empty raw)) as [w|e]; [|discriminate].
    destruct (truthy w) eqn:T; [|discriminate].
    intros [= <-]. left. now exists w.
  - destruct (chat_text reply) as [details|e]; cbn [bind];
      [|discriminate].
    intros [= <-]. right. now exists details.
Qed.

Lemma generate_cases query ingestion :
  (exists parsed,
     snd (generate query ingestion)
     = {| http_status := 200;
          body := Enriched parsed (result_status ingestion)
                           (entriesOf ingestion) (errors ingestion) |}
     /\ truthy parsed = true
     /\ validateGeneratedPayload
          parsed (0 <? Z.of_nat (List.length (references ingestion)))
        = Return tt)
  \/ (exists status error details,
        snd (generate query ingestion)
        = {| http_status := status; body := ErrorBody error details |}
        /\ (status = 500 \/ status = 502)
        /\ (details <> None -> status = 502)).
Proof.
  assert (Hexit : forall log exit,
    (forall e, exit = Return e ->
       (exists parsed, e = Break parsed /\ truthy parsed = true)
       \/ (exists details,
             e = Responded
                   {| http_status := 502;
                      body := ErrorBody
                                (js "DeepSeek 接口暂时不可用，请稍后重试。")
                                (Some details) |})
       \/ e = Exhausted) ->
    generationLoop query (promptContextOf ingestion)
                   (referenceInstructionMessageOf ingestion) 2 0
    = (log, exit) ->
    (exists parsed,
       snd (generate query ingestion)
       = {| http_status := 200;
            body := Enriched parsed (result_status ingestion)
                             (entriesOf ingestion) (errors ingestion) |}
       /\ truthy parsed = true
       /\ validateGeneratedPayload
            parsed (0 <? Z.of_nat (List.length (references ingestion)))
          = Return tt)
    \/ (exists status error details,
          snd (generate query ingestion)
          = {| http_status := status; body := ErrorBody error details |}
          /\ (status = 500 \/ status = 502)
          /\ (details <> None -> status = 502))).
  { intros log exit Hshape Hloop. unfold generate. rewrite Hloop.
    destruct exit as [[parsed| |response]|e].
    - destruct (Hshape _ eq_refl)
        as [(w & [= <-] & Hw)|[(d & [=])|[=]]].
      destruct (validateGeneratedPayload parsed _) as [[]|err] eqn:V.
      + left. exists parsed. cbn [snd]. split; [reflexivity|]. now split.
      + right. cbn [snd]. unfold errorResponse. eexists. eexists. eexists.
        split; [reflexivity|]. split; [now right|]. congruence.
    - right. cbn [snd]. unfold unparseable, errorResponse.
      eexists. eexists. eexists.
      split; [reflexivity|]. split; [now right|]. congruence.
    - destruct (Hshape _ eq_refl)
        as [(w & [=] & _)|[(d & [= ->])|[=]]].
      right. cbn [snd]. eexists. eexists. eexists.
      split; [reflexivity|]. split; [now right|]. reflexivity.
    - right. cbn [snd]. unfold errorResponse. eexists. eexists. eexists.
      split; [reflexivity|]. split; [now left|]. congruence. }
  destruct (generationLoop query (promptContextOf ingestion)
              (referenceInstructionMessageOf ingestion) 2 0)
    as [log exit] eqn:Hloop.
  apply (Hexit log exit); [|reflexivity].
  rewrite generationLoop_two in Hloop. cbv zeta in Hloop.
  intros e ->.
  destruct (attemptOnce 0 _) as [|exit0] eqn:A0.
  - destruct (attemptOnce 1 _) as [|exit1] eqn:A1.
    + injection Hloop as _ <-. now right; right.
    + injection Hloop as _ ->.
      destruct (attemptOnce_leaves _ _ _ A1) as [H|H]; [now left|].
      right. now left.
  - injection Hloop as _ ->.
    destruct (attemptOnce_leaves _ _ _ A0) as [H|H]; [now left|].
    right. now left.
Qed.

Lemma entriesOf_bounded ingestion :
  Forall (fun e => Js.length (preview e) <= 241) (entriesOf ingestion).
Proof.
  unfold entriesOf. apply Forall_map, Forall_forall. intros e _. cbn.
  apply (buildReferencePreview_length (entry_content e) 240). lia.
Qed.

(** X22.  Every reply of the handler is of one of two kinds.  A result has
    status 200 and carries the object recovered from the generator,
    which passed the validator: it is an object with five to ten
    phases and, when references were ingested, a digest of at least
    twenty characters; with it come the status and the errors of the
    ingestion and, for every reference, a preview of at most 241 code
    units.  Any other reply has status 400, 500 or 502 and carries an
    error message; it has details only when the generator's endpoint
    answered with an error, which is a 502. *)
Theorem POST_replies apiKey request_json :
  (exists request parsed,
     request_json = Return request
     /\ snd (POST apiKey request_json)
        = {| http_status := 200;
             body := Enriched parsed
                       (result_status (ingestionOf request))
                       (entriesOf (ingestionOf request))
                       (errors (ingestionOf request)) |}
     /\ nonnull_object parsed
     /\ phases_in_bounds parsed
     /\ (references (ingestionOf request) <> [] ->
         digest_long_enough trimmedLength parsed)
     /\ Forall (fun e => Js.length (preview e) <= 241)
               (entriesOf (ingestionOf request)))
  \/ (exists status error details,
        snd (POST apiKey request_json)
        = {| http_status := status; body := ErrorBody error details |}
        /\ (status = 400 \/ status = 500 \/ status = 502)
        /\ (details <> None -> status = 502)).
Proof.
  unfold POST.
  destruct (Js.truthy (or_empty apiKey)); cbn [negb].
  2:{ right. eexists. eexists. eexists. split; [reflexivity|].
      split; [auto|]. congruence. }
  destruct request_json as [request|e].
  2:{ right. eexists. eexists. eexists. split; [reflexivity|].
      split; [auto|]. congruence. }
  cbv zeta.
  destruct (Js.truthy (or_empty (option_map trim (prompt request))));
    cbn [negb].
  2:{ right. eexists. eexists. eexists. split; [reflexivity|].
      split; [auto|]. congruence. }
  fold (ingestionOf request).
  destruct (generate_cases (or_empty (option_map trim (prompt request)))
              (ingestionOf request))
    as [(parsed & Hr & Ht & Hv)|(status & error & details & Hr & Hs & Hd)].
  - left. exists request, parsed. split; [reflexivity|].
    split; [exact Hr|].
    apply validate_accepts_iff in Hv as (Hobj & Hph & Hdig).
    split; [exact Hobj|]. split; [exact Hph|].
    split; [|apply entriesOf_bounded].
    intros Hne. apply Hdig.
    destruct (references (ingestionOf request)); [congruence|reflexivity].
  - right. exists status, error, details. split; [exact Hr|].
    split; [destruct Hs; auto|exact Hd].
Qed.

Lemma served_generates apiKey request_json :
  served apiKey request_json ->
  exists request,
    request_json = Return request
    /\ POST apiKey request_json
       = generate (or_empty (option_map trim (prompt request)))
                  (ingestionOf request).
Proof.
  intros (Hkey & request & -> & Hprompt). exists request.
  split; [reflexivity|]. now apply POST_generates.
Qed.

(** X23.  The handler calls the generator exactly for the requests that
    come with a key, a readable body and a prompt that is not blank.
    For any other request nothing is ingested, the generator and the
    validator are not called, and the status is 500 for the missing
    key and 400 otherwise. *)
Theorem generator_called_iff_served apiKey request_json :
  (served apiKey request_json
   <-> fst (POST apiKey request_json) <> [])
  /\ (served apiKey request_json ->
      exists request tail,
        request_json = Return request
        /\ fst (POST apiKey request_json)
           = Generate 0 (messagesOf
                           (or_empty (option_map trim (prompt request)))
                           (ingestionOf request) 0)
             :: tail)
  /\ (fst (POST apiKey request_json) = [] ->
      exists status error,
        snd (POST apiKey request_json) = errorResponse status error
        /\ (status = 500 <-> Js.truthy (or_empty apiKey) = false)
        /\ (status = 400 <-> Js.truthy (or_empty apiKey) = true)).
Proof.
  assert (Hadm : served apiKey request_json ->
            exists request tail,
              request_json = Return request
              /\ fst (POST apiKey request_json)
                 = Generate 0 (messagesOf
                                 (or_empty (option_map trim (prompt request)))
                                 (ingestionOf request) 0)
                   :: tail).
  { intros H. destruct (served_generates _ _ H) as (request & -> & ->).
    destruct (generate_log (or_empty (option_map trim (prompt request)))
                (ingestionOf request)) as (tail & Hlog & _).
    exists request, tail. split; [reflexivity|exact Hlog]. }
  assert (Hnot : ~ served apiKey request_json ->
            exists status error,
              POST apiKey request_json = ([], errorResponse status error)
              /\ (status = 500 <-> Js.truthy (or_empty apiKey) = false)
              /\ (status = 400 <-> Js.truthy (or_empty apiKey) = true)).
  { intros H. unfold POST.
    destruct (Js.truthy (or_empty apiKey)) eqn:K; cbn [negb].
    - destruct request_json as [request|e].
      + cbv zeta.
        destruct (Js.truthy (or_empty (option_map trim (prompt request))))
          eqn:P; cbn [negb].
        * exfalso. apply H. split; [exact K|]. now exists request.
        * eexists. eexists. split; [reflexivity|].
          split; split; congruence.
      + eexists. eexists. split; [reflexivity|].
        split; split; congruence.
    - eexists. eexists. split; [reflexivity|].
      split; split; congruence. }
  split; [|split].
  - split.
    + intros H. destruct (Hadm H) as (request & tail & _ & ->).
      discriminate.
    + intros Hlog.
      destruct (Js.truthy (or_empty apiKey)) eqn:K.
      * destruct request_json as [request|e].
        -- destruct (Js.truthy
                       (or_empty (option_map trim (prompt request))))
             eqn:P.
           ++ split; [exact K|]. now exists request.
           ++ exfalso. apply Hlog. unfold POST. now rewrite K, P.
        -- exfalso. apply Hlog. unfold POST. now rewrite K.
      * exfalso. apply Hlog. unfold POST. now rewrite K.
  - exact Hadm.
  - intros Hlog.
    destruct (Hnot) as (status & error & Hpost & H500 & H400).
    + intros H. destruct (Hadm H) as (request & tail & _ & Heq).
      rewrite Heq in Hlog. discriminate.
    + exists status, error. rewrite Hpost. auto.
Qed.

(** X24.  A second attempt is made exactly when the first one is answered
    with nothing recoverable.  An object recovered by the first attempt
    goes to the validator at once, which is the last thing the handler
    calls: when the validator refuses the object the reply is a 502
    with the validator's message, and the generator is not asked
    again. *)
Theorem retry_only_when_unrecoverable query ingestion :
  (unrecoverable 0 (messagesOf query ingestion 0)
   <-> generations (fst (generate query ingestion))
       = [(0%nat, messagesOf query ingestion 0);
          (1%nat, messagesOf query ingestion 1)])
  /\ (forall parsed,
        attemptOnce 0 (messagesOf query ingestion 0)
        = Leave (Return (Break parsed)) ->
        fst (generate query ingestion)
        = [Generate 0 (messagesOf query ingestion 0);
           Validate parsed
                    (0 <? Z.of_nat (List.length (references ingestion)))]
        /\ forall message,
             validateGeneratedPayload
               parsed (0 <? Z.of_nat (List.length (references ingestion)))
             = Throw (Error message) ->
             snd (generate query ingestion) = errorResponse 502 message).
Proof.
  unfold messagesOf.
  set (m := attemptMessages query (promptContextOf ingestion)
                            (referenceInstructionMessageOf ingestion)).
  split.
  - rewrite unrecoverable_continue.
    unfold generate. rewrite generationLoop_two. fold m. cbv zeta.
    destruct (attemptOnce 0 (m 0%nat)) as [|[[v| |r]|e]] eqn:A0.
    + split; [intros _|reflexivity].
      destruct (attemptOnce 1 (m 1%nat)) as [|[[v| |r]|e]];
        try reflexivity.
      now destruct (validateGeneratedPayload v _).
    + split; [discriminate|].
      now destruct (validateGeneratedPayload v _).
    + split; discriminate.
    + split; discriminate.
    + split; discriminate.
  - intros parsed A0. unfold generate. rewrite generationLoop_two.
    fold m. cbv zeta. rewrite A0.
    destruct (validateGeneratedPayload parsed _) as [[]|err] eqn:V.
    + split; [reflexivity|]. discriminate.
    + split; [reflexivity|]. now intros message [= ->].
Qed.

Lemma map_join_holds (f : ReferenceEntry -> nat -> jsstring) sep l :
  (forall e i, exists before, f e i = before ++ entry_content e) ->
  forall index,
    Forall (fun e => exists before after,
                       map_join f sep l index
                       = before ++ entry_content e ++ after) l.
Proof.
  intros Hf. induction l as [|x l IH]; intros index; [constructor|].
  destruct l as [|y l].
  - constructor; [|constructor]. cbn.
    destruct (Hf x index) as (before & ->).
    exists before, []. now rewrite app_nil_r.
  - constructor.
    + change (map_join f sep (x :: y :: l) index)
        with (f x index ++ sep ++ map_join f sep (y :: l) (S index)).
      destruct (Hf x index) as (before & ->).
      exists before, (sep ++ map_join f sep (y :: l) (S index)).
      now rewrite <- app_assoc.
    + change (map_join f sep (x :: y :: l) index)
        with (f x index ++ sep ++ map_join f sep (y :: l) (S index)).
      eapply Forall_impl; [|exact (IH (S index))].
      intros e (before & after & ->).
      exists (f x index ++ sep ++ before), after.
      now rewrite <- !app_assoc.
Qed.

(** X25.  Without references the generator gets the system prompt and the
    user prompt and nothing else.  With references it gets, between the
    two, one system message: the instruction to respect the references
    around a block that holds the content of every reference in
    full. *)
Theorem reference_instruction_iff ingestion :
  (references ingestion = [] ->
   referenceBlockOf ingestion = None
   /\ referenceInstructionMessageOf ingestion = []
   /\ forall query attempt,
        List.length (messagesOf query ingestion attempt) = 2%nat)
  /\ (references ingestion <> [] ->
      exists block,
        referenceBlockOf ingestion = Some block
        /\ block <> []
        /\ referenceInstructionMessageOf ingestion
           = [{| role := System; content := referenceInstruction block |}]
        /\ (forall query attempt,
              List.length (messagesOf query ingestion attempt) = 3%nat)
        /\ Forall (fun e => exists before after,
                              block = before ++ entry_content e ++ after)
                  (references ingestion)).
Proof.
  unfold messagesOf, attemptMessages, referenceInstructionMessageOf,
    referenceBlockOf.
  split.
  - intros ->. cbn. auto.
  - intros Hne.
    destruct (references ingestion) as [|x l] eqn:E; [congruence|].
    replace (0 <? Z.of_nat (List.length (x :: l))) with true
      by (symmetry; apply Z.ltb_lt; cbn [List.length]; lia).
    set (block := map_join formatReferenceEntry [10%N; 10%N] (x :: l) 0).
    assert (Hblock : block <> []).
    { subst block. destruct l; cbn; discriminate. }
    exists block. split; [reflexivity|]. split; [exact Hblock|].
    assert (Ht : Js.truthy block = true)
      by (destruct block; [congruence|reflexivity]).
    rewrite Ht. cbn [andb]. split; [reflexivity|].
    split; [intros; reflexivity|].
    apply map_join_holds. intros e i. unfold formatReferenceEntry.
    eexists. rewrite !app_assoc. reflexivity.
Qed.

End WithCollaborators.

End ReplyProofs.

Module HomeProofs.

Import Chart ChartSpec Home HomeSpec TextSpec JsFacts.

(** ** Insights *)









(** ** Reference links *)

Lemma filter_index_length (A : Type) (p : nat -> bool) (l : list A) :
  forall idx, (List.length (filter_index p l idx) <= List.length l)%nat.
Proof.
  induction l as [|x l IH]; intros idx; cbn; [lia|].
  specialize (IH (S idx)). destruct (p idx); cbn; lia.
Qed.

Lemma remove_at_spec (A : Type) (l : list A) :
  forall idx index,
    filter_index (fun i => negb (Nat.eqb i index)) l idx
    = if (idx <=? index)%nat && (index <? idx + List.length l)%nat
      then firstn (index - idx) l ++ skipn (S (index - idx)) l
      else l.
Proof.
  induction l as [|x l IH]; intros idx index; cbn [filter_index].
  - cbn [List.length]. destruct (_ && _); [|reflexivity].
    now rewrite firstn_nil, skipn_nil.
  - rewrite IH. cbn [List.length].
    destruct (Nat.eqb_spec idx index) as [->|Hne]; cbn [negb].
    + replace (S index <=? index)%nat with false
        by (symmetry; apply Nat.leb_gt; lia).
      replace (index <=? index)%nat with true
        by (symmetry; apply Nat.leb_le; lia).
      replace (index <? index + S (List.length l))%nat with true
        by (symmetry; apply Nat.ltb_lt; lia).
      cbn [andb]. now replace (index - index)%nat with 0%nat by lia.
    + destruct (Nat.leb_spec idx index) as [Hle|Hgt].
      * replace (S idx <=? index)%nat with true
          by (symmetry; apply Nat.leb_le; lia).
        replace (index <? S idx + List.length l)%nat
          with (index <? idx + S (List.length l))%nat
          by (f_equal; lia).
        cbn [andb].
        destruct (index <? idx + S (List.length l))%nat; [|reflexivity].
        replace (index - idx)%nat with (S (index - S idx)) by lia.
        reflexivity.
      * replace (S idx <=? index)%nat with false
          by (symmetry; apply Nat.leb_gt; lia).
        reflexivity.
Qed.

(** X27.  The list of link fields is never left empty: adding appends an
    empty field; removing the only field leaves one empty field;
    removing one of several takes out the field at the position and
    keeps the others in order, and a position beyond the list removes
    nothing. *)
Theorem link_fields_never_empty index prev :
  handleAddLink prev = prev ++ [[]]
  /\ (prev <> [] -> handleRemoveLink index prev <> [])
  /\ (List.length prev = 1%nat -> handleRemoveLink index prev = [[]])
  /\ (List.length prev <> 1%nat -> (index < List.length prev)%nat ->
      handleRemoveLink index prev
      = firstn index prev ++ skipn (S index) prev
      /\ S (List.length (handleRemoveLink index prev)) = List.length prev)
  /\ (List.length prev <> 1%nat -> (List.length prev <= index)%nat ->
      handleRemoveLink index prev = prev).
Proof.
  split; [reflexivity|].
  unfold handleRemoveLink. rewrite remove_at_spec.
  cbn [Nat.leb andb Nat.add]. rewrite Nat.sub_0_r.
  split; [|split; [|split]].
  - intros Hne. destruct (Nat.eqb_spec (List.length prev) 1) as [E|E];
      [discriminate|].
    destruct (Nat.ltb_spec index (List.length prev)) as [Hlt|Hge].
    + intros H. apply (f_equal (@List.length _)) in H.
      rewrite length_app, length_firstn, length_skipn in H.
      cbn in H. destruct prev; [congruence|cbn in *; lia].
    + exact Hne.
  - intros ->. reflexivity.
  - intros Hne Hlt.
    destruct (Nat.eqb_spec (List.length prev) 1) as [E|E]; [congruence|].
    replace (index <? List.length prev)%nat with true
      by (symmetry; now apply Nat.ltb_lt).
    split; [reflexivity|].
    rewrite length_app, length_firstn, length_skipn. lia.
  - intros Hne Hge.
    destruct (Nat.eqb_spec (List.length prev) 1) as [E|E]; [congruence|].
    now replace (index <? List.length prev)%nat with false
      by (symmetry; apply Nat.ltb_ge; lia).
Qed.

(** ** Uploaded documents *)

Section WithBrowser.

Context {B : Browser}.

Lemma map_calls_spec batch files :
  forall index promises,
    map_calls (convertFileToDocument batch) files index
    = Route.Return promises ->
    List.length promises = List.length files
    /\ Forall (fun file => file_size file <= MAX_UPLOAD_BYTES) files
    /\ Forall (fun promise =>
                 forall doc, promise = Route.Return doc ->
                   size doc <= MAX_UPLOAD_BYTES
                   /\ lacks 44%N (content doc))
              promises.
Proof.
  induction files as [|file files IH]; intros index promises; cbn.
  - intros [= <-]. repeat split; constructor.
  - unfold convertFileToDocument at 1. rewrite Z.gtb_ltb.
    destruct (Z.ltb_spec MAX_UPLOAD_BYTES (file_size file)) as [Hbig|Hok];
      [discriminate|].
    destruct (map_calls _ files (S index)) as [rest|e] eqn:E;
      [|discriminate].
    intros [= <-]. destruct (IH _ _ E) as (Hlen & Hfiles & Hdocs).
    split; [cbn; lia|]. split; [now constructor|].
    constructor; [|exact Hdocs].
    intros doc. destruct (FileReader_result file) as [result|];
      [|discriminate].
    intros [= <-]. cbn [size content]. split; [exact Hok|].
    change (js ",") with [44%N].
    destruct (includes [44%N] result) eqn:I.
    + apply after_last_comma_lacks.
    + now apply includes_unit.
Qed.

Lemma Promise_all_spec (R : Type) (P : R -> Prop)
    (promises : list (Route.outcome R)) :
  forall values,
    Promise_all promises = Route.Return values ->
    Forall (fun promise => forall v, promise = Route.Return v -> P v)
           promises ->
    List.length values = List.length promises /\ Forall P values.
Proof.
  induction promises as [|p promises IH]; intros values; cbn.
  - intros [= <-] _. split; [reflexivity|constructor].
  - destruct p as [v|e]; [|discriminate].
    destruct (Promise_all promises) as [vs|e] eqn:E; [|discriminate].
    intros [= <-] Hall. inversion Hall as [|? ? Hv Hrest]; subst.
    destruct (IH vs eq_refl Hrest) as [Hlen Hvs].
    split; [cbn; lia|]. constructor; [now apply Hv|exact Hvs].
Qed.

(** X28.  A selection of files is taken whole or not at all: the update
    it asks for appends one document for each of the selected files
    that fit in the free slots, or there is no change.  The free slots
    are those of the documents the callback was made with: applied to
    as many documents as that, of which there are at most five, the
    update leaves at most five.  Every document it adds is of a file of
    at most 2 MiB, and its content holds no comma: what the route
    decodes of it is the content as it is. *)
Theorem selection_all_or_nothing batch documents fileList :
  exists added,
    (forall prev,
       setDocuments (fst (handleFilesSelected batch documents fileList))
                    prev
       = prev ++ added)
    /\ (forall prev,
          List.length prev = List.length documents ->
          (List.length prev <= 5)%nat ->
          (List.length (prev ++ added) <= 5)%nat)
    /\ (added = []
        \/ exists selected,
             fileList = Some selected
             /\ List.length added
                = Nat.min (5 - List.length documents)
                          (List.length selected))
    /\ Forall (fun doc => size doc <= MAX_UPLOAD_BYTES
                          /\ lacks 44%N (content doc)
                          /\ forall C : Route.Collaborators,
                               Route.decodeDocumentBuffer (content doc)
                               = Route.Buffer_from_base64 (content doc))
              added.
Proof.
  assert (Hnone : exists added,
            (forall prev : list ClientDocument,
               setDocuments None prev = prev ++ added)
            /\ (forall prev : list ClientDocument,
                  List.length prev = List.length documents ->
                  (List.length prev <= 5)%nat ->
                  (List.length (prev ++ added) <= 5)%nat)
            /\ (added = []
                \/ exists selected,
                     fileList = Some selected
                     /\ List.length added
                        = Nat.min (5 - List.length documents)
                                  (List.length selected))
            /\ Forall (fun doc => size doc <= MAX_UPLOAD_BYTES
                                  /\ lacks 44%N (content doc)
                                  /\ forall C : Route.Collaborators,
                                       Route.decodeDocumentBuffer
                                         (content doc)
                                       = Route.Buffer_from_base64
                                           (content doc))
                      added).
  { exists []. split; [intros prev; cbn; now rewrite app_nil_r|].
    split; [intros prev _ H; now rewrite app_nil_r|]. split; auto. }
  unfold handleFilesSelected.
  destruct fileList as [[|file files]|]; [exact Hnone| |exact Hnone].
  cbv zeta.
  destruct (Z.max 0 (5 - Z.of_nat (List.length documents)) =? 0) eqn:Z0;
    [exact Hnone|].
  apply Z.eqb_neq in Z0.
  destruct (map_calls _ _ 0) as [promises|e] eqn:M; [|exact Hnone].
  destruct (Promise_all promises) as [parsed|e] eqn:A; [|exact Hnone].
  destruct (map_calls_spec _ _ _ _ M) as (Hlen & _ & Hdocs).
  destruct (Promise_all_spec _ _ _ _ A Hdocs) as [Hlen' Hparsed].
  assert (Hcount : List.length parsed
                   = Nat.min (5 - List.length documents)
                             (List.length (file :: files))).
  { rewrite Hlen', Hlen, length_firstn. f_equal. lia. }
  exists parsed. cbn [fst setDocuments]. split; [reflexivity|].
  split; [intros prev Hsame H5; rewrite length_app, Hcount; lia|].
  split; [right; now exists (file :: files)|].
  eapply Forall_impl; [|exact Hparsed].
  intros doc [Hsize Hcomma]. split; [exact Hsize|]. split; [exact Hcomma|].
  intros C. unfold Route.decodeDocumentBuffer.
  change (js ",") with [44%N].
  now rewrite (proj2 (includes_unit _ _) Hcomma).
Qed.

(** ** The page and the route *)

Context {C : Route.Collaborators}.

Lemma activeLinks_fixed referenceLinks :
  filter Js.truthy (map trim (activeLinksOf referenceLinks))
  = activeLinksOf referenceLinks.
Proof.
  unfold activeLinksOf.
  induction referenceLinks as [|l ls IH]; [reflexivity|].
  cbn [map filter]. destruct (Js.truthy (trim l)) eqn:T; [|exact IH].
  cbn [map filter]. rewrite trim_idem, T. now rewrite IH.
Qed.

(** X29.  The page sends no request for a blank query.  What it sends is
    what the handler works on: the handler's own trimming of the
    prompt and of the supplemental text and its own filtering of the
    links change nothing, its limit of five documents drops nothing
    when the page holds at most five, and its test for a blank prompt
    does not fire. *)
Theorem page_request_passes_unchanged referenceLinks supplementText
    documents input apiKey :
  (requestPayload referenceLinks supplementText documents input = None
   <-> trim input = [])
  /\ forall request,
       requestPayload referenceLinks supplementText documents input
       = Some request ->
       Js.truthy (Route.or_empty apiKey) = true ->
       (List.length documents <= 5)%nat ->
       ReplySpec.served apiKey (Route.Return request)
       /\ Route.POST apiKey (Route.Return request)
          = Route.generate (trim input)
              (Route.ingestReferences
                 (supplementalOf supplementText)
                 (activeLinksOf referenceLinks)
                 (map toUploaded documents)).
Proof.
  unfold requestPayload. cbv zeta.
  destruct (trim input) as [|c t] eqn:Q; cbn [Js.truthy negb].
  - split; [split; reflexivity|discriminate].
  - split; [split; discriminate|].
    intros request Hrequest Hkey Hdocs.
    assert (Hreq : request
                   = {| Route.prompt := Some (c :: t);
                        Route.supplementalText :=
                          supplementalOf supplementText;
                        Route.links := Some (activeLinksOf referenceLinks);
                        Route.documents :=
                          Some (map toUploaded documents) |})
      by (injection Hrequest as <-; reflexivity).
    subst request. clear Hrequest.
    assert (Hq : trim (c :: t) = c :: t) by (rewrite <- Q; apply trim_idem).
    assert (Hprompt :
      Js.truthy (Route.or_empty
                   (option_map trim (Route.prompt
                      {| Route.prompt := Some (c :: t);
                         Route.supplementalText :=
                           supplementalOf supplementText;
                         Route.links := Some (activeLinksOf referenceLinks);
                         Route.documents :=
                           Some (map toUploaded documents) |})))
      = true)
      by (cbn [Route.prompt option_map Route.or_empty]; now rewrite Hq).
    split.
    + split; [exact Hkey|]. eexists. split; [reflexivity|exact Hprompt].
    + rewrite RouteProofs.POST_generates by assumption.
      cbn [Route.prompt Route.supplementalText Route.links Route.documents
           option_map Route.or_empty].
      rewrite Hq, activeLinks_fixed.
      rewrite firstn_all2 by (rewrite length_map; lia).
      f_equal. f_equal. unfold supplementalOf.
      destruct (Js.truthy (trim supplementText)); [|reflexivity].
      cbn [option_map]. now rewrite trim_idem.
Qed.

Lemma POST_shapes apiKey request_json :
  (exists parsed status entries errs,
     snd (Route.POST apiKey request_json)
     = {| Route.http_status := 200;
          Route.body := Route.Enriched parsed status entries errs |}
     /\ RouteSpec.phases_in_bounds parsed)
  \/ (exists status error details,
        snd (Route.POST apiKey request_json)
        = {| Route.http_status := status;
             Route.body := Route.ErrorBody error details |}
        /\ (status = 400 \/ status = 500 \/ status = 502)).
Proof.
  unfold Route.POST.
  destruct (Js.truthy (Route.or_empty apiKey)); cbn [negb].
  2:{ right. eexists. eexists. eexists. split; [reflexivity|]. auto. }
  destruct request_json as [request|e].
  2:{ right. eexists. eexists. eexists. split; [reflexivity|]. auto. }
  cbv zeta.
  destruct (Js.truthy (Route.or_empty
                         (option_map trim (Route.prompt request))));
    cbn [negb].
  2:{ right. eexists. eexists. eexists. split; [reflexivity|]. auto. }
  match goal with
  | |- context [Route.generate ?q ?i] =>
      destruct (ReplyProofs.generate_cases q i)
        as [(parsed & Hr & Ht & Hv)|(status & error & details & Hr & Hs & _)]
  end.
  - left. eexists. eexists. eexists. eexists. split; [exact Hr|].
    now apply RouteProofs.validate_accepts_iff in Hv as (_ & Hph & _).
  - right. exists status, error, details. split; [exact Hr|].
    destruct Hs; auto.
Qed.

(** X30.  What the page does with any reply of the handler: a result, which
    has status 200 and five to ten phases, replaces the result on the
    page; of any other reply the page shows the error message of the
    handler and nothing else: the details the handler adds when the
    generator's endpoint fails are a string, the page looks for a
    list, and they are not shown. *)
Theorem page_renders_every_reply apiKey request_json :
  (Route.http_status (snd (Route.POST apiKey request_json)) = 200 ->
   receive (snd (Route.POST apiKey request_json))
   = Replaced (Route.body (snd (Route.POST apiKey request_json))))
  /\ (Route.http_status (snd (Route.POST apiKey request_json)) <> 200 ->
      exists error details,
        Route.body (snd (Route.POST apiKey request_json))
        = Route.ErrorBody error details
        /\ receive (snd (Route.POST apiKey request_json))
           = Unchanged error).
Proof.
  destruct (POST_shapes apiKey request_json)
    as [(parsed & status & entries & errs & -> & items & Hget & Hlen)
       |(status & error & details & -> & Hs)];
    cbn [Route.http_status Route.body].
  - split; [intros _|congruence].
    unfold receive. cbn [res_ok Route.http_status Route.body negb
                         Z.leb Z.compare Pos.compare Pos.compare_cont andb].
    cbn [member]. rewrite Hget. cbn [has_length].
    destruct items; [cbn in Hlen; lia|reflexivity].
  - split.
    + intros ->. destruct Hs as [|[|]]; discriminate.
    + intros _. exists error, details. split; [reflexivity|].
      unfold receive. cbn [Route.http_status Route.body].
      assert (Hok : res_ok {| Route.http_status := status;
                              Route.body := Route.ErrorBody error details |}
                    = false)
        by (destruct Hs as [-> | [-> | ->]]; reflexivity).
      rewrite Hok. cbn [negb member].
      change (Js.eqb (js "details") (js "error")) with false.
      change (Js.eqb (js "details") (js "details")) with true.
      change (Js.eqb (js "error") (js "error")) with true.
      cbn iota.
      destruct details as [d|]; cbn [option_map]; now rewrite app_nil_r.
Qed.

End WithBrowser.

(** Two selections of three files each on a page that holds nothing.
    When the second is counted against the documents the first has
    left, the page ends with five; when both are counted against the
    empty page, as happens when the second is made while the files of
    the first are still being read, the page ends with six. *)
Lemma selection_all_or_nothing_witness :
  List.length Samples.firstSelection = 3%nat
  /\ (List.length
        (setDocuments
           (fst (handleFilesSelected (B := Samples.plainBrowser) 1
                   Samples.firstSelection (Some Samples.threeFiles)))
           Samples.firstSelection) <= 5)%nat
  /\ List.length
       (setDocuments
          (fst (handleFilesSelected (B := Samples.plainBrowser) 1
                  [] (Some Samples.threeFiles)))
          Samples.firstSelection) = 6%nat.
Proof.
  split; [reflexivity|]. split; [|reflexivity].
  destruct (@selection_all_or_nothing Samples.plainBrowser 1
              Samples.firstSelection (Some Samples.threeFiles))
    as (added & Hupdate & Hcap & _).
  rewrite Hupdate. apply Hcap; [reflexivity|].
  vm_compute. repeat constructor.
Defined.

End HomeProofs.
